(** * Admin task sender (master) and space manager (data node)

    A shallow embedding of
    - [src/unnamed/part_000]          (package datanode: the extent release hook),
    - [src/datanode/space_manager.go] (package datanode: disks and partitions),
    - [src/master/admin_task_sender.go] (package master: the dispatch loop),
    followed by the properties established about them.

    Conventions.  Go maps are [gmap]s.  A Go pointer is the key of the object
    in an explicit store, so that two references to one object see the same
    mutations.  Calls that leave the process (the connection pool, the wire,
    the partition factory, the file system, the alarm channel) are recorded
    in an event trace, oldest event first.  Methods and constants of packages
    that are not part of the sources ([proto], [repl], [storage], [util]) are
    fields of a type class and every statement holds for all instances.  An
    address without object in its store does not occur in a run of the Go
    code (a pointer is either nil or live); the functions below skip it. *)

From stdpp Require Import gmap strings list fin_maps pretty.

(** ** Shared scalar helpers *)

(** Go arithmetic on [uint8]: the result modulo [2^8]. *)
Definition uint8 (x : Z) : Z := (x mod 2 ^ 8)%Z.

(** Go conversion [uint32(x)]. *)
Definition uint32 (x : Z) : Z := (x mod 2 ^ 32)%Z.

(** Go conversion [uint64(x)]. *)
Definition uint64 (x : Z) : Z := (x mod 2 ^ 64)%Z.

(** The range of the Go type [int] on the 64-bit targets of the project. *)
Definition int_range (x : Z) : Prop := (- 2 ^ 63 <= x < 2 ^ 63)%Z.

(** A computation that may hit a Go run-time panic. *)
Inductive outcome (A : Type) : Type :=
  | Done (a : A)
  | Panic.
Arguments Done {A} a.
Arguments Panic {A}.

(** ** Package datanode *)

Module Datanode.
Local Open Scope Z_scope.

(** *** The extent release hook ([src/unnamed/part_000]) *)

(** [repl.Packet], restricted to the fields the hook reads or writes.
    [Object] is the untyped back-reference to the owning partition: [None]
    is the nil interface, [Some a] the partition at address [a]. *)
Record Packet : Type := mkPacket {
  Opcode : Z;
  ExtentMode : Z;
  ExtentID : Z;
  ResultCode : Z;
  RemainingFollowers : Z;
  IsRelase : Z;
  Object : option positive;
  NeedReply : bool
}.

(** [atomic.StoreInt32(&pkg.IsRelase, v)]. *)
Definition storeIsRelase (v : Z) (p : Packet) : Packet :=
  {| Opcode := Opcode p; ExtentMode := ExtentMode p; ExtentID := ExtentID p;
     ResultCode := ResultCode p; RemainingFollowers := RemainingFollowers p;
     IsRelase := v; Object := Object p; NeedReply := NeedReply p |}.

(** What the hook calls outside its own file: constants of [proto] and of the
    package, predicates of [repl] and [storage]. *)
Class PacketOps : Type := {
  TinyExtentMode : Z;
  HasReturnToStore : Z;
  IsTinyExtent : Z -> bool;
  isLeaderPacket : Packet -> bool;
  isWriteOperation : Packet -> bool;
  IsForwardPkg : Packet -> bool;
  IsErrPacket : Packet -> bool
}.

(** The two free queues of a partition's extent store; the head of the list
    is the oldest entry. *)
Record ExtentStore : Type := mkExtentStore {
  avaliTinyExtentCh : list Z;
  unavaliTinyExtentCh : list Z
}.

Definition emptyStore : ExtentStore :=
  {| avaliTinyExtentCh := []; unavaliTinyExtentCh := [] |}.

(** The extent stores of the node, by partition address. *)
Definition GetStore (stores : gmap positive ExtentStore) (partition : positive)
  : ExtentStore :=
  default emptyStore (stores !! partition).

Definition PutTinyExtentToAvaliCh (partition : positive) (extentID : Z)
  (stores : gmap positive ExtentStore) : gmap positive ExtentStore :=
  let s := GetStore stores partition in
  <[partition := {| avaliTinyExtentCh := avaliTinyExtentCh s ++ [extentID];
                    unavaliTinyExtentCh := unavaliTinyExtentCh s |}]> stores.

Definition PutTinyExtentToUnavaliCh (partition : positive) (extentID : Z)
  (stores : gmap positive ExtentStore) : gmap positive ExtentStore :=
  let s := GetStore stores partition in
  <[partition := {| avaliTinyExtentCh := avaliTinyExtentCh s;
                    unavaliTinyExtentCh := unavaliTinyExtentCh s ++ [extentID] |}]> stores.

(** Number of extent ids waiting on the two queues of a store, and on the
    queues of all stores. *)
Definition weight (s : ExtentStore) : nat :=
  (length (avaliTinyExtentCh s) + length (unavaliTinyExtentCh s))%nat.

Definition queued (stores : gmap positive ExtentStore) : nat :=
  map_fold (fun _ s n => (n + weight s)%nat) 0%nat stores.

(** [func (s *DataNode) releaseExtent(pkg *repl.Packet)].  The argument is a
    pointer: [None] is nil; the packet after the call is returned next to the
    stores. *)
Definition releaseExtent {ops : PacketOps} (pkg : option Packet)
  (stores : gmap positive ExtentStore)
  : option Packet * gmap positive ExtentStore :=
  match pkg with
  | None => (None, stores)
  | Some p =>
    if negb (IsTinyExtent (ExtentID p)) || (ExtentID p <=? 0)
       || (IsRelase p =? HasReturnToStore)
    then (Some p, stores)
    else if negb (ExtentMode p =? TinyExtentMode) || negb (isLeaderPacket p)
            || negb (isWriteOperation p) || negb (IsForwardPkg p)
    then (Some p, stores)
    else match Object p with
         | None => (Some p, stores)
         | Some partition =>
           let stores' :=
             if IsErrPacket p
             then PutTinyExtentToUnavaliCh partition (ExtentID p) stores
             else PutTinyExtentToAvaliCh partition (ExtentID p) stores in
           (Some (storeIsRelase HasReturnToStore p), stores')
         end
  end.

(** The hook called twice in a row on one packet. *)
Definition releaseExtentTwice {ops : PacketOps} (pkg : option Packet)
  (stores : gmap positive ExtentStore)
  : option Packet * gmap positive ExtentStore :=
  let r := releaseExtent pkg stores in
  releaseExtent r.1 r.2.

(** The conjunction of the tests of [releaseExtent] that lead to a release. *)
Definition releases {ops : PacketOps} (p : Packet) : bool :=
  IsTinyExtent (ExtentID p) && (0 <? ExtentID p)
  && negb (IsRelase p =? HasReturnToStore)
  && (ExtentMode p =? TinyExtentMode) && isLeaderPacket p
  && isWriteOperation p && IsForwardPkg p
  && bool_decide (is_Some (Object p)).

(** What [Post] and its helpers call outside their file besides [PacketOps]:
    [repl.Packet.IsMasterCommand] and two opcodes of [proto]. *)
Class PostOps : Type := {
  IsMasterCommand : Packet -> bool;
  OpStreamRead : Z;
  OpCreateDataPartition : Z
}.

(** The calls of [Post] that leave the hook: [pkg.PutConnectsToPool()] and
    [reply.AfterTp()]. *)
Inductive HookEvent : Type :=
  | EvPutConnectsToPool
  | EvAfterTp.

(** The extent stores together with the trace of these calls. *)
Record HookState : Type := mkHookState {
  hookStores : gmap positive ExtentStore;
  hookCalls : list HookEvent
}.

(** [pkg.NeedReply = b]. *)
Definition setNeedReply (b : bool) (p : Packet) : Packet :=
  {| Opcode := Opcode p; ExtentMode := ExtentMode p; ExtentID := ExtentID p;
     ResultCode := ResultCode p; RemainingFollowers := RemainingFollowers p;
     IsRelase := IsRelase p; Object := Object p; NeedReply := b |}.

(** [func (s *DataNode) cleanupPkg(pkg *repl.Packet)], on a non-nil packet
    (the first statement calls a method of the packet).  The tests after
    [releaseExtent] read the packet as the release left it. *)
Definition cleanupPkg {ops : PacketOps} {post : PostOps} (pkg : Packet)
  (st : HookState) : Packet * HookState :=
  if IsMasterCommand pkg then (pkg, st)
  else if negb (isLeaderPacket pkg) then (pkg, st)
  else
    let r := releaseExtent (Some pkg) (hookStores st) in
    let pkg' := default pkg r.1 in
    if (ExtentMode pkg' =? TinyExtentMode) && isWriteOperation pkg'
    then (pkg', {| hookStores := r.2;
                   hookCalls := hookCalls st ++ [EvPutConnectsToPool] |})
    else (pkg', {| hookStores := r.2; hookCalls := hookCalls st |}).

(** [func (s *DataNode) addMetrics(reply *repl.Packet)]: after [AfterTp] the
    function only inspects the back-reference. *)
Definition addMetrics {post : PostOps} (reply : Packet) (st : HookState)
  : HookState :=
  if IsMasterCommand reply then st
  else {| hookStores := hookStores st; hookCalls := hookCalls st ++ [EvAfterTp] |}.

(** [func (s *DataNode) Post(pkg *repl.Packet) error], on a non-nil packet.
    The error returned is always nil and is left out. *)
Definition Post {ops : PacketOps} {post : PostOps} (pkg : Packet)
  (st : HookState) : Packet * HookState :=
  let p1 := if IsMasterCommand pkg then setNeedReply false pkg else pkg in
  let p2 := if Opcode p1 =? OpStreamRead then setNeedReply false p1 else p1 in
  let p3 := if Opcode p2 =? OpCreateDataPartition then setNeedReply true p2 else p2 in
  let r := cleanupPkg p3 st in
  (r.1, addMetrics r.1 r.2).

(** [Post] called [n] times in a row on one packet. *)
Fixpoint PostTimes {ops : PacketOps} {post : PostOps} (n : nat) (pkg : Packet)
  (st : HookState) : Packet * HookState :=
  match n with
  | O => (pkg, st)
  | S n' => let r := Post pkg st in PostTimes n' r.1 r.2
  end.

(** *** The space manager ([src/datanode/space_manager.go]) *)

(** [Disk], restricted to the fields the space manager reads. *)
Record Disk : Type := mkDisk {
  Path : string;
  Total : Z;
  Used : Z;
  Available : Z;
  Allocated : Z;
  Unallocated : Z
}.

(** The interface [DataPartition], seen through the methods [ID()], [Disk()]
    (the path of the disk it sits on) and [Path()]. *)
Record DataPartition : Type := mkDataPartition {
  ID : Z;
  DiskOf : string;
  PathOf : string
}.

(** [proto.CreateDataPartitionRequest]. *)
Record CreateDataPartitionRequest : Type := mkRequest {
  PartitionId : Z;
  PartitionSize : Z;
  VolumeId : string;
  PartitionType : string;
  RandomWrite : bool;
  Members : list string
}.

(** [dataPartitionCfg], built by [CreatePartition] from the request and the
    manager. *)
Record dataPartitionCfg : Type := mkCfg {
  cfgPartitionId : Z;
  cfgVolName : string;
  cfgPeers : list string;
  cfgNodeId : Z;
  cfgClusterId : string;
  cfgPartitionSize : Z;
  cfgPartitionType : string;
  cfgRandomWrite : bool
}.

Inductive error : Type :=
  | ErrNoDiskForCreatePartition
  | ErrDiskNotExist (path : string)
  | ErrFactory (msg : string).

(** [spaceManager], without its locks, channels and raft store. *)
Record spaceManager : Type := mkSpace {
  clusterId : string;
  disks : gmap string Disk;
  partitions : gmap Z DataPartition;
  nodeId : Z;
  chooseIndex : Z;
  diskList : list string
}.

(** What leaves the manager. *)
Inductive Event : Type :=
  | EvSelectDisk (path : string)
  | EvCreateDataPartition (cfg : dataPartitionCfg) (path : string)
  | EvStop (dp : DataPartition)
  | EvDetachDataPartition (dp : DataPartition)
  | EvRemoveAll (path : string).

(** The manager together with the trace of its outside calls. *)
Record World : Type := mkWorld {
  space : spaceManager;
  trace : list Event
}.

(** The collaborators of the manager that are not part of the sources: the
    partition factory [CreateDataPartition(cfg, disk)], which returns Go's
    pair (partition, error) and the disk as it left it, and
    [Disk.DetachDataPartition]. *)
Class PartitionOps : Type := {
  CreateDataPartition :
    dataPartitionCfg -> Disk -> (option DataPartition * option error) * Disk;
  DetachDataPartition : Disk -> DataPartition -> Disk
}.

(** State, trace and panic. *)
Definition M (A : Type) : Type := World -> outcome (A * World).

Definition ret {A : Type} (a : A) : M A := fun w => Done (a, w).

Definition bind {A B : Type} (m : M A) (k : A -> M B) : M B :=
  fun w => match m w with
           | Done (a, w') => k a w'
           | Panic => Panic
           end.

Definition panic {A : Type} : M A := fun _ => Panic.

Definition get : M spaceManager := fun w => Done (space w, w).

Definition put (s : spaceManager) : M unit :=
  fun w => Done (tt, {| space := s; trace := trace w |}).

Definition emit (e : Event) : M unit :=
  fun w => Done (tt, {| space := space w; trace := trace w ++ [e] |}).

Declare Scope sm_scope.
Delimit Scope sm_scope with sm.
Notation "x <- m ;; k" := (bind m (fun x => k))
  (at level 100, m at next level, right associativity) : sm_scope.
Notation "m ;;; k" := (bind m (fun _ => k))
  (at level 100, right associativity) : sm_scope.
Local Open Scope sm_scope.

Definition setChooseIndex (i : Z) (s : spaceManager) : spaceManager :=
  {| clusterId := clusterId s; disks := disks s; partitions := partitions s;
     nodeId := nodeId s; chooseIndex := i; diskList := diskList s |}.

Definition setDisks (d : gmap string Disk) (s : spaceManager) : spaceManager :=
  {| clusterId := clusterId s; disks := d; partitions := partitions s;
     nodeId := nodeId s; chooseIndex := chooseIndex s; diskList := diskList s |}.

Definition setPartitions (p : gmap Z DataPartition) (s : spaceManager)
  : spaceManager :=
  {| clusterId := clusterId s; disks := disks s; partitions := p;
     nodeId := nodeId s; chooseIndex := chooseIndex s; diskList := diskList s |}.

Definition setDiskList (l : list string) (s : spaceManager) : spaceManager :=
  {| clusterId := clusterId s; disks := disks s; partitions := partitions s;
     nodeId := nodeId s; chooseIndex := chooseIndex s; diskList := l |}.

(** [GetDisk(path)]: the disk registered under [path], or an error. *)
Definition GetDisk (path : string) (s : spaceManager) : Disk + error :=
  match disks s !! path with
  | Some d => inl d
  | None => inr (ErrDiskNotExist path)
  end.

(** [putDisk(d)]. *)
Definition putDisk (d : Disk) (s : spaceManager) : spaceManager :=
  setDiskList (diskList s ++ [Path d]) (setDisks (<[Path d := d]> (disks s)) s).

(** [getMinPartitionCntDisk()]: resets the cursor when it is past the list,
    indexes [diskList] (a run-time panic when out of range), looks the path
    up in [disks] and advances the cursor.  The result is the pointer found:
    the path when [disks] has it, nil ([None]) otherwise. *)
Definition getMinPartitionCntDisk : M (option string) :=
  s <- get ;;
  let idx := if Z.of_nat (length (diskList s)) <=? chooseIndex s
             then 0 else chooseIndex s in
  if idx <? 0 then panic
  else match diskList s !! Z.to_nat idx with
       | None => panic
       | Some path =>
         put (setChooseIndex (idx + 1) s) ;;;
         emit (EvSelectDisk path) ;;;
         ret (if disks s !! path is Some _ then Some path else None)
       end.

(** The selection loop of [CreatePartition]:
    [for i := 0; i < len(space.disks); i++], with [n] the iterations left.
    [disk.Available] on a nil disk is a run-time panic. *)
Fixpoint selectDisk (n : nat) (size : Z) : M (option string) :=
  match n with
  | O => ret None
  | S n' =>
    d <- getMinPartitionCntDisk ;;
    match d with
    | None => panic
    | Some path =>
      s <- get ;;
      match disks s !! path with
      | None => panic
      | Some disk =>
        if Available disk <? uint64 size
        then selectDisk n' size
        else ret (Some path)
      end
    end
  end.

(** [GetPartition(partitionId)]: nil ([None]) when absent. *)
Definition GetPartition (partitionId : Z) (s : spaceManager)
  : option DataPartition :=
  partitions s !! partitionId.

(** [putPartition(dp)]. *)
Definition putPartition (dp : DataPartition) (s : spaceManager) : spaceManager :=
  setPartitions (<[ID dp := dp]> (partitions s)) s.

(** [CreatePartition(request)], returning Go's pair (partition, error). *)
Definition CreatePartition {pops : PartitionOps} (request : CreateDataPartitionRequest)
  : M (option DataPartition * option error) :=
  s <- get ;;
  let dpCfg := {| cfgPartitionId := uint32 (PartitionId request);
                  cfgVolName := VolumeId request;
                  cfgPeers := Members request;
                  cfgNodeId := nodeId s;
                  cfgClusterId := clusterId s;
                  cfgPartitionSize := PartitionSize request;
                  cfgPartitionType := PartitionType request;
                  cfgRandomWrite := RandomWrite request |} in
  match partitions s !! cfgPartitionId dpCfg with
  | Some dp => ret (Some dp, None)
  | None =>
    disk <- selectDisk (size (disks s)) (cfgPartitionSize dpCfg) ;;
    match disk with
    | None => ret (None, Some ErrNoDiskForCreatePartition)
    | Some path =>
      s1 <- get ;;
      match disks s1 !! path with
      | None => panic
      | Some d =>
        emit (EvCreateDataPartition dpCfg path) ;;;
        let '(r, d') := CreateDataPartition dpCfg d in
        put (setDisks (<[path := d']> (disks s1)) s1) ;;;
        match r with
        | (dp, Some err) => ret (dp, Some err)
        | (None, None) => panic
        | (Some dp, None) =>
          s2 <- get ;;
          put (putPartition dp s2) ;;;
          ret (Some dp, None)
        end
      end
    end
  end.

(** [DeletePartition(dpId)]. *)
Definition DeletePartition {pops : PartitionOps} (dpId : Z) : M unit :=
  s <- get ;;
  match GetPartition dpId s with
  | None => ret tt
  | Some dp =>
    put (setPartitions (delete dpId (partitions s)) s) ;;;
    emit (EvStop dp) ;;;
    s1 <- get ;;
    put (setDisks (alter (fun d => DetachDataPartition d dp) (DiskOf dp) (disks s1)) s1) ;;;
    emit (EvDetachDataPartition dp) ;;;
    emit (EvRemoveAll (PathOf dp))
  end.

(** The configuration [CreatePartition] builds from a request. *)
Definition cfgOf (request : CreateDataPartitionRequest) (s : spaceManager)
  : dataPartitionCfg :=
  {| cfgPartitionId := uint32 (PartitionId request);
     cfgVolName := VolumeId request;
     cfgPeers := Members request;
     cfgNodeId := nodeId s;
     cfgClusterId := clusterId s;
     cfgPartitionSize := PartitionSize request;
     cfgPartitionType := PartitionType request;
     cfgRandomWrite := RandomWrite request |}.

(** The test of the selection loop on the disk registered under [path]:
    [disk.Available < uint64(dpCfg.PartitionSize)] is false. *)
Definition fitsOn (s : spaceManager) (size : Z) (path : string) : bool :=
  match disks s !! path with
  | Some d => negb (Available d <? uint64 size)
  | None => false
  end.

(** The cursor as [getMinPartitionCntDisk] reads it: reset when it is past
    the list. *)
Definition cursor (s : spaceManager) : nat :=
  Z.to_nat (if Z.of_nat (length (diskList s)) <=? chooseIndex s
            then 0 else chooseIndex s).

(** The position of [diskList] that the selector reaches after [j] calls. *)
Definition reached (s : spaceManager) (j : nat) : nat :=
  ((cursor s + j) `mod` length (diskList s))%nat.

(** [n] calls of [getMinPartitionCntDisk] in a row, with their results. *)
Fixpoint selectMany (n : nat) : M (list (option string)) :=
  match n with
  | O => ret []
  | S n' =>
    d <- getMinPartitionCntDisk ;;
    ds <- selectMany n' ;;
    ret (d :: ds)
  end.

(** The collaborators of [LoadDisk] that are not part of the sources:
    [NewDisk(path, restSize, maxErrs, space)] and the partitions that
    [disk.RestorePartition] hands to its visitor, in the order of the
    calls. *)
Class DiskOps : Type := {
  NewDisk : string -> Z -> Z -> Disk;
  RestorePartition : Disk -> list DataPartition
}.

(** The visitor of [LoadDisk]: registers the partition unless its id is
    taken. *)
Definition visitor (dp : DataPartition) (s : spaceManager) : spaceManager :=
  match partitions s !! ID dp with
  | Some _ => s
  | None => setPartitions (<[ID dp := dp]> (partitions s)) s
  end.

(** [LoadDisk(path, restSize, maxErrs)]; the error returned is always nil
    and is left out. *)
Definition LoadDisk {dops : DiskOps} (path : string) (restSize maxErrs : Z)
  (s : spaceManager) : spaceManager :=
  match GetDisk path s with
  | inl _ => s
  | inr _ =>
    let disk := NewDisk path restSize maxErrs in
    putDisk disk (foldl (fun acc dp => visitor dp acc) s (RestorePartition disk))
  end.

(** The seven values [updateMetrics] hands to [stats.updateMetrics]. *)
Record Metrics : Type := mkMetrics {
  mTotal : Z;
  mUsed : Z;
  mAvailable : Z;
  mCreatedPartitionWeights : Z;
  mRemainWeightsForCreatePartition : Z;
  mMaxWeightsForCreatePartition : Z;
  mPartitionCnt : Z
}.

(** [Disk.PartitionCount()], which is not part of the sources. *)
Class DiskStats : Type := {
  PartitionCount : Disk -> Z
}.

(** The body of the loop of [updateMetrics]; the sums are [uint64]. *)
Definition addDisk {dstats : DiskStats} (m : Metrics) (d : Disk) : Metrics :=
  {| mTotal := uint64 (mTotal m + Total d);
     mUsed := uint64 (mUsed m + Used d);
     mAvailable := uint64 (mAvailable m + Available d);
     mCreatedPartitionWeights := uint64 (mCreatedPartitionWeights m + Allocated d);
     mRemainWeightsForCreatePartition :=
       uint64 (mRemainWeightsForCreatePartition m + Unallocated d);
     mMaxWeightsForCreatePartition :=
       if mMaxWeightsForCreatePartition m <? Unallocated d
       then Unallocated d else mMaxWeightsForCreatePartition m;
     mPartitionCnt := uint64 (mPartitionCnt m + uint64 (PartitionCount d)) |}.

Definition zeroMetrics : Metrics :=
  {| mTotal := 0; mUsed := 0; mAvailable := 0; mCreatedPartitionWeights := 0;
     mRemainWeightsForCreatePartition := 0; mMaxWeightsForCreatePartition := 0;
     mPartitionCnt := 0 |}.

(** [updateMetrics()], with [walk] the order in which the loop visits
    [space.disks]: the values handed to [stats.updateMetrics]. *)
Definition updateMetrics {dstats : DiskStats} (walk : list (string * Disk))
  : Metrics :=
  foldl (fun m kv => addDisk m kv.2) zeroMetrics walk.

(** The loop of [RangePartitions] over the partitions copied from the
    directory: the visitor, which threads its own state here, is called on a
    partition and tells whether the loop goes on. *)
Fixpoint rangeLoop {S : Type} (f : DataPartition -> S -> bool * S)
  (partitions : list DataPartition) (st : S) : S :=
  match partitions with
  | [] => st
  | partition :: rest =>
    let '(goOn, st') := f partition st in
    if goOn then rangeLoop f rest st' else st'
  end.

(** [RangePartitions(f)], with [walk] the order in which the first loop
    visits [space.partitions]; [None] is the nil visitor. *)
Definition RangePartitions {S : Type} (f : option (DataPartition -> S -> bool * S))
  (walk : list (Z * DataPartition)) (st : S) : S :=
  match f with
  | None => st
  | Some f => rangeLoop f (foldl (fun partitions kv => partitions ++ [kv.2]) [] walk) st
  end.

(** [flushDelete()]: the partitions on which [FlushDelete] is called, in the
    order of the calls. *)
Definition flushDelete (walk : list (Z * DataPartition)) : list DataPartition :=
  let partitions :=
    RangePartitions (Some (fun dp partitions => (true, partitions ++ [dp]))) walk [] in
  foldl (fun calls partition => calls ++ [partition]) [] partitions.

(** Every entry of the directory sits under the id of its partition. *)
Definition dir_wf (s : spaceManager) : Prop :=
  map_Forall (fun id dp => ID dp = id) (partitions s).

(** The invariant of the data model that the selector relies on: [disks]
    and [diskList] name the same paths (as [putDisk] leaves them), and the
    cursor is not negative (it is only ever reset to 0 or advanced). *)
Definition disks_wf (s : spaceManager) : Prop :=
  dom (disks s) = list_to_set (diskList s) /\ 0 <= chooseIndex s.

End Datanode.

(** ** Package master *)

Module Master.
Local Open Scope Z_scope.

(** [MaxTaskLen]: the number of tasks one round is meant to handle. *)
Definition MaxTaskLen : nat := 30.

(** [proto.AdminTask], restricted to the fields the sender touches.
    [SendCount] is a [uint8]: [SendCount++] wraps from 255 to 0. *)
Record AdminTask : Type := mkTask {
  ID : string;
  OpCode : Z;
  SendTime : Z;
  SendCount : Z;
  Status : Z;
  CreateTime : Z
}.

(** Constants and methods of package [proto], which is not part of the
    sources.  The two time predicates read the clock; [now] is the clock of
    the tick.  [Errorf format] is the message of the error
    [fmt.Errorf(format)], built without operands: the format string is
    interpreted, it is not copied. *)
Class TaskOps : Type := {
  Errorf : string -> string;
  TaskRunning : Z;
  OpOk : Z;
  ReadDeadlineTime : Z;
  CreateDataPartitionDeadlineTime : Z;
  heartbeatOp : Z -> bool;
  urgentOp : Z -> bool;
  CheckTaskNeedSend : Z -> AdminTask -> bool;
  CheckTaskTimeOut : Z -> AdminTask -> bool
}.

(** Modelled from the spec: the methods [IsHeartbeatTask] and [IsUrgentTask]
    of [proto.AdminTask] are missing from the sources; the spec derives the
    class of a task from its opcode alone. *)
Definition IsHeartbeatTask {ops : TaskOps} (t : AdminTask) : bool :=
  heartbeatOp (OpCode t).

(** Modelled from the spec: [IsUrgentTask] of [proto.AdminTask], missing
    from the sources, is likewise a property of the opcode. *)
Definition IsUrgentTask {ops : TaskOps} (t : AdminTask) : bool :=
  urgentOp (OpCode t).

(** The third class of the dispatcher: the guard of its last loop. *)
Definition IsNormalTask {ops : TaskOps} (t : AdminTask) : bool :=
  negb (IsHeartbeatTask t) && negb (IsUrgentTask t).

(** What leaves the sender.  Tasks are named by their address; [ok] tells
    whether the call succeeded.  Of the logging, the warnings and errors are
    traced, the debug and info lines are not. *)
Inductive Event : Type :=
  | EvLogWarn (id : string)
  | EvWarn (id : string)
  | EvLogError (task : positive)
  | EvLogErrorf (id : string) (msg : string)
  | EvWarnBySpecialUmpKey
  | EvGetConnect (ok : bool)
  | EvPutConnect (forceClose : bool)
  | EvWriteToConn (task : positive) (ok : bool)
  | EvReadFromConn (task : positive) (deadline : Z) (ok : bool)
  | EvSleep.

(** The answers of the outside world during one tick.  [range site m] is the
    order in which the [site]-th [range] loop of the tick walks the map [m];
    the other fields answer for the task at a given position of the batch:
    whether a connection is obtained, whether the task marshals, whether the
    write succeeds, and the reply read (result code and data), if any. *)
Class Env : Type := {
  range : nat -> gmap string positive -> list (string * positive);
  GetConnect : nat -> bool;
  Marshal : AdminTask -> bool;
  WriteToConn : nat -> bool;
  ReadFromConn : nat -> option (Z * string)
}.

(** [AdminTaskSender]: the registry maps a task id to the address of the
    task, the tasks themselves live in [heap]. *)
Record Sender : Type := mkSender {
  heap : gmap positive AdminTask;
  TaskMap : gmap string positive;
  trace : list Event
}.

Inductive SendError : Type :=
  | ErrBuildPacket
  | ErrWriteToConn
  | ErrReadFromConn
  | ErrRemoteRejected (msg : string).

Definition emit (e : Event) (s : Sender) : Sender :=
  {| heap := heap s; TaskMap := TaskMap s; trace := trace s ++ [e] |}.

Definition setHeap (h : gmap positive AdminTask) (s : Sender) : Sender :=
  {| heap := h; TaskMap := TaskMap s; trace := trace s |}.

Definition setTaskMap (m : gmap string positive) (s : Sender) : Sender :=
  {| heap := heap s; TaskMap := m; trace := trace s |}.

(** [t.SendTime = time.Now().Unix(); t.SendCount++]. *)
Definition markSent (now : Z) (t : AdminTask) : AdminTask :=
  {| ID := ID t; OpCode := OpCode t; SendTime := now;
     SendCount := uint8 (SendCount t + 1); Status := Status t;
     CreateTime := CreateTime t |}.

(** The body of [updateTaskInfo] on the task record. *)
Definition updateTask {ops : TaskOps} (now : Z) (connSuccess : bool) (t : AdminTask)
  : AdminTask :=
  {| ID := ID t; OpCode := OpCode t;
     SendTime := if connSuccess then now else SendTime t;
     SendCount := uint8 (SendCount t + 1);
     Status := if connSuccess then TaskRunning else Status t;
     CreateTime := CreateTime t |}.

(** [updateTaskInfo(task, connSuccess)]. *)
Definition updateTaskInfo {ops : TaskOps} (now : Z) (task : positive)
  (connSuccess : bool) (s : Sender) : Sender :=
  setHeap (alter (updateTask now connSuccess) task (heap s)) s.

(** [PutTask(t)]: registers the task under its id unless the id is taken. *)
Definition PutTask (t : positive) (s : Sender) : Sender :=
  match heap s !! t with
  | None => s
  | Some task =>
    match TaskMap s !! ID task with
    | Some _ => s
    | None => setTaskMap (<[ID task := t]> (TaskMap s)) s
    end
  end.

(** [DelTask(t)]: removes the entry under the id of [t], if any (its debug
    line, the one use of the heartbeat opcodes in the file, is not traced). *)
Definition DelTask (t : positive) (s : Sender) : Sender :=
  match heap s !! t with
  | None => s
  | Some task =>
    match TaskMap s !! ID task with
    | None => s
    | Some _ => setTaskMap (delete (ID task) (TaskMap s)) s
    end
  end.

(** The loop of [getNeedDeleteTasks] over the entries [kvs]. *)
Fixpoint needDeleteLoop {ops : TaskOps} (now : Z) (kvs : list (string * positive))
  (s : Sender) (delTasks : list positive) : list positive * Sender :=
  match kvs with
  | [] => (delTasks, s)
  | (_, task) :: rest =>
    match heap s !! task with
    | None => needDeleteLoop now rest s delTasks
    | Some t =>
      if CheckTaskTimeOut now t then
        let s1 := emit (EvLogWarn (ID t)) s in
        let s2 := if 0 <? SendTime t then emit (EvWarn (ID t)) s1 else s1 in
        needDeleteLoop now rest s2 (delTasks ++ [task])
      else needDeleteLoop now rest s delTasks
    end
  end.

(** [getNeedDeleteTasks()]. *)
Definition getNeedDeleteTasks {ops : TaskOps} {env : Env} (now : Z) (s : Sender)
  : list positive * Sender :=
  needDeleteLoop now (range 0 (TaskMap s)) s [].

(** [doDeleteTasks()]. *)
Definition doDeleteTasks {ops : TaskOps} {env : Env} (now : Z) (s : Sender) : Sender :=
  let '(delTasks, s1) := getNeedDeleteTasks now s in
  foldl (fun acc t => DelTask t acc) s1 delTasks.

(** The first two loops of [getNeedDealTask], which differ in the class
    they select only: append the task and mark it as sent. *)
Fixpoint collectMarked {ops : TaskOps} (class : AdminTask -> bool) (now : Z)
  (kvs : list (string * positive)) (h : gmap positive AdminTask)
  (tasks : list positive) : gmap positive AdminTask * list positive :=
  match kvs with
  | [] => (h, tasks)
  | (_, p) :: rest =>
    match h !! p with
    | None => collectMarked class now rest h tasks
    | Some t =>
      if class t && CheckTaskNeedSend now t
      then collectMarked class now rest (<[p := markSent now t]> h) (tasks ++ [p])
      else collectMarked class now rest h tasks
    end
  end.

(** The last loop of [getNeedDealTask]: the length test follows the append
    and ends the loop. *)
Fixpoint collectNormal {ops : TaskOps} (now : Z) (kvs : list (string * positive))
  (h : gmap positive AdminTask) (tasks : list positive) : list positive :=
  match kvs with
  | [] => tasks
  | (_, p) :: rest =>
    let tasks' :=
      match h !! p with
      | None => tasks
      | Some t =>
        if negb (IsHeartbeatTask t) && negb (IsUrgentTask t)
           && CheckTaskNeedSend now t
        then tasks ++ [p] else tasks
      end in
    if (MaxTaskLen <? length tasks')%nat then tasks'
    else collectNormal now rest h tasks'
  end.

(** [getNeedDealTask()]. *)
Definition getNeedDealTask {ops : TaskOps} {env : Env} (now : Z) (s : Sender)
  : list positive * Sender :=
  let '(h1, tasks1) :=
    collectMarked IsHeartbeatTask now (range 1 (TaskMap s)) (heap s) [] in
  let '(h2, tasks2) :=
    collectMarked IsUrgentTask now (range 2 (TaskMap s)) h1 tasks1 in
  (collectNormal now (range 3 (TaskMap s)) h2 tasks2, setHeap h2 s).

(** [buildPacket] followed by the write and the read of [sendAdminTask], for
    the task at position [i] of the batch.  [None] is the nil error. *)
Definition sendAdminTask {ops : TaskOps} {env : Env} (now : Z) (i : nat) (task : positive)
  (s : Sender) : option SendError * Sender :=
  match heap s !! task with
  | None => (Some ErrBuildPacket, s)
  | Some t =>
    if negb (Marshal t) then (Some ErrBuildPacket, s)
    else
      let s1 := emit (EvWriteToConn task (WriteToConn i)) s in
      if negb (WriteToConn i) then (Some ErrWriteToConn, s1)
      else
        let s2 := emit (EvReadFromConn task ReadDeadlineTime
                           (bool_decide (is_Some (ReadFromConn i)))) s1 in
        match ReadFromConn i with
        | None => (Some ErrReadFromConn, s2)
        | Some _ => (None, updateTaskInfo now task true s2)
        end
  end.

(** [syncCreatePartition(task, conn)], with the connection answering as at
    position [i].  A reply whose result code is not [OpOk] makes the error
    [fmt.Errorf(string(packet.Data))], which is logged and returned. *)
Definition syncCreatePartition {ops : TaskOps} {env : Env} (i : nat) (task : positive)
  (s : Sender) : option SendError * Sender :=
  match heap s !! task with
  | None => (Some ErrBuildPacket, s)
  | Some t =>
    if negb (Marshal t) then (Some ErrBuildPacket, s)
    else
      let s1 := emit (EvWriteToConn task (WriteToConn i)) s in
      if negb (WriteToConn i) then (Some ErrWriteToConn, s1)
      else
        let s2 := emit (EvReadFromConn task CreateDataPartitionDeadlineTime
                           (bool_decide (is_Some (ReadFromConn i)))) s1 in
        match ReadFromConn i with
        | None => (Some ErrReadFromConn, s2)
        | Some (resultCode, data) =>
          if negb (resultCode =? OpOk)
          then (Some (ErrRemoteRejected (Errorf data)),
                emit (EvLogErrorf (ID t) (Errorf data)) s2)
          else (None, s2)
        end
  end.

(** The loop of [sendTasks], at position [i] of the batch. *)
Fixpoint sendTasksFrom {ops : TaskOps} {env : Env} (now : Z) (i : nat)
  (tasks : list positive) (s : Sender) : Sender :=
  match tasks with
  | [] => s
  | task :: rest =>
    if GetConnect i then
      let s1 := emit (EvGetConnect true) s in
      match sendAdminTask now i task s1 with
      | (Some _, s2) =>
        let s3 := emit (EvLogError task) s2 in
        let s4 := emit (EvPutConnect true) s3 in
        sendTasksFrom now (S i) rest (updateTaskInfo now task true s4)
      | (None, s2) =>
        sendTasksFrom now (S i) rest (emit (EvPutConnect false) s2)
      end
    else
      let s1 := emit (EvGetConnect false) s in
      let s2 := emit EvWarnBySpecialUmpKey s1 in
      let s3 := emit (EvPutConnect true) s2 in
      updateTaskInfo now task false s3
  end.

(** [sendTasks(tasks)]. *)
Definition sendTasks {ops : TaskOps} {env : Env} (now : Z) (tasks : list positive)
  (s : Sender) : Sender :=
  sendTasksFrom now 0 tasks s.

(** [doSendTasks()]. *)
Definition doSendTasks {ops : TaskOps} {env : Env} (now : Z) (s : Sender) : Sender :=
  let '(tasks, s1) := getNeedDealTask now s in
  match tasks with
  | [] => emit EvSleep s1
  | _ => sendTasks now tasks s1
  end.

(** One round of [process]: the case [<-ticker.C]. *)
Definition tick {ops : TaskOps} {env : Env} (now : Z) (s : Sender) : Sender :=
  doSendTasks now (doDeleteTasks now s).

(** Every registry entry points to a task that carries the id it is
    registered under, as [PutTask] leaves it. *)
Definition registry_wf (s : Sender) : Prop :=
  map_Forall (fun k p => ID <$> heap s !! p = Some k) (TaskMap s).

Definition isGetConnect (e : Event) : bool :=
  match e with EvGetConnect _ => true | _ => false end.

Definition isWriteToConn (e : Event) : bool :=
  match e with EvWriteToConn _ _ => true | _ => false end.

(** The task at address [p] of the heap [h] belongs to the class [class]. *)
Definition classAt (class : AdminTask -> bool) (h : gmap positive AdminTask)
  (p : positive) : Prop :=
  exists t, h !! p = Some t /\ class t = true.

(** The guard of a loop of [getNeedDealTask] on the task at address [p]:
    the task is of the class and needs to be sent. *)
Definition selected {ops : TaskOps} (class : AdminTask -> bool) (now : Z)
  (h : gmap positive AdminTask) (p : positive) : bool :=
  match h !! p with
  | Some t => class t && CheckTaskNeedSend now t
  | None => false
  end.

(** The opcode of the task at address [p]. *)
Definition opAt (h : gmap positive AdminTask) (p : positive) : option Z :=
  OpCode <$> h !! p.

(** The events of the eviction of timed-out tasks. *)
Definition isEviction (e : Event) : bool :=
  match e with EvLogWarn _ | EvWarn _ => true | _ => false end.

Definition isWarn (e : Event) : bool :=
  match e with EvWarn _ => true | _ => false end.

(** The tasks whose packet write appears in a trace, in order. *)
Definition written (tr : list Event) : list positive :=
  omap (fun e => match e with EvWriteToConn task _ => Some task | _ => None end) tr.

(** In a trace, every successful packet write is followed at once by the
    read of a reply for the same task, under the deadline [deadline]. *)
Fixpoint readsFollowWrites (deadline : Z) (tr : list Event) : Prop :=
  match tr with
  | [] => True
  | EvWriteToConn task true :: rest =>
    match rest with
    | EvReadFromConn task' deadline' _ :: _ => task' = task /\ deadline' = deadline
    | _ => False
    end /\ readsFollowWrites deadline rest
  | _ :: rest => readsFollowWrites deadline rest
  end.

(** A [range] loop visits every entry of the map once, in some order. *)
Definition range_fair {env : Env} : Prop :=
  forall site (m : gmap string positive), range site m ≡ₚ map_to_list m.

End Master.

(** ** Sample instances and states, used by the examples *)

Module Samples.
Import Datanode.
Local Open Scope Z_scope.

(** Packet predicates in the style of package [repl]: a packet is forwarded
    when followers remain, in error when its result code is not 0, a write
    when its opcode is 1, and a leader packet when it is a forwarded write. *)
Definition samplePacketOps : PacketOps := {|
  TinyExtentMode := 1;
  HasReturnToStore := 1;
  IsTinyExtent := fun id => (1 <=? id) && (id <=? 64);
  isLeaderPacket := fun p => (0 <? RemainingFollowers p) && (Opcode p =? 1);
  isWriteOperation := fun p => Opcode p =? 1;
  IsForwardPkg := fun p => 0 <? RemainingFollowers p;
  IsErrPacket := fun p => negb (ResultCode p =? 0)
|}.

(** A forwarded tiny-extent write on the leader, extent 5 of the partition
    at address 7, not yet released. *)
Definition pktWrite (resultCode : Z) : Packet :=
  {| Opcode := 1; ExtentMode := 1; ExtentID := 5; ResultCode := resultCode;
     RemainingFollowers := 2; IsRelase := 0; Object := Some 7%positive;
     NeedReply := true |}.

(** The same packet without its partition back-reference. *)
Definition pktDetached : Packet :=
  {| Opcode := 1; ExtentMode := 1; ExtentID := 5; ResultCode := 0;
     RemainingFollowers := 2; IsRelase := 0; Object := None;
     NeedReply := true |}.

Definition sampleStores : gmap positive ExtentStore :=
  {[ 7%positive := {| avaliTinyExtentCh := [1; 2]; unavaliTinyExtentCh := [3] |} ]}.

(** A factory that always succeeds: the partition carries the id of its
    configuration and the disk books the requested size. *)
Definition samplePartitionOps : PartitionOps := {|
  CreateDataPartition := fun cfg d =>
    ((Some {| ID := cfgPartitionId cfg; DiskOf := Path d;
              PathOf := Path d +:+ "/datapartition" |}, None),
     {| Path := Path d; Total := Total d; Used := Used d;
        Available := Available d - cfgPartitionSize cfg;
        Allocated := Allocated d + cfgPartitionSize cfg;
        Unallocated := Unallocated d - cfgPartitionSize cfg |});
  DetachDataPartition := fun d _ => d
|}.

Definition sampleDisk (path : string) (available : Z) : Disk :=
  {| Path := path; Total := 1000; Used := 1000 - available;
     Available := available; Allocated := 0; Unallocated := available |}.

Definition dp5 : DataPartition :=
  {| ID := 5; DiskOf := "/data1"; PathOf := "/data1/datapartition" |}.

(** Two disks with 10 units available each, partition 5 registered. *)
Definition sampleSpace : spaceManager :=
  {| clusterId := "cfs"; nodeId := 1; chooseIndex := 1;
     disks := {[ "/data1" := sampleDisk "/data1" 10;
                 "/data2" := sampleDisk "/data2" 10 ]};
     diskList := ["/data1"; "/data2"];
     partitions := {[ 5 := dp5 ]} |}.

Definition sampleWorld : World := {| space := sampleSpace; trace := [] |}.

(** Disks with 100 and 50 units available; the cursor is on the second. *)
Definition roomySpace : spaceManager :=
  {| clusterId := "cfs"; nodeId := 1; chooseIndex := 1;
     disks := {[ "/data1" := sampleDisk "/data1" 100;
                 "/data2" := sampleDisk "/data2" 50 ]};
     diskList := ["/data1"; "/data2"];
     partitions := {[ 5 := dp5 ]} |}.

Definition roomyWorld : World := {| space := roomySpace; trace := [] |}.

Definition sampleRequest (partitionId size : Z) : CreateDataPartitionRequest :=
  {| PartitionId := partitionId; PartitionSize := size; VolumeId := "vol";
     PartitionType := "extent"; RandomWrite := false;
     Members := ["10.0.0.1:6000"; "10.0.0.2:6000"] |}.

(** Opcodes in the style of package [proto]: the master commands are the
    opcodes from 96 on, [CreateDataPartition] is one of them. *)
Definition samplePostOps : PostOps := {|
  IsMasterCommand := fun p => 96 <=? Opcode p;
  OpStreamRead := 5;
  OpCreateDataPartition := 96
|}.

(** A [CreateDataPartition] command of the master that asks for no reply. *)
Definition pktCreate : Packet :=
  {| Opcode := 96; ExtentMode := 0; ExtentID := 0; ResultCode := 0;
     RemainingFollowers := 0; IsRelase := 0; Object := None;
     NeedReply := false |}.

Definition sampleHook : HookState :=
  {| hookStores := sampleStores; hookCalls := [] |}.

(** A disk of 1000 units found on start-up, and the partitions 5 and 9 found
    on every disk. *)
Definition sampleDiskOps : DiskOps := {|
  NewDisk := fun path restSize _ =>
    {| Path := path; Total := 1000; Used := 0; Available := 1000 - restSize;
       Allocated := 0; Unallocated := 1000 - restSize |};
  RestorePartition := fun d =>
    [ {| ID := 5; DiskOf := Path d; PathOf := Path d +:+ "/datapartition_5" |};
      {| ID := 9; DiskOf := Path d; PathOf := Path d +:+ "/datapartition_9" |} ]
|}.

(** One partition per 120 units allocated. *)
Definition sampleDiskStats : DiskStats := {|
  PartitionCount := fun d => Allocated d `div` 120
|}.

End Samples.

Module MasterSamples.
Import Master.
Local Open Scope Z_scope.

(** Package [proto] after the spec: a task needs sending when it is pending
    (status 0) or running (status 1) for at least the resend interval (5);
    it is timed out after 5 sends, or 3600 seconds after it was last sent.
    Opcodes 34 and 35 are the heartbeats, opcode 96 is urgent.  The
    replies of the samples carry no formatting verb, so that [Errorf]
    gives their data back. *)
Definition sampleTaskOps : TaskOps := {|
  Errorf := fun format => format;
  TaskRunning := 1;
  OpOk := 240;
  ReadDeadlineTime := 5;
  CreateDataPartitionDeadlineTime := 600;
  heartbeatOp := fun op => (op =? 34) || (op =? 35);
  urgentOp := fun op => op =? 96;
  CheckTaskNeedSend := fun now t =>
    (Status t =? 0) || ((Status t =? 1) && (5 <=? now - SendTime t));
  CheckTaskTimeOut := fun now t =>
    (5 <=? SendCount t) || ((0 <? SendTime t) && (3600 <=? now - SendTime t))
|}.

(** A node that answers every packet with [OpOk]. *)
Definition healthyEnv : Env := {|
  range := fun _ m => map_to_list m;
  GetConnect := fun _ => true;
  Marshal := fun _ => true;
  WriteToConn := fun _ => true;
  ReadFromConn := fun _ => Some (240, "")
|}.

(** A node that refuses connections. *)
Definition deadEnv : Env := {|
  range := fun _ m => map_to_list m;
  GetConnect := fun _ => false;
  Marshal := fun _ => true;
  WriteToConn := fun _ => true;
  ReadFromConn := fun _ => Some (240, "")
|}.

(** A pending task that was never sent. *)
Definition newTask (id : string) (opcode : Z) : AdminTask :=
  {| ID := id; OpCode := opcode; SendTime := 0; SendCount := 0; Status := 0;
     CreateTime := 1000 |}.

(** Three normal tasks (opcode 10). *)
Definition threeNormal : Sender :=
  {| heap := {[ 1%positive := newTask "N1" 10; 2%positive := newTask "N2" 10;
                3%positive := newTask "N3" 10 ]};
     TaskMap := {[ "N1" := 1%positive; "N2" := 2%positive; "N3" := 3%positive ]};
     trace := [] |}.

(** One normal task. *)
Definition oneNormal : Sender :=
  {| heap := {[ 1%positive := newTask "N1" 10 ]};
     TaskMap := {[ "N1" := 1%positive ]};
     trace := [] |}.

(** A heartbeat, an urgent and a normal task. *)
Definition mixed : Sender :=
  {| heap := {[ 1%positive := newTask "N1" 10; 2%positive := newTask "U1" 96;
                3%positive := newTask "H1" 35 ]};
     TaskMap := {[ "N1" := 1%positive; "U1" := 2%positive; "H1" := 3%positive ]};
     trace := [] |}.

(** At time 10000: T1 was sent at time 1000 and never answered, T2 was
    attempted five times without ever being sent, N1 is new. *)
Definition stale : Sender :=
  {| heap := {[ 1%positive := {| ID := "T1"; OpCode := 10; SendTime := 1000;
                                 SendCount := 1; Status := 1; CreateTime := 900 |};
                2%positive := {| ID := "T2"; OpCode := 10; SendTime := 0;
                                 SendCount := 5; Status := 0; CreateTime := 900 |};
                3%positive := newTask "N1" 10 ]};
     TaskMap := {[ "T1" := 1%positive; "T2" := 2%positive; "N1" := 3%positive ]};
     trace := [] |}.

(** Thirty-one urgent tasks U1 .. U31 at the addresses 1 .. 31 and the
    normal task N1 at the address 32, all new. *)
Definition crowded : Sender :=
  {| heap := <[ 32%positive := newTask "N1" 10 ]>
       (list_to_map (map (fun n : nat => (Pos.of_nat n, newTask ("U" +:+ pretty n) 96))
                         (seq 1 31)));
     TaskMap := <[ "N1" := 32%positive ]>
       (list_to_map (map (fun n : nat => ("U" +:+ pretty n, Pos.of_nat n))
                         (seq 1 31)));
     trace := [] |}.

(** A healthy node; every walk of the registry starts at the entry N1. *)
Definition normalFirstEnv : Env := {|
  range := fun _ m =>
    filter (fun kv : string * positive => kv.1 = "N1") (map_to_list m)
    ++ filter (fun kv : string * positive => ~ kv.1 = "N1") (map_to_list m);
  GetConnect := fun _ => true;
  Marshal := fun _ => true;
  WriteToConn := fun _ => true;
  ReadFromConn := fun _ => Some (240, "")
|}.

(** A node that answers every packet with the result code 1 and a reason. *)
Definition rejectingEnv : Env := {|
  range := fun _ m => map_to_list m;
  GetConnect := fun _ => true;
  Marshal := fun _ => true;
  WriteToConn := fun _ => true;
  ReadFromConn := fun _ => Some (1, "disk full")
|}.

(** The task N1 after 255 sends. *)
Definition worn : Sender :=
  {| heap := {[ 1%positive := {| ID := "N1"; OpCode := 10; SendTime := 1000;
                                 SendCount := 255; Status := 1; CreateTime := 900 |} ]};
     TaskMap := {[ "N1" := 1%positive ]};
     trace := [] |}.

(** A node that accepts connections and then fails every write. *)
Definition muteEnv : Env := {|
  range := fun _ m => map_to_list m;
  GetConnect := fun _ => true;
  Marshal := fun _ => true;
  WriteToConn := fun _ => false;
  ReadFromConn := fun _ => None
|}.

(** A node that answers the first task of a batch and refuses every later
    connection. *)
Definition flakyEnv : Env := {|
  range := fun _ m => map_to_list m;
  GetConnect := fun i => (i <? 1)%nat;
  Marshal := fun _ => true;
  WriteToConn := fun _ => true;
  ReadFromConn := fun _ => Some (240, "")
|}.

(** At time 2000: the one task was sent two seconds ago and is running. *)
Definition waiting : Sender :=
  {| heap := {[ 1%positive := {| ID := "N1"; OpCode := 10; SendTime := 1998;
                                 SendCount := 1; Status := 1; CreateTime := 1000 |} ]};
     TaskMap := {[ "N1" := 1%positive ]};
     trace := [] |}.

End MasterSamples.

(** * Properties *)

(** ** The extent release hook *)

Section ReleaseExtent.
Import Datanode.
Local Open Scope Z_scope.
Context {ops : PacketOps}.

Lemma queued_insert (stores : gmap positive ExtentStore) partition s :
  (queued (<[partition := s]> stores) + weight (GetStore stores partition)
   = queued stores + weight s)%nat.
Proof.
  unfold queued, GetStore.
  destruct (stores !! partition) as [s0|] eqn:Hk; simpl.
  - rewrite (map_fold_delete_L _ _ partition s0 stores); [|intros; lia|done].
    rewrite <- (insert_delete_eq stores partition s).
    rewrite map_fold_insert_L; [lia|intros; lia|apply lookup_delete_eq].
  - rewrite map_fold_insert_L; [|intros; lia|done].
    change (weight emptyStore) with 0%nat. lia.
Qed.

Lemma GetStore_insert (stores : gmap positive ExtentStore) partition s :
  GetStore (<[partition := s]> stores) partition = s.
Proof. unfold GetStore. by rewrite lookup_insert_eq. Qed.

Lemma weight_put_avali stores partition id :
  weight (GetStore (PutTinyExtentToAvaliCh partition id stores) partition)
  = S (weight (GetStore stores partition)).
Proof.
  unfold PutTinyExtentToAvaliCh, GetStore at 1.
  rewrite lookup_insert_eq. unfold weight. simpl. rewrite length_app. simpl. lia.
Qed.

Lemma weight_put_unavali stores partition id :
  weight (GetStore (PutTinyExtentToUnavaliCh partition id stores) partition)
  = S (weight (GetStore stores partition)).
Proof.
  unfold PutTinyExtentToUnavaliCh, GetStore at 1.
  rewrite lookup_insert_eq. unfold weight. simpl. rewrite length_app. simpl. lia.
Qed.

Lemma queued_put_avali stores partition id :
  queued (PutTinyExtentToAvaliCh partition id stores) = S (queued stores).
Proof.
  pose proof (weight_put_avali stores partition id) as Hw.
  unfold PutTinyExtentToAvaliCh in *.
  rewrite GetStore_insert in Hw.
  pose proof (queued_insert stores partition
    {| avaliTinyExtentCh := avaliTinyExtentCh (GetStore stores partition) ++ [id];
       unavaliTinyExtentCh := unavaliTinyExtentCh (GetStore stores partition) |}).
  simpl in *. lia.
Qed.

Lemma queued_put_unavali stores partition id :
  queued (PutTinyExtentToUnavaliCh partition id stores) = S (queued stores).
Proof.
  pose proof (weight_put_unavali stores partition id) as Hw.
  unfold PutTinyExtentToUnavaliCh in *.
  rewrite GetStore_insert in Hw.
  pose proof (queued_insert stores partition
    {| avaliTinyExtentCh := avaliTinyExtentCh (GetStore stores partition);
       unavaliTinyExtentCh := unavaliTinyExtentCh (GetStore stores partition) ++ [id] |}).
  simpl in *. lia.
Qed.

(** A packet whose release flag is set is left alone. *)
Lemma releaseExtent_released p stores :
  IsRelase p = HasReturnToStore ->
  releaseExtent (Some p) stores = (Some p, stores).
Proof.
  intros Hr. unfold releaseExtent.
  rewrite Hr, Z.eqb_refl, !orb_true_r. reflexivity.
Qed.

(** The one path of the hook that releases. *)
Lemma releaseExtent_release p partition stores :
  IsTinyExtent (ExtentID p) = true ->
  0 < ExtentID p ->
  IsRelase p ≠ HasReturnToStore ->
  ExtentMode p = TinyExtentMode ->
  isLeaderPacket p = true ->
  isWriteOperation p = true ->
  IsForwardPkg p = true ->
  Object p = Some partition ->
  releaseExtent (Some p) stores
  = (Some (storeIsRelase HasReturnToStore p),
     if IsErrPacket p
     then PutTinyExtentToUnavaliCh partition (ExtentID p) stores
     else PutTinyExtentToAvaliCh partition (ExtentID p) stores).
Proof.
  intros Ht Hpos Hr Hm Hl Hw Hf Ho. unfold releaseExtent.
  rewrite Ht, Hl, Hw, Hf, Ho, Hm, Z.eqb_refl. simpl.
  destruct (Z.leb_spec (ExtentID p) 0); [lia|].
  destruct (Z.eqb_spec (IsRelase p) HasReturnToStore); [done|].
  reflexivity.
Qed.

(** C10.  Whatever the other conditions, the hook returns with the packet
    and every queue as they were (nothing enqueued, release flag not set)
    when the packet is nil, or its extent id is outside the tiny-extent
    range, or its extent id is not positive, or its partition back-reference
    is nil.  The hook is a total function and reads the store of a partition
    only under a non-nil back-reference. *)
Theorem releaseExtent_guards (pkg : option Packet)
  (stores : gmap positive ExtentStore) :
  (pkg = None
   \/ exists p, pkg = Some p
        /\ (IsTinyExtent (ExtentID p) = false \/ ExtentID p <= 0
            \/ Object p = None)) ->
  releaseExtent pkg stores = (pkg, stores).
Proof.
  intros [-> | (p & -> & Hg)]; [reflexivity|].
  unfold releaseExtent.
  destruct Hg as [Ht | [Hle | Ho]].
  - rewrite Ht. reflexivity.
  - apply Z.leb_le in Hle. rewrite Hle, orb_true_r. reflexivity.
  - rewrite Ho. repeat case_match; reflexivity.
Qed.

(** C3, as amended.  On a packet that meets every condition the hook tests
    (tiny extent mode, write, forwarded, leader, release flag unset, and
    also: extent id in the tiny-extent range, extent id positive, non-nil
    partition back-reference) two calls in a row enqueue the extent id
    exactly once, at the tail of the unavailable queue of its partition when
    the packet is in error and of the available queue otherwise; the first
    call sets the release flag and the second call changes nothing. *)
Theorem releaseExtent_twice_once (p : Packet) (partition : positive)
  (stores : gmap positive ExtentStore) :
  IsTinyExtent (ExtentID p) = true ->
  0 < ExtentID p ->
  IsRelase p ≠ HasReturnToStore ->
  ExtentMode p = TinyExtentMode ->
  isLeaderPacket p = true ->
  isWriteOperation p = true ->
  IsForwardPkg p = true ->
  Object p = Some partition ->
  releaseExtent (Some p) stores
  = (Some (storeIsRelase HasReturnToStore p),
     if IsErrPacket p
     then PutTinyExtentToUnavaliCh partition (ExtentID p) stores
     else PutTinyExtentToAvaliCh partition (ExtentID p) stores)
  /\ releaseExtentTwice (Some p) stores = releaseExtent (Some p) stores
  /\ queued (releaseExtentTwice (Some p) stores).2 = S (queued stores)
  /\ GetStore (releaseExtentTwice (Some p) stores).2 partition
     = (if IsErrPacket p
        then {| avaliTinyExtentCh := avaliTinyExtentCh (GetStore stores partition);
                unavaliTinyExtentCh :=
                  unavaliTinyExtentCh (GetStore stores partition) ++ [ExtentID p] |}
        else {| avaliTinyExtentCh :=
                  avaliTinyExtentCh (GetStore stores partition) ++ [ExtentID p];
                unavaliTinyExtentCh := unavaliTinyExtentCh (GetStore stores partition) |})
  /\ forall other, other ≠ partition ->
       (releaseExtentTwice (Some p) stores).2 !! other = stores !! other.
Proof.
  intros Ht Hpos Hr Hm Hl Hw Hf Ho.
  pose proof (releaseExtent_release p partition stores Ht Hpos Hr Hm Hl Hw Hf Ho)
    as Hfirst.
  assert (Htwice : releaseExtentTwice (Some p) stores = releaseExtent (Some p) stores).
  { unfold releaseExtentTwice. rewrite Hfirst.
    cbn [fst snd]. apply releaseExtent_released. reflexivity. }
  split; [exact Hfirst|]. split; [exact Htwice|].
  rewrite Htwice, Hfirst. simpl.
  destruct (IsErrPacket p).
  - split; [apply queued_put_unavali|]. split.
    + unfold PutTinyExtentToUnavaliCh. apply GetStore_insert.
    + intros other Hne. unfold PutTinyExtentToUnavaliCh.
      by rewrite lookup_insert_ne.
  - split; [apply queued_put_avali|]. split.
    + unfold PutTinyExtentToAvaliCh. apply GetStore_insert.
    + intros other Hne. unfold PutTinyExtentToAvaliCh.
      by rewrite lookup_insert_ne.
Qed.

End ReleaseExtent.

Section ReleaseExtentExamples.
Import Datanode Samples.
Local Open Scope Z_scope.
#[local] Existing Instance samplePacketOps.

(** A nil packet and a packet without back-reference go through the hook
    untouched. *)
Lemma releaseExtent_guards_witness :
  releaseExtent None sampleStores = (None, sampleStores)
  /\ releaseExtent (Some pktDetached) sampleStores
     = (Some pktDetached, sampleStores).
Proof.
  split.
  - apply (releaseExtent_guards None sampleStores). left. reflexivity.
  - apply (releaseExtent_guards (Some pktDetached) sampleStores).
    right. exists pktDetached. split; [reflexivity|].
    right. right. reflexivity.
Defined.

(** Extent 5 of a successful write joins the available queue [1; 2] of its
    partition once; of a failed write, the unavailable queue [3]. *)
Lemma releaseExtent_twice_once_witness :
  GetStore (releaseExtentTwice (Some (pktWrite 0)) sampleStores).2 7%positive
  = {| avaliTinyExtentCh := [1; 2; 5]; unavaliTinyExtentCh := [3] |}
  /\ queued (releaseExtentTwice (Some (pktWrite 0)) sampleStores).2 = 4%nat.
Proof.
  destruct (releaseExtent_twice_once (pktWrite 0) 7%positive sampleStores)
    as (_ & _ & Hq & Hs & _); try reflexivity; try lia; try (intros [=]).
  split; [exact Hs | exact Hq].
Defined.

(** C3, as first stated: the packet [pktDetached] is in tiny extent mode, a
    write, forwarded, a leader packet, and its release flag is unset; yet
    two calls of the hook enqueue nothing. *)
Lemma releaseExtent_listed_conditions_not_enough :
  ExtentMode pktDetached = TinyExtentMode
  /\ isWriteOperation pktDetached = true
  /\ IsForwardPkg pktDetached = true
  /\ isLeaderPacket pktDetached = true
  /\ IsRelase pktDetached ≠ HasReturnToStore
  /\ IsErrPacket pktDetached = false
  /\ releaseExtentTwice (Some pktDetached) sampleStores
     = (Some pktDetached, sampleStores)
  /\ queued (releaseExtentTwice (Some pktDetached) sampleStores).2
     = queued sampleStores.
Proof.
  repeat split; try reflexivity. intros [=].
Qed.

End ReleaseExtentExamples.

(** ** The space manager *)

Section SpaceManager.
Import Datanode.
Local Open Scope Z_scope.
Context {pops : PartitionOps}.

Lemma uint64_ge (x : Z) : x < 2 ^ 64 -> x <= uint64 x.
Proof.
  intros Hx. unfold uint64.
  destruct (Z.le_gt_cases 0 x).
  - rewrite Z.mod_small; lia.
  - pose proof (Z.mod_pos_bound x (2 ^ 64)). lia.
Qed.

Lemma disks_wf_keys (s : spaceManager) (path : string) :
  disks_wf s -> path ∈ diskList s <-> is_Some (disks s !! path).
Proof.
  intros [Hdom _]. rewrite <- elem_of_dom, Hdom. by rewrite elem_of_list_to_set.
Qed.

(** [putDisk] keeps the invariant, which holds of the empty manager. *)
Lemma putDisk_wf (d : Disk) (s : spaceManager) :
  disks_wf s -> disks_wf (putDisk d s).
Proof.
  intros [Hdom Hidx]. split; [|exact Hidx].
  unfold putDisk. cbn [disks diskList setDiskList setDisks].
  rewrite dom_insert_L, list_to_set_app_L, Hdom. cbn.
  rewrite (right_id_L ∅ (∪)). apply (comm_L (∪)).
Qed.

(** One call of the selector on a well-formed manager with a disk. *)
Lemma getMinPartitionCntDisk_wf (w : World) :
  disks_wf (space w) ->
  diskList (space w) ≠ [] ->
  exists path d i,
    getMinPartitionCntDisk w
    = Done (Some path, {| space := setChooseIndex i (space w);
                          trace := trace w ++ [EvSelectDisk path] |})
    /\ disks (space w) !! path = Some d
    /\ 0 <= i.
Proof.
  intros [Hkeys Hidx] Hne.
  unfold getMinPartitionCntDisk, bind, get, put, emit, ret, panic.
  set (s := space w) in *.
  set (idx := if Z.of_nat (length (diskList s)) <=? chooseIndex s
              then 0 else chooseIndex s).
  assert (Hr : 0 <= idx < Z.of_nat (length (diskList s))).
  { subst idx. destruct (Z.leb_spec (Z.of_nat (length (diskList s))) (chooseIndex s)).
    - destruct (diskList s); [done|]. simpl. lia.
    - lia. }
  destruct (Z.ltb_spec idx 0); [lia|].
  destruct (lookup_lt_is_Some_2 (diskList s) (Z.to_nat idx)) as [path Hp]; [lia|].
  rewrite Hp.
  assert (Hin : path ∈ diskList s) by (apply list_elem_of_lookup; eauto).
  apply (disks_wf_keys s path (conj Hkeys Hidx)) in Hin as [d Hd].
  exists path, d, (idx + 1). simpl. rewrite Hd.
  split; [reflexivity|]. split; [done|lia].
Qed.

(** When no disk fits, the selection loop runs its [n] rounds, calling the
    selector once per round, and ends on nil; only the cursor moves. *)
Lemma selectDisk_no_fit (n : nat) (size : Z) (w : World) :
  disks_wf (space w) ->
  (n ≠ O -> diskList (space w) ≠ []) ->
  map_Forall (fun _ d => Available d < uint64 size) (disks (space w)) ->
  exists paths i,
    selectDisk n size w
    = Done (None, {| space := setChooseIndex i (space w);
                     trace := trace w ++ map EvSelectDisk paths |})
    /\ length paths = n
    /\ 0 <= i.
Proof.
  revert w. induction n as [|n IH]; intros w Hwf Hne Hsmall.
  - exists [], (chooseIndex (space w)). simpl. unfold ret.
    rewrite app_nil_r. destruct w as [[] ?]. simpl.
    split; [reflexivity|]. split; [reflexivity|]. apply Hwf.
  - destruct (getMinPartitionCntDisk_wf w Hwf) as (path & d & i & Hsel & Hd & Hi);
      [by apply Hne|].
    simpl. unfold bind at 1. rewrite Hsel.
    unfold bind at 1, get at 1. cbn [space]. 
    change (disks (setChooseIndex i (space w))) with (disks (space w)).
    rewrite Hd.
    pose proof (Hsmall path d Hd) as Hlt. simpl in Hlt.
    apply Z.ltb_lt in Hlt. rewrite Hlt.
    set (w1 := {| space := setChooseIndex i (space w);
                  trace := trace w ++ [EvSelectDisk path] |}).
    destruct (IH w1) as (paths & j & Hrec & Hlen & Hj).
    + split; [apply Hwf | exact Hi].
    + intros _. by apply Hne.
    + exact Hsmall.
    + exists (path :: paths), j. rewrite Hrec. subst w1. simpl.
      rewrite <- app_assoc. simpl.
      split; [reflexivity|]. split; [by rewrite Hlen | exact Hj].
Qed.

(** The first test of [CreatePartition]: a registered id ends the call. *)
Lemma CreatePartition_found req w dp :
  partitions (space w) !! uint32 (PartitionId req) = Some dp ->
  CreatePartition req w = Done ((Some dp, None), w).
Proof.
  intros Hdp. unfold CreatePartition, bind, get, ret. simpl. by rewrite Hdp.
Qed.

(** C4.  When the (truncated) partition id of the request is in the
    directory, [CreatePartition] returns the registered handle with a nil
    error and leaves the whole manager as it was, trace included: nothing is
    inserted, the selector is not called, the cursor stays, the factory is
    not called.  Hence a second call with the same request, after a first
    one returned a handle, returns the same handle and changes nothing,
    provided the factory builds partitions that carry the id of their
    configuration. *)
Theorem CreatePartition_idempotent (req : CreateDataPartitionRequest) (w : World) :
  (forall dp, partitions (space w) !! uint32 (PartitionId req) = Some dp ->
     CreatePartition req w = Done ((Some dp, None), w))
  /\ ((forall cfg d dp d',
         CreateDataPartition cfg d = ((Some dp, None), d') ->
         ID dp = cfgPartitionId cfg) ->
      forall dp w1,
        CreatePartition req w = Done ((Some dp, None), w1) ->
        CreatePartition req w1 = Done ((Some dp, None), w1)).
Proof.
  split; [intros dp; apply CreatePartition_found|].
  intros Hid dp w1 Hfirst.
  apply CreatePartition_found.
  revert Hfirst. unfold CreatePartition, bind, get, put, emit, ret, panic.
  cbn [space trace].
  destruct (partitions (space w) !! _) as [dp0|] eqn:Hdir; cbn [cfgPartitionId].
  - intros [= -> <-]. exact Hdir.
  - destruct (selectDisk _ _ w) as [[[path|] w']|]; [|done..].
    destruct (disks (space w') !! path) as [d|]; [|done].
    destruct (CreateDataPartition _ d) as [[[dp1|] [err|]] d'] eqn:Hmk;
      cbn [space trace]; try done.
    intros [= -> <-]. cbn [space putPartition setPartitions partitions].
    apply Hid in Hmk. rewrite Hmk. cbn [cfgPartitionId].
    apply lookup_insert_eq.
Qed.

(** C6, as amended.  On a well-formed manager that does not have the
    partition id of the request, when every registered disk has less
    available space than the requested size, [CreatePartition] calls the
    selector once per registered disk (so at most [len(disks)] times), fails
    with [ErrNoDiskForCreatePartition] and a nil handle, and leaves the
    directory and the disks as they were; the selector calls are its only
    outside calls, the factory is not reached. *)
Theorem CreatePartition_no_fit (req : CreateDataPartitionRequest) (w : World) :
  disks_wf (space w) ->
  partitions (space w) !! uint32 (PartitionId req) = None ->
  int_range (PartitionSize req) ->
  map_Forall (fun _ d => Available d < PartitionSize req) (disks (space w)) ->
  exists paths i w',
    CreatePartition req w = Done ((None, Some ErrNoDiskForCreatePartition), w')
    /\ w' = {| space := setChooseIndex i (space w);
               trace := trace w ++ map EvSelectDisk paths |}
    /\ length paths = size (disks (space w))
    /\ (length paths <= size (disks (space w)))%nat
    /\ partitions (space w') = partitions (space w)
    /\ disks (space w') = disks (space w).
Proof.
  intros Hwf Hdir Hint Hsmall.
  destruct (selectDisk_no_fit (size (disks (space w))) (PartitionSize req) w)
    as (paths & i & Hsel & Hlen & _).
  - exact Hwf.
  - intros Hn Hnil. apply Hn. apply map_size_empty_iff.
    apply map_eq. intros path. rewrite lookup_empty.
    destruct (disks (space w) !! path) eqn:Hd; [|done].
    assert (path ∈ diskList (space w)) as Hin
      by (apply (disks_wf_keys _ _ Hwf); eauto).
    rewrite Hnil in Hin. by apply elem_of_nil in Hin.
  - intros path d Hd. pose proof (Hsmall path d Hd) as Hlt. simpl in *.
    pose proof (uint64_ge (PartitionSize req)). unfold int_range in Hint. lia.
  - exists paths, i. eexists.
    unfold CreatePartition, bind, get, ret. cbn [space cfgPartitionId cfgPartitionSize].
    rewrite Hdir, Hsel. split; [reflexivity|]. split; [reflexivity|].
    split; [exact Hlen|]. split; [lia|]. split; reflexivity.
Qed.

(** C7.  [DeletePartition(id)] always returns, and [GetPartition(id)] on
    the manager it leaves answers nil; when the id is not in the directory
    the call changes nothing, trace included. *)
Theorem DeletePartition_absent (dpId : Z) (w : World) :
  (exists w', DeletePartition dpId w = Done (tt, w')
              /\ GetPartition dpId (space w') = None)
  /\ (partitions (space w) !! dpId = None ->
      DeletePartition dpId w = Done (tt, w)).
Proof.
  unfold DeletePartition, GetPartition, bind, get, put, emit, ret.
  cbn [space trace].
  destruct (partitions (space w) !! dpId) as [dp|] eqn:Hdp.
  - split; [|done]. eexists. split; [reflexivity|].
    cbn [space setDisks setPartitions partitions]. apply lookup_delete_eq.
  - split; [|done]. exists w. done.
Qed.

End SpaceManager.

Section SpaceManagerExamples.
Import Datanode Samples.
Local Open Scope Z_scope.
#[local] Existing Instance samplePartitionOps.

(** Partition 5 is registered: the request gets it back and nothing moves.
    Partition 6 is new and 80 units fit on the first disk only: the second
    call returns what the first one built. *)
Lemma CreatePartition_idempotent_witness :
  CreatePartition (sampleRequest 5 100) sampleWorld
  = Done ((Some dp5, None), sampleWorld)
  /\ exists dp w1,
       DiskOf dp = "/data1"
       /\ CreatePartition (sampleRequest 6 80) roomyWorld = Done ((Some dp, None), w1)
       /\ CreatePartition (sampleRequest 6 80) w1 = Done ((Some dp, None), w1).
Proof.
  split.
  - apply (proj1 (CreatePartition_idempotent (sampleRequest 5 100) sampleWorld)).
    reflexivity.
  - eexists _, _.
    assert (Hlaw : forall cfg d dp d',
               CreateDataPartition cfg d = ((Some dp, None), d') ->
               ID dp = cfgPartitionId cfg)
      by (intros cfg d dp d' [= <- _]; reflexivity).
    assert (Hrun : CreatePartition (sampleRequest 6 80) roomyWorld
                   = Done ((Some {| ID := 6; DiskOf := "/data1";
                                    PathOf := "/data1/datapartition" |}, None),
                           {| space := putPartition
                                {| ID := 6; DiskOf := "/data1";
                                   PathOf := "/data1/datapartition" |}
                                (setDisks (<["/data1" :=
                                    {| Path := "/data1"; Total := 1000; Used := 900;
                                       Available := 20; Allocated := 80;
                                       Unallocated := 20 |}]> (disks roomySpace))
                                  (setChooseIndex 1 roomySpace));
                              trace := [EvSelectDisk "/data2"; EvSelectDisk "/data1";
                                        EvCreateDataPartition
                                          {| cfgPartitionId := 6; cfgVolName := "vol";
                                             cfgPeers := ["10.0.0.1:6000"; "10.0.0.2:6000"];
                                             cfgNodeId := 1; cfgClusterId := "cfs";
                                             cfgPartitionSize := 80;
                                             cfgPartitionType := "extent";
                                             cfgRandomWrite := false |} "/data1"] |}))
      by (vm_compute; reflexivity).
    split; [|split; [exact Hrun|]].
    + reflexivity.
    + exact (proj2 (CreatePartition_idempotent (sampleRequest 6 80) roomyWorld)
               Hlaw _ _ Hrun).
Defined.

(** Two disks with 10 units each and a request for 100 units under the new
    id 6: two selector calls, then the error. *)
Lemma CreatePartition_no_fit_witness :
  exists paths i w',
    CreatePartition (sampleRequest 6 100) sampleWorld
    = Done ((None, Some ErrNoDiskForCreatePartition), w')
    /\ w' = {| space := setChooseIndex i sampleSpace;
               trace := map EvSelectDisk paths |}
    /\ length paths = 2%nat
    /\ (length paths <= 2)%nat
    /\ partitions (space w') = {[ 5 := dp5 ]}
    /\ disks (space w') = disks sampleSpace.
Proof.
  apply (CreatePartition_no_fit (sampleRequest 6 100) sampleWorld).
  - split; [by vm_compute | done].
  - reflexivity.
  - unfold int_range. simpl. lia.
  - apply (bool_decide_unpack _). by vm_compute.
Defined.

(** C6, as first stated: every disk of [sampleSpace] has 10 units available
    and the request asks for 100, but its id 5 is registered, so the call
    succeeds with the registered handle and no error. *)
Lemma CreatePartition_no_fit_registered_id :
  disks_wf sampleSpace
  /\ map_Forall (fun _ d => Available d < PartitionSize (sampleRequest 5 100))
                (disks sampleSpace)
  /\ CreatePartition (sampleRequest 5 100) sampleWorld
     = Done ((Some dp5, None), sampleWorld).
Proof.
  split; [split; [by vm_compute | done]|].
  split; [apply (bool_decide_unpack _); by vm_compute | reflexivity].
Qed.

(** Partition 9 is unknown: deleting it changes nothing; partition 5 is
    gone after its deletion. *)
Lemma DeletePartition_absent_witness :
  DeletePartition 9 sampleWorld = Done (tt, sampleWorld)
  /\ exists w', DeletePartition 5 sampleWorld = Done (tt, w')
                /\ GetPartition 5 (space w') = None.
Proof.
  split.
  - apply (proj2 (DeletePartition_absent 9 sampleWorld)). reflexivity.
  - exact (proj1 (DeletePartition_absent 5 sampleWorld)).
Defined.

End SpaceManagerExamples.

(** ** The admin task sender *)

Section Sender.
Import Master.
Local Open Scope Z_scope.
Context {ops : TaskOps} {env : Env}.

(** A failed connection attempt ends [sendTasks] on the spot. *)
Lemma sendTasksFrom_connect_failure now i task rest s :
  GetConnect i = false ->
  sendTasksFrom now i (task :: rest) s
  = updateTaskInfo now task false
      (emit (EvPutConnect true)
         (emit EvWarnBySpecialUmpKey (emit (EvGetConnect false) s))).
Proof. intros Hc. simpl. by rewrite Hc. Qed.

(** The events of [sendTasks]: a reply is read after every packet that could
    be written, packets are written in the order of the batch, no timeout
    warning is raised; the registry is not touched. *)
Lemma sendTasksFrom_events now tasks :
  forall i s, exists ev,
    trace (sendTasksFrom now i tasks s) = trace s ++ ev
    /\ readsFollowWrites ReadDeadlineTime ev
    /\ written ev `sublist_of` tasks
    /\ Forall (fun e => isWarn e = false) ev
    /\ TaskMap (sendTasksFrom now i tasks s) = TaskMap s.
Proof.
  induction tasks as [|task rest IH]; intros i s.
  - exists []. rewrite app_nil_r. repeat split; constructor.
  - cbn [sendTasksFrom]. destruct (GetConnect i).
    + unfold sendAdminTask. cbn [emit heap].
      destruct (heap s !! task) as [t|]; [destruct (Marshal t); cbn [negb]|];
        [destruct (WriteToConn i); cbn [negb];
           [destruct (ReadFromConn i) as [reply|]|]|..].
      all: match goal with
           | |- context [sendTasksFrom _ (S ?j) _ ?s1] =>
             destruct (IH (S j) s1) as (ev & -> & Hev & Hsub & Hnw & ->)
           end.
      all: cbn [updateTaskInfo setHeap emit trace TaskMap].
      all: rewrite <- !app_assoc; cbn [app].
      all: eexists; split; [reflexivity|].
      all: split; [cbn; auto|].
      all: split; [cbn; first [by apply sublist_skip | by apply sublist_cons]|].
      all: split; [repeat (apply Forall_cons; split; [reflexivity|]); exact Hnw
                  | reflexivity].
    + cbn [updateTaskInfo setHeap emit trace TaskMap].
      rewrite <- !app_assoc; cbn [app].
      eexists; split; [reflexivity|].
      split; [cbn; auto|].
      split; [cbn; apply sublist_nil_l|].
      split; [repeat (apply Forall_cons; split; [reflexivity|]); constructor
             | reflexivity].
Qed.

(** C1, as amended.  For every batch the dispatch loop sends, each packet
    write that succeeds is followed at once by the read of a reply for the
    same task, under the short deadline [ReadDeadlineTime].  Whatever reply
    is read, [sendAdminTask] returns the nil error and marks the task: the
    reply is not looked at.  [syncCreatePartition] writes and reads in the
    same way, under the long deadline, and is the one that tests the result
    code of the reply: when it is not [OpOk], the error
    [fmt.Errorf(string(packet.Data))] is logged and returned. *)
Theorem sendTasks_reads_reply (now : Z) :
  (forall tasks s, exists ev,
      trace (sendTasks now tasks s) = trace s ++ ev
      /\ readsFollowWrites ReadDeadlineTime ev)
  /\ (forall i task s t reply,
        heap s !! task = Some t -> Marshal t = true ->
        WriteToConn i = true -> ReadFromConn i = Some reply ->
        sendAdminTask now i task s
        = (None,
           updateTaskInfo now task true
             (emit (EvReadFromConn task ReadDeadlineTime true)
                (emit (EvWriteToConn task true) s))))
  /\ (forall i task s t resultCode data,
        heap s !! task = Some t -> Marshal t = true ->
        WriteToConn i = true -> ReadFromConn i = Some (resultCode, data) ->
        syncCreatePartition i task s
        = let s2 := emit (EvReadFromConn task CreateDataPartitionDeadlineTime true)
                      (emit (EvWriteToConn task true) s) in
          if resultCode =? OpOk then (None, s2)
          else (Some (ErrRemoteRejected (Errorf data)),
                emit (EvLogErrorf (ID t) (Errorf data)) s2)).
Proof.
  split.
  { intros tasks s.
    destruct (sendTasksFrom_events now tasks 0 s) as (ev & Htr & Hrf & _).
    by exists ev. }
  split.
  - intros i task s t reply Ht Hm Hw Hr. unfold sendAdminTask.
    rewrite Ht, Hm, Hw, Hr. reflexivity.
  - intros i task s t resultCode data Ht Hm Hw Hr. unfold syncCreatePartition.
    rewrite Ht, Hm, Hw, Hr. cbn [negb].
    destruct (resultCode =? OpOk); reflexivity.
Qed.

(** The walk of [getNeedDeleteTasks]: it changes neither the tasks nor the
    registry, selects the timed-out tasks among the entries walked, and
    warns about those that were sent before. *)
Lemma needDeleteLoop_spec now kvs :
  forall s acc, exists sel ev,
    (needDeleteLoop now kvs s acc).1 = acc ++ sel
    /\ heap (needDeleteLoop now kvs s acc).2 = heap s
    /\ TaskMap (needDeleteLoop now kvs s acc).2 = TaskMap s
    /\ trace (needDeleteLoop now kvs s acc).2 = trace s ++ ev
    /\ (forall p, p ∈ sel <->
          exists k t, (k, p) ∈ kvs /\ heap s !! p = Some t
                      /\ CheckTaskTimeOut now t = true)
    /\ (forall id, EvWarn id ∈ ev <->
          exists k p t, (k, p) ∈ kvs /\ heap s !! p = Some t
                        /\ CheckTaskTimeOut now t = true
                        /\ 0 < SendTime t /\ ID t = id)
    /\ Forall (fun e => isEviction e = true) ev.
Proof.
  induction kvs as [|[k p] rest IH]; intros s acc.
  - exists [], []. cbn. rewrite !app_nil_r. repeat split; try constructor.
    + by intros ?%elem_of_nil.
    + by intros (? & ? & ?%elem_of_nil & _).
    + by intros ?%elem_of_nil.
    + by intros (? & ? & ? & ?%elem_of_nil & _).
  - cbn [needDeleteLoop].
    destruct (heap s !! p) as [t|] eqn:Hp;
      [destruct (CheckTaskTimeOut now t) eqn:Hto|].
    + set (s2 := if 0 <? SendTime t
                 then emit (EvWarn (ID t)) (emit (EvLogWarn (ID t)) s)
                 else emit (EvLogWarn (ID t)) s).
      assert (Hh : heap s2 = heap s) by (subst s2; by destruct (0 <? SendTime t)).
      assert (Hm : TaskMap s2 = TaskMap s) by (subst s2; by destruct (0 <? SendTime t)).
      assert (Ht : trace s2 = trace s ++ EvLogWarn (ID t)
                     :: (if 0 <? SendTime t then [EvWarn (ID t)] else [])).
      { subst s2. destruct (0 <? SendTime t); cbn; by rewrite <- ?app_assoc. }
      destruct (IH s2 (acc ++ [p])) as (sel & ev & -> & -> & -> & -> & Hsel & Hev & Hnw).
      rewrite Hh, Hm, Ht. rewrite Hh in Hsel, Hev.
      exists (p :: sel),
        (EvLogWarn (ID t) :: (if 0 <? SendTime t then [EvWarn (ID t)] else []) ++ ev).
      rewrite <- !app_assoc. cbn [app].
      split; [reflexivity|]. split; [reflexivity|]. split; [reflexivity|].
      split; [reflexivity|]. split; [|split].
      * intros q. rewrite elem_of_cons, Hsel. split.
        -- intros [-> | (k' & t' & Hin & Hq)].
           ++ exists k, t. split; [left|done].
           ++ exists k', t'. split; [by right|done].
        -- intros (k' & t' & [[= -> ->] | Hin]%elem_of_cons & Hq).
           ++ by left.
           ++ right. by exists k', t'.
      * intros id. rewrite elem_of_cons, elem_of_app, Hev. split.
        -- intros [[=] | [Hw | (k' & p' & t' & Hin & Hq)]].
           ++ destruct (Z.ltb_spec 0 (SendTime t)); [|by apply elem_of_nil in Hw].
              apply list_elem_of_singleton in Hw as [= ->].
              exists k, p, t. split; [left|done].
           ++ exists k', p', t'. split; [by right|done].
        -- intros (k' & p' & t' & [[= -> ->] | Hin]%elem_of_cons & Hq & Hto' & Hpos & Hid).
           ++ right. left. rewrite Hp in Hq. injection Hq as <-.
              destruct (Z.ltb_spec 0 (SendTime t)); [|lia].
              rewrite Hid. by left.
           ++ right. right. by exists k', p', t'.
      * apply Forall_cons. split; [reflexivity|]. apply Forall_app. split; [|exact Hnw].
        destruct (0 <? SendTime t); repeat constructor.
    + destruct (IH s acc) as (sel & ev & -> & -> & -> & -> & Hsel & Hev & Hnw).
      exists sel, ev. repeat split; try done.
      * intros (k' & t' & Hin & Hq)%Hsel. exists k', t'. split; [by right|done].
      * intros (k' & t' & [[= -> ->] | Hin]%elem_of_cons & Hq & Hto').
        -- congruence.
        -- apply Hsel. by exists k', t'.
      * intros (k' & p' & t' & Hin & Hq)%Hev. exists k', p', t'. split; [by right|done].
      * intros (k' & p' & t' & [[= -> ->] | Hin]%elem_of_cons & Hq & Hto' & Hrest).
        -- congruence.
        -- apply Hev. by exists k', p', t'.
    + destruct (IH s acc) as (sel & ev & -> & -> & -> & -> & Hsel & Hev & Hnw).
      exists sel, ev. repeat split; try done.
      * intros (k' & t' & Hin & Hq)%Hsel. exists k', t'. split; [by right|done].
      * intros (k' & t' & [[= -> ->] | Hin]%elem_of_cons & Hq & Hto').
        -- congruence.
        -- apply Hsel. by exists k', t'.
      * intros (k' & p' & t' & Hin & Hq)%Hev. exists k', p', t'. split; [by right|done].
      * intros (k' & p' & t' & [[= -> ->] | Hin]%elem_of_cons & Hq & Hto' & Hrest).
        -- congruence.
        -- apply Hev. by exists k', p', t'.
Qed.

(** [DelTask] on a live task removes the entry under its id. *)
Lemma DelTask_spec p s t :
  heap s !! p = Some t ->
  heap (DelTask p s) = heap s /\ trace (DelTask p s) = trace s
  /\ TaskMap (DelTask p s) = delete (ID t) (TaskMap s).
Proof.
  intros Hp. unfold DelTask. rewrite Hp.
  destruct (TaskMap s !! ID t) eqn:Hk; cbn; [done|].
  by rewrite delete_id.
Qed.

(** The deletions of [doDeleteTasks]: entries only disappear, and the entry
    under the id of every listed task does. *)
Lemma delTasks_spec l :
  forall s,
    let s' := foldl (fun acc t => DelTask t acc) s l in
    heap s' = heap s /\ trace s' = trace s
    /\ (forall k v, TaskMap s' !! k = Some v -> TaskMap s !! k = Some v)
    /\ (forall p t, p ∈ l -> heap s !! p = Some t -> TaskMap s' !! ID t = None).
Proof.
  induction l as [|q l IH]; intros s; cbn.
  - repeat split; try done. by intros p t ?%elem_of_nil.
  - destruct (IH (DelTask q s)) as (Hh & Ht & Hsub & Hdel).
    assert (Hq : heap (DelTask q s) = heap s /\ trace (DelTask q s) = trace s
                 /\ forall k v, TaskMap (DelTask q s) !! k = Some v ->
                                TaskMap s !! k = Some v).
    { destruct (heap s !! q) as [t|] eqn:Hqt.
      - destruct (DelTask_spec q s t Hqt) as (-> & -> & ->).
        repeat split. intros k v [_ ?]%lookup_delete_Some. done.
      - unfold DelTask. by rewrite Hqt. }
    destruct Hq as (Hh1 & Ht1 & Hsub1).
    rewrite Hh, Ht, Hh1, Ht1. repeat split.
    + intros k v Hkv. by apply Hsub1, Hsub.
    + intros p t [-> | Hin]%elem_of_cons Hp.
      * destruct (TaskMap (foldl (fun acc t0 => DelTask t0 acc) (DelTask q s) l) !! ID t)
          as [v|] eqn:Hv; [|done].
        apply Hsub in Hv. destruct (DelTask_spec q s t Hp) as (_ & _ & Hm).
        rewrite Hm, lookup_delete_eq in Hv. done.
      * apply (Hdel p t Hin). by rewrite Hh1.
Qed.

(** The two marking loops: what they append comes from the entries walked
    and is of the class selected; opcodes stay. *)
Lemma collectMarked_spec (cop : Z -> bool) now kvs :
  forall h tasks, exists added,
    (collectMarked (fun t => cop (OpCode t)) now kvs h tasks).2 = tasks ++ added
    /\ (forall p, p ∈ added -> exists k, (k, p) ∈ kvs)
    /\ Forall (fun p => exists op, opAt h p = Some op /\ cop op = true) added
    /\ (forall p, opAt (collectMarked (fun t => cop (OpCode t)) now kvs h tasks).1 p
                  = opAt h p).
Proof.
  induction kvs as [|[k p] rest IH]; intros h tasks.
  - exists []. cbn. rewrite app_nil_r. repeat split; try constructor.
    by intros ? ?%elem_of_nil.
  - cbn [collectMarked].
    destruct (h !! p) as [t|] eqn:Hp;
      [destruct (cop (OpCode t) && CheckTaskNeedSend now t) eqn:Hsel|].
    + assert (Hop : forall q, opAt (<[p := markSent now t]> h) q = opAt h q).
      { intros q. unfold opAt. destruct (decide (q = p)) as [->|Hne].
        - by rewrite lookup_insert_eq, Hp.
        - by rewrite lookup_insert_ne. }
      destruct (IH (<[p := markSent now t]> h) (tasks ++ [p]))
        as (added & -> & Hin & Hcls & Hops).
      exists (p :: added). rewrite <- app_assoc. split; [reflexivity|].
      split; [|split].
      * intros q [-> | Hq]%elem_of_cons; [exists k; left|].
        destruct (Hin q Hq) as [k' ?]. exists k'. by right.
      * apply Forall_cons. split.
        -- exists (OpCode t). unfold opAt. rewrite Hp.
           by apply andb_true_iff in Hsel as [-> _].
        -- eapply Forall_impl; [exact Hcls|]. intros q (op & Hq & ?).
           exists op. by rewrite <- Hop.
      * intros q. by rewrite Hops, Hop.
    + destruct (IH h tasks) as (added & -> & Hin & Hcls & Hops).
      exists added. repeat split; try done.
      intros q Hq. destruct (Hin q Hq) as [k' ?]. exists k'. by right.
    + destruct (IH h tasks) as (added & -> & Hin & Hcls & Hops).
      exists added. repeat split; try done.
      intros q Hq. destruct (Hin q Hq) as [k' ?]. exists k'. by right.
Qed.

(** The last loop: what it appends comes from the entries walked and is
    neither heartbeat nor urgent. *)
Lemma collectNormal_spec now kvs h :
  forall tasks, exists added,
    collectNormal now kvs h tasks = tasks ++ added
    /\ (forall p, p ∈ added -> exists k, (k, p) ∈ kvs)
    /\ Forall (classAt IsNormalTask h) added.
Proof.
  induction kvs as [|[k p] rest IH]; intros tasks.
  - exists []. cbn. rewrite app_nil_r. repeat split; try constructor.
    by intros ? ?%elem_of_nil.
  - cbn [collectNormal].
    destruct (h !! p) as [t|] eqn:Hp;
      [destruct (negb (IsHeartbeatTask t) && negb (IsUrgentTask t)
                 && CheckTaskNeedSend now t) eqn:Hsel|].
    + destruct (MaxTaskLen <? length (tasks ++ [p]))%nat.
      * exists [p]. split; [reflexivity|]. split.
        -- intros q ->%list_elem_of_singleton. exists k. left.
        -- apply Forall_singleton. exists t. split; [done|].
           unfold IsNormalTask. by apply andb_true_iff in Hsel as [-> _].
      * destruct (IH (tasks ++ [p])) as (added & -> & Hin & Hcls).
        exists (p :: added). rewrite <- app_assoc. split; [reflexivity|]. split.
        -- intros q [-> | Hq]%elem_of_cons; [exists k; left|].
           destruct (Hin q Hq) as [k' ?]. exists k'. by right.
        -- apply Forall_cons. split; [|done]. exists t. split; [done|].
           unfold IsNormalTask. by apply andb_true_iff in Hsel as [-> _].
    + destruct (MaxTaskLen <? length tasks)%nat.
      * exists []. rewrite app_nil_r. repeat split; try constructor.
        by intros ? ?%elem_of_nil.
      * destruct (IH tasks) as (added & -> & Hin & Hcls).
        exists added. repeat split; try done.
        intros q Hq. destruct (Hin q Hq) as [k' ?]. exists k'. by right.
    + destruct (MaxTaskLen <? length tasks)%nat.
      * exists []. rewrite app_nil_r. repeat split; try constructor.
        by intros ? ?%elem_of_nil.
      * destruct (IH tasks) as (added & -> & Hin & Hcls).
        exists added. repeat split; try done.
        intros q Hq. destruct (Hin q Hq) as [k' ?]. exists k'. by right.
Qed.

Lemma classAt_opAt (cop : Z -> bool) h p :
  classAt (fun t => cop (OpCode t)) h p
  <-> exists op, opAt h p = Some op /\ cop op = true.
Proof.
  unfold classAt, opAt. split.
  - intros (t & -> & ?). by exists (OpCode t).
  - intros (op & Hop & ?). destruct (h !! p) as [t|]; [|done].
    injection Hop as <-. by exists t.
Qed.

(** The batch of a tick: heartbeat tasks, then urgent tasks, then normal
    tasks, all taken from the registry; only the tasks are touched, and not
    their opcodes. *)
Lemma getNeedDealTask_spec now s :
  exists hb ur no,
    (getNeedDealTask now s).1 = hb ++ ur ++ no
    /\ Forall (classAt IsHeartbeatTask (heap s)) hb
    /\ Forall (classAt IsUrgentTask (heap s)) ur
    /\ Forall (classAt IsNormalTask (heap s)) no
    /\ (forall p, p ∈ (getNeedDealTask now s).1 ->
          exists site k, (k, p) ∈ range site (TaskMap s))
    /\ TaskMap (getNeedDealTask now s).2 = TaskMap s
    /\ trace (getNeedDealTask now s).2 = trace s.
Proof.
  unfold getNeedDealTask.
  destruct (collectMarked_spec heartbeatOp now (range 1 (TaskMap s)) (heap s) [])
    as (hb & Hhb & Hin1 & Hc1 & Hop1).
  change (fun t => heartbeatOp (OpCode t)) with IsHeartbeatTask in *.
  destruct (collectMarked IsHeartbeatTask now (range 1 (TaskMap s)) (heap s) [])
    as [h1 tasks1]. cbn [fst snd] in *. subst tasks1.
  destruct (collectMarked_spec urgentOp now (range 2 (TaskMap s)) h1 ([] ++ hb))
    as (ur & Hur & Hin2 & Hc2 & Hop2).
  change (fun t => urgentOp (OpCode t)) with IsUrgentTask in *.
  destruct (collectMarked IsUrgentTask now (range 2 (TaskMap s)) h1 ([] ++ hb))
    as [h2 tasks2]. cbn [fst snd] in *. subst tasks2.
  destruct (collectNormal_spec now (range 3 (TaskMap s)) h2 (([] ++ hb) ++ ur))
    as (no & Hno & Hin3 & Hc3).
  rewrite Hno. cbn [app] in *.
  exists hb, ur, no. rewrite <- app_assoc.
  split; [reflexivity|]. split; [|split; [|split; [|split]]].
  - eapply Forall_impl; [exact Hc1|]. intros p Hp.
    by apply (classAt_opAt heartbeatOp).
  - eapply Forall_impl; [exact Hc2|]. intros p (op & Hp & ?).
    apply (classAt_opAt urgentOp). exists op.
    split; [by rewrite <- (Hop1 p) | assumption].
  - eapply Forall_impl; [exact Hc3|]. intros p (t & Hp & Hn).
    assert (Hop : opAt (heap s) p = Some (OpCode t))
      by (rewrite <- Hop1, <- Hop2; unfold opAt; by rewrite Hp).
    unfold opAt in Hop. destruct (heap s !! p) as [t0|] eqn:Hp0; [|done].
    injection Hop as Hop. exists t0. split; [done|].
    revert Hn. unfold IsNormalTask, IsHeartbeatTask, IsUrgentTask. by rewrite Hop.
  - intros p [Hp | [Hp | Hp]%elem_of_app]%elem_of_app.
    + destruct (Hin1 p Hp) as [k ?]. by exists 1%nat, k.
    + destruct (Hin2 p Hp) as [k ?]. by exists 2%nat, k.
    + destruct (Hin3 p Hp) as [k ?]. by exists 3%nat, k.
  - split; reflexivity.
Qed.

(** The events of [doSendTasks]. *)
Lemma doSendTasks_events now s :
  exists ev,
    trace (doSendTasks now s) = trace s ++ ev
    /\ readsFollowWrites ReadDeadlineTime ev
    /\ written ev `sublist_of` (getNeedDealTask now s).1
    /\ Forall (fun e => isWarn e = false) ev
    /\ TaskMap (doSendTasks now s) = TaskMap s.
Proof.
  destruct (getNeedDealTask_spec now s) as (_ & _ & _ & _ & _ & _ & _ & _ & Hm & Ht).
  unfold doSendTasks.
  destruct (getNeedDealTask now s) as [tasks s1]. cbn [fst snd] in *.
  destruct tasks as [|task rest].
  - exists [EvSleep]. cbn. rewrite Ht, Hm. repeat split; repeat constructor.
  - destruct (sendTasksFrom_events now (task :: rest) 0 s1)
      as (ev & Htr & Hrf & Hsub & Hnw & Htm).
    exists ev. unfold sendTasks. by rewrite Htr, Htm, Ht, Hm.
Qed.

Lemma registry_wf_lookup s :
  registry_wf s ->
  forall k p, TaskMap s !! k = Some p -> exists t, heap s !! p = Some t /\ ID t = k.
Proof.
  intros Hwf k p Hk. specialize (Hwf k p Hk). cbn in Hwf.
  apply fmap_Some in Hwf as (t & Ht & ->). by exists t.
Qed.

(** [PutTask] and [DelTask] keep the registry well formed. *)
Lemma PutTask_wf t s : registry_wf s -> registry_wf (PutTask t s).
Proof.
  intros Hwf. unfold PutTask.
  destruct (heap s !! t) as [task|] eqn:Ht; [|done].
  destruct (TaskMap s !! ID task) eqn:Hk; [done|].
  unfold registry_wf. cbn [heap TaskMap setTaskMap].
  apply map_Forall_insert_2; [by rewrite Ht | exact Hwf].
Qed.

Lemma DelTask_wf t s : registry_wf s -> registry_wf (DelTask t s).
Proof.
  intros Hwf. unfold DelTask.
  destruct (heap s !! t) as [task|] eqn:Ht; [|done].
  destruct (TaskMap s !! ID task) eqn:Hk; [|done].
  unfold registry_wf. cbn [heap TaskMap setTaskMap].
  by apply map_Forall_delete.
Qed.

(** The last loop of the assembly adds at most one task to a batch that is
    over [MaxTaskLen] already, and never takes a batch beyond
    [MaxTaskLen + 1] otherwise. *)
Lemma collectNormal_length now kvs h :
  forall tasks,
    (length (collectNormal now kvs h tasks)
     <= S (length tasks) `max` S MaxTaskLen)%nat.
Proof.
  induction kvs as [|[k p] rest IH]; intros tasks; cbn [collectNormal]; [lia|].
  set (tasks' := match h !! p with
                 | Some t => if negb (IsHeartbeatTask t) && negb (IsUrgentTask t)
                                && CheckTaskNeedSend now t
                             then tasks ++ [p] else tasks
                 | None => tasks
                 end).
  assert (Hlen : (length tasks' <= S (length tasks))%nat).
  { subst tasks'. repeat case_match; rewrite ?length_app; cbn; lia. }
  destruct (Nat.ltb_spec MaxTaskLen (length tasks')); [lia|].
  specialize (IH tasks'). lia.
Qed.

(** C8.  Let the registry be well formed and every [range] loop walk every
    entry.  For every registered task that is timed out at the tick: the
    entry is gone after [doDeleteTasks] and still gone at the end of the
    tick; among the events of the tick, the warning [Warn] about this task
    occurs exactly when the task had been sent before ([SendTime > 0]); and
    no packet of this task is written during the tick, so it is not
    retried.  The tick yields the new sender state only: no error is
    returned. *)
Theorem tick_evicts_timed_out (now : Z) (s : Sender) (k : string)
  (p : positive) (t : AdminTask) :
  range_fair ->
  registry_wf s ->
  TaskMap s !! k = Some p ->
  heap s !! p = Some t ->
  CheckTaskTimeOut now t = true ->
  TaskMap (doDeleteTasks now s) !! k = None
  /\ TaskMap (tick now s) !! k = None
  /\ exists ev,
       trace (tick now s) = trace s ++ ev
       /\ (EvWarn k ∈ ev <-> 0 < SendTime t)
       /\ (forall ok, EvWriteToConn p ok ∉ ev).
Proof.
  intros Hfair Hwf Hk Hp Hto.
  pose proof (registry_wf_lookup s Hwf) as Hwf'. clear Hwf. rename Hwf' into Hwf.
  assert (Hidk : ID t = k).
  { destruct (Hwf k p Hk) as (t' & Ht' & <-). congruence. }
  assert (Hrange : forall site (m : gmap string positive) k' p',
             (k', p') ∈ range site m <-> m !! k' = Some p').
  { intros site m k' p'. rewrite (Hfair site m). apply elem_of_map_to_list. }
  unfold tick.
  destruct (doSendTasks_events now (doDeleteTasks now s))
    as (ev2 & Htr2 & _ & Hsub2 & Hnw2 & Hm2).
  destruct (getNeedDealTask_spec now (doDeleteTasks now s))
    as (_ & _ & _ & _ & _ & _ & _ & Hfrom & _).
  rewrite Htr2, Hm2. revert Hsub2 Hfrom.
  generalize (getNeedDealTask now (doDeleteTasks now s)).1 as batch.
  unfold doDeleteTasks, getNeedDeleteTasks.
  destruct (needDeleteLoop_spec now (range 0 (TaskMap s)) s [])
    as (sel & ev1 & Hsel & Hh1 & Hm1 & Htr1 & Hin & Hwarn & Hnw1).
  destruct (needDeleteLoop now (range 0 (TaskMap s)) s []) as [delTasks s1].
  cbn [fst snd app] in *. subst delTasks.
  destruct (delTasks_spec sel s1) as (Hh & Htr & Hsubm & Hdel).
  set (s2 := foldl (fun acc t0 => DelTask t0 acc) s1 sel) in *.
  intros batch Hsub2 Hfrom.
  assert (Hgone : TaskMap s2 !! k = None).
  { rewrite <- Hidk. apply (Hdel p t); [|by rewrite Hh1].
    apply Hin. exists k, t. by rewrite Hrange. }
  split; [exact Hgone|]. split; [exact Hgone|].
  exists (ev1 ++ ev2). rewrite Htr, Htr1, app_assoc.
  split; [reflexivity|]. split; [split|].
  - intros [Hw | Hw]%elem_of_app.
    + apply Hwarn in Hw as (k' & p' & t' & Hin' & Hp' & _ & Hpos & Hid').
      apply Hrange in Hin'.
      destruct (Hwf k' p' Hin') as (t'' & Ht'' & Hk').
      assert (k' = k) by congruence. subst k'.
      assert (p' = p) by congruence. subst p'. congruence.
    + rewrite Forall_forall in Hnw2. by apply Hnw2 in Hw.
  - intros Hpos. apply elem_of_app. left. apply Hwarn.
    exists k, p, t. by rewrite Hrange.
  - intros ok [Hw | Hw]%elem_of_app.
    + rewrite Forall_forall in Hnw1. by apply Hnw1 in Hw.
    + assert (Hb : p ∈ batch).
      { eapply elem_of_sublist; [|exact Hsub2].
        apply list_elem_of_omap. by exists (EvWriteToConn p ok). }
      destruct (Hfrom p Hb) as (site & k' & Hin').
      apply Hrange in Hin'. pose proof (Hsubm k' p Hin') as Hreg.
      rewrite Hm1 in Hreg.
      destruct (Hwf k' p Hreg) as (t' & Ht' & Hk').
      assert (k' = k) by congruence. subst k'. congruence.
Qed.

(** Where an element of [l1 ++ l2] sits, from a property that one of the
    two parts has throughout and the element lacks. *)
Lemma lookup_app_not_left {A} (P : A -> Prop) (l1 l2 : list A) i x :
  Forall P l1 -> (l1 ++ l2) !! i = Some x -> ~ P x -> (length l1 <= i)%nat.
Proof.
  intros Hall Hi Hx. destruct (Nat.le_gt_cases (length l1) i); [done|].
  rewrite lookup_app_l in Hi by done.
  destruct Hx. by eapply Forall_lookup_1.
Qed.

Lemma lookup_app_not_right {A} (Q : A -> Prop) (l1 l2 : list A) i x :
  Forall Q l2 -> (l1 ++ l2) !! i = Some x -> ~ Q x -> (i < length l1)%nat.
Proof.
  intros Hall Hi Hx. destruct (Nat.le_gt_cases (length l1) i); [|done].
  rewrite lookup_app_r in Hi by done.
  destruct Hx. by eapply Forall_lookup_1.
Qed.

Lemma Forall_sublist {A} (P : A -> Prop) (l k : list A) :
  l `sublist_of` k -> Forall P k -> Forall P l.
Proof.
  intros Hsub Hk. rewrite Forall_forall in *. intros x Hx.
  apply Hk. by eapply elem_of_sublist.
Qed.

(** In a run of heartbeat tasks followed by a run of urgent tasks followed
    by a run of normal tasks, positions follow the classes, provided no
    opcode is both heartbeat and urgent. *)
Lemma class_runs_ordered (h : gmap positive AdminTask) (hb ur no : list positive) :
  (forall op, heartbeatOp op = true -> urgentOp op = false) ->
  Forall (classAt IsHeartbeatTask h) hb ->
  Forall (classAt IsUrgentTask h) ur ->
  Forall (classAt IsNormalTask h) no ->
  forall i j pi pj,
    (hb ++ ur ++ no) !! i = Some pi ->
    (hb ++ ur ++ no) !! j = Some pj ->
    (classAt IsHeartbeatTask h pi
     /\ (classAt IsUrgentTask h pj \/ classAt IsNormalTask h pj))
    \/ (classAt IsUrgentTask h pi /\ classAt IsNormalTask h pj) ->
    (i < j)%nat.
Proof.
  intros Hdisj Hhb Hur Hno i j pi pj Hi Hj Hcls.
  assert (Hhu : forall p, classAt IsHeartbeatTask h p -> ~ classAt IsUrgentTask h p).
  { intros p (t & Ht & Hh) (t' & Ht' & Hu). rewrite Ht in Ht'. injection Ht' as <-.
    unfold IsHeartbeatTask, IsUrgentTask in *. rewrite (Hdisj _ Hh) in Hu. done. }
  assert (Hhn : forall p, classAt IsHeartbeatTask h p -> ~ classAt IsNormalTask h p).
  { intros p (t & Ht & Hh) (t' & Ht' & Hn). rewrite Ht in Ht'. injection Ht' as <-.
    unfold IsNormalTask in Hn. rewrite Hh in Hn. done. }
  assert (Hun : forall p, classAt IsUrgentTask h p -> ~ classAt IsNormalTask h p).
  { intros p (t & Ht & Hu) (t' & Ht' & Hn). rewrite Ht in Ht'. injection Ht' as <-.
    unfold IsNormalTask in Hn. rewrite Hu, andb_false_r in Hn. done. }
  assert (Hurno : Forall (fun p => ~ classAt IsHeartbeatTask h p) (ur ++ no)).
  { apply Forall_app. split.
    - eapply Forall_impl; [exact Hur|]. intros p Hp Hh. exact (Hhu p Hh Hp).
    - eapply Forall_impl; [exact Hno|]. intros p Hp Hh. exact (Hhn p Hh Hp). }
  assert (Hhbur : Forall (fun p => ~ classAt IsNormalTask h p) (hb ++ ur)).
  { apply Forall_app. split.
    - eapply Forall_impl; [exact Hhb|]. exact Hhn.
    - eapply Forall_impl; [exact Hur|]. exact Hun. }
  destruct Hcls as [[Hpi Hpj] | [Hpi Hpj]].
  - assert (i < length hb)%nat.
    { eapply (lookup_app_not_right _ hb (ur ++ no)); [exact Hurno|exact Hi|].
      intros Hn. exact (Hn Hpi). }
    assert (length hb <= j)%nat; [|lia].
    eapply (lookup_app_not_left _ hb (ur ++ no)); [exact Hhb|exact Hj|].
    intros Hh. destruct Hpj as [Hpj | Hpj]; [exact (Hhu pj Hh Hpj)|exact (Hhn pj Hh Hpj)].
  - rewrite app_assoc in Hi, Hj.
    assert (i < length (hb ++ ur))%nat.
    { eapply (lookup_app_not_right _ (hb ++ ur) no); [exact Hno|exact Hi|].
      exact (Hun pi Hpi). }
    assert (length (hb ++ ur) <= j)%nat; [|lia].
    eapply (lookup_app_not_left _ (hb ++ ur) no); [exact Hhbur|exact Hj|].
    intros Hn. exact (Hn Hpj).
Qed.

(** C2.  When no opcode is both heartbeat and urgent, the batch of a tick
    is a run of heartbeat tasks, followed by a run of urgent tasks, followed
    by a run of normal tasks: every heartbeat task of the batch stands
    before every urgent and every normal task of the batch, and every urgent
    task before every normal task.  The packets of the tick are written in
    the order of the batch, so the same holds of the packet writes. *)
Theorem getNeedDealTask_priority (now : Z) (s : Sender) :
  (forall op, heartbeatOp op = true -> urgentOp op = false) ->
  (exists hb ur no,
      (getNeedDealTask now s).1 = hb ++ ur ++ no
      /\ Forall (classAt IsHeartbeatTask (heap s)) hb
      /\ Forall (classAt IsUrgentTask (heap s)) ur
      /\ Forall (classAt IsNormalTask (heap s)) no)
  /\ (forall i j pi pj,
        (getNeedDealTask now s).1 !! i = Some pi ->
        (getNeedDealTask now s).1 !! j = Some pj ->
        (classAt IsHeartbeatTask (heap s) pi
         /\ (classAt IsUrgentTask (heap s) pj \/ classAt IsNormalTask (heap s) pj))
        \/ (classAt IsUrgentTask (heap s) pi /\ classAt IsNormalTask (heap s) pj) ->
        (i < j)%nat)
  /\ (exists ev,
        trace (doSendTasks now s) = trace s ++ ev
        /\ written ev `sublist_of` (getNeedDealTask now s).1
        /\ forall i j pi pj,
             written ev !! i = Some pi ->
             written ev !! j = Some pj ->
             (classAt IsHeartbeatTask (heap s) pi
              /\ (classAt IsUrgentTask (heap s) pj \/ classAt IsNormalTask (heap s) pj))
             \/ (classAt IsUrgentTask (heap s) pi /\ classAt IsNormalTask (heap s) pj) ->
             (i < j)%nat).
Proof.
  intros Hdisj.
  destruct (getNeedDealTask_spec now s) as (hb & ur & no & Hb & Hhb & Hur & Hno & _).
  split; [by exists hb, ur, no|]. split.
  - rewrite Hb. by apply class_runs_ordered.
  - destruct (doSendTasks_events now s) as (ev & Htr & _ & Hsub & _).
    exists ev. split; [exact Htr|]. split; [exact Hsub|].
    rewrite Hb in Hsub.
    apply sublist_app_r in Hsub as (hb' & rest & -> & Hhb' & Hrest).
    apply sublist_app_r in Hrest as (ur' & no' & -> & Hur' & Hno').
    apply class_runs_ordered; [exact Hdisj|..].
    + exact (Forall_sublist _ _ _ Hhb' Hhb).
    + exact (Forall_sublist _ _ _ Hur' Hur).
    + exact (Forall_sublist _ _ _ Hno' Hno).
Qed.

(** The events of [doDeleteTasks] are eviction events; the tasks themselves
    are not touched. *)
Lemma doDeleteTasks_events now s :
  exists ev,
    trace (doDeleteTasks now s) = trace s ++ ev
    /\ Forall (fun e => isEviction e = true) ev
    /\ heap (doDeleteTasks now s) = heap s.
Proof.
  unfold doDeleteTasks, getNeedDeleteTasks.
  destruct (needDeleteLoop_spec now (range 0 (TaskMap s)) s [])
    as (sel & ev & _ & Hh1 & _ & Htr1 & _ & _ & Hev).
  destruct (needDeleteLoop now (range 0 (TaskMap s)) s []) as [delTasks s1].
  cbn [fst snd] in *.
  destruct (delTasks_spec delTasks s1) as (Hh & Htr & _).
  exists ev. by rewrite Hh, Htr, Hh1, Htr1.
Qed.

(** The marking loops leave the tasks outside their class alone. *)
Lemma collectMarked_other (cop : Z -> bool) now kvs :
  forall h tasks p t,
    h !! p = Some t -> cop (OpCode t) = false ->
    (collectMarked (fun t => cop (OpCode t)) now kvs h tasks).1 !! p = Some t.
Proof.
  induction kvs as [|[k q] rest IH]; intros h tasks p t Hp Hc; [done|].
  cbn [collectMarked].
  destruct (h !! q) as [tq|] eqn:Hq;
    [destruct (cop (OpCode tq) && CheckTaskNeedSend now tq) eqn:Hsel|];
    [|by apply IH..].
  apply IH; [|done]. rewrite lookup_insert_ne; [done|].
  intros ->. rewrite Hp in Hq. injection Hq as <-.
  by rewrite Hc in Hsel.
Qed.

(** The assembly of the batch does not touch the normal tasks. *)
Lemma getNeedDealTask_normal now s p t :
  heap s !! p = Some t -> IsNormalTask t = true ->
  heap (getNeedDealTask now s).2 !! p = Some t.
Proof.
  intros Hp Hn. unfold IsNormalTask, IsHeartbeatTask, IsUrgentTask in Hn.
  apply andb_true_iff in Hn as [Hh Hu].
  apply negb_true_iff in Hh. apply negb_true_iff in Hu.
  unfold getNeedDealTask.
  pose proof (collectMarked_other heartbeatOp now (range 1 (TaskMap s)) (heap s) []
                p t Hp Hh) as H1.
  change (fun t => heartbeatOp (OpCode t)) with IsHeartbeatTask in H1.
  destruct (collectMarked IsHeartbeatTask now (range 1 (TaskMap s)) (heap s) [])
    as [h1 tasks1]. cbn [fst] in H1.
  pose proof (collectMarked_other urgentOp now (range 2 (TaskMap s)) h1 tasks1
                p t H1 Hu) as H2.
  change (fun t => urgentOp (OpCode t)) with IsUrgentTask in H2.
  destruct (collectMarked IsUrgentTask now (range 2 (TaskMap s)) h1 tasks1)
    as [h2 tasks2]. exact H2.
Qed.

(** C5, as amended.  When the first connection attempt of [sendTasks] fails,
    the events of the call are one failed [GetConnect], the special-key
    warning and the forced [PutConnect], in this order: one connection
    attempt, no packet write, nothing for the later tasks of the batch.  The
    registry is unchanged.  Measured from [s], the state in which the batch
    was assembled, the first task has its send count advanced by one
    (modulo [2^8], the count being a [uint8]) and its send time and status
    (and id and opcode) as before, and every other task is as before.  In a
    tick whose batch is [task :: rest], these three events are the only
    events of the tick besides those of the eviction of timed-out tasks; and
    measured from the start of the tick, this is what happens to the normal
    tasks: a normal task that is attempted is counted once, every other
    normal task is as it was.  (The heartbeat and urgent tasks of the batch
    have been marked by the assembly, before the connection attempt.) *)
Theorem sendTasks_connect_failure (now : Z) (task : positive)
  (rest : list positive) (s : Sender) :
  GetConnect 0 = false ->
  let s' := sendTasks now (task :: rest) s in
  trace s' = trace s ++ [EvGetConnect false; EvWarnBySpecialUmpKey; EvPutConnect true]
  /\ TaskMap s' = TaskMap s
  /\ (forall t, heap s !! task = Some t ->
        exists t', heap s' !! task = Some t'
                   /\ SendCount t' = uint8 (SendCount t + 1)
                   /\ SendTime t' = SendTime t
                   /\ Status t' = Status t
                   /\ ID t' = ID t /\ OpCode t' = OpCode t)
  /\ (forall other, other ≠ task -> heap s' !! other = heap s !! other)
  /\ (forall s0,
        getNeedDealTask now (doDeleteTasks now s0) = (task :: rest, s) ->
        tick now s0 = s'
        /\ (exists ev,
              trace (tick now s0) = trace s0 ++ ev
              /\ filter (fun e => isGetConnect e = true) ev = [EvGetConnect false]
              /\ filter (fun e => isWriteToConn e = true) ev = []
              /\ EvWarnBySpecialUmpKey ∈ ev)
        /\ (forall p t, heap s0 !! p = Some t -> IsNormalTask t = true ->
              (p = task ->
               heap (tick now s0) !! p
               = Some {| ID := ID t; OpCode := OpCode t; SendTime := SendTime t;
                         SendCount := uint8 (SendCount t + 1); Status := Status t;
                         CreateTime := CreateTime t |})
              /\ (p ≠ task -> heap (tick now s0) !! p = Some t))).
Proof.
  intros Hc s'. subst s'. unfold sendTasks.
  rewrite (sendTasksFrom_connect_failure now 0 task rest s Hc).
  unfold updateTaskInfo, setHeap, emit. cbn [trace heap TaskMap].
  rewrite <- !app_assoc. cbn [app].
  split; [reflexivity|]. split; [reflexivity|].
  split; [|split].
  - intros t Ht. exists (updateTask now false t).
    rewrite lookup_alter_eq, Ht. by repeat split.
  - intros other Hne. by rewrite lookup_alter_ne.
  - intros s0 Hbatch.
    assert (Htick : tick now s0
              = {| heap := alter (updateTask now false) task (heap s);
                   TaskMap := TaskMap s;
                   trace := trace s ++ [EvGetConnect false; EvWarnBySpecialUmpKey;
                                        EvPutConnect true] |}).
    { unfold tick, doSendTasks. rewrite Hbatch. unfold sendTasks.
      rewrite (sendTasksFrom_connect_failure now 0 task rest s Hc).
      unfold updateTaskInfo, setHeap, emit. cbn [trace heap TaskMap].
      by rewrite <- !app_assoc. }
    split; [exact Htick|]. rewrite Htick. cbn [trace heap].
    destruct (doDeleteTasks_events now s0) as (ev1 & Htr1 & Hev1 & Hh1).
    destruct (getNeedDealTask_spec now (doDeleteTasks now s0))
      as (_ & _ & _ & _ & _ & _ & _ & _ & _ & Htr).
    split.
    + rewrite Hbatch in Htr. cbn [snd] in Htr. rewrite Htr, Htr1.
      exists (ev1 ++ [EvGetConnect false; EvWarnBySpecialUmpKey; EvPutConnect true]).
      rewrite app_assoc. split; [reflexivity|].
      assert (Hg : filter (fun e => isGetConnect e = true) ev1 = []).
      { clear -Hev1. induction Hev1 as [|e l He _ IH]; [done|].
        rewrite filter_cons, IH. by destruct e. }
      assert (Hw : filter (fun e => isWriteToConn e = true) ev1 = []).
      { clear -Hev1. induction Hev1 as [|e l He _ IH]; [done|].
        rewrite filter_cons, IH. by destruct e. }
      rewrite !filter_app, Hg, Hw. split; [reflexivity|]. split; [reflexivity|].
      apply elem_of_app. right. apply elem_of_cons. right. apply elem_of_cons. by left.
    + intros p t Hp Hn. rewrite <- Hh1 in Hp.
      pose proof (getNeedDealTask_normal now (doDeleteTasks now s0) p t Hp Hn) as Hs.
      rewrite Hbatch in Hs. cbn [snd] in Hs. split.
      * intros ->. by rewrite lookup_alter_eq, Hs.
      * intros Hne. by rewrite lookup_alter_ne.
Qed.

End Sender.

Section SenderExamples.
Import Master MasterSamples.
Local Open Scope Z_scope.
#[local] Existing Instance sampleTaskOps.

(** Three normal tasks and a dead node; the walk of the registry starts at
    N3.  One connection attempt, no write, N3 counted once, N1 and N2 as
    they were, over the call and over the tick. *)
Lemma sendTasks_connect_failure_witness :
  tick (env := deadEnv) 2000 threeNormal
  = sendTasks (env := deadEnv) 2000 [3; 1; 2]%positive threeNormal
  /\ trace (sendTasks (env := deadEnv) 2000 [3; 1; 2]%positive threeNormal)
     = [EvGetConnect false; EvWarnBySpecialUmpKey; EvPutConnect true]
  /\ heap (sendTasks (env := deadEnv) 2000 [3; 1; 2]%positive threeNormal) !! 1%positive
     = Some (newTask "N1" 10)
  /\ heap (sendTasks (env := deadEnv) 2000 [3; 1; 2]%positive threeNormal) !! 2%positive
     = Some (newTask "N2" 10)
  /\ heap (tick (env := deadEnv) 2000 threeNormal) !! 3%positive
     = Some {| ID := "N3"; OpCode := 10; SendTime := 0; SendCount := 1;
               Status := 0; CreateTime := 1000 |}
  /\ heap (tick (env := deadEnv) 2000 threeNormal) !! 1%positive
     = Some (newTask "N1" 10).
Proof.
  pose proof (sendTasks_connect_failure (env := deadEnv) 2000 3%positive
                [1; 2]%positive threeNormal eq_refl) as (Htr & _ & _ & Hother & Htick).
  destruct (Htick threeNormal ltac:(by vm_compute)) as (Heq & _ & Hnormal).
  split; [exact Heq|]. split; [exact Htr|]. split; [|split; [|split]].
  - rewrite (Hother 1%positive); [reflexivity | discriminate].
  - rewrite (Hother 2%positive); [reflexivity | discriminate].
  - exact (proj1 (Hnormal 3%positive (newTask "N3" 10) eq_refl eq_refl) eq_refl).
  - apply (proj2 (Hnormal 1%positive (newTask "N1" 10) eq_refl eq_refl)). discriminate.
Defined.

(** C5, as first stated: on [mixed] the batch is H1, U1, N1 and the node is
    dead.  The one connection attempt fails on the heartbeat task H1; over
    the tick its send count has advanced by two and its send time is the
    time of the tick, and the urgent task U1, which was not attempted, has
    been marked as well. *)
Lemma tick_connect_failure_marks_batch :
  (getNeedDealTask (env := deadEnv) 2000 mixed).1 = [3; 2; 1]%positive
  /\ trace (tick (env := deadEnv) 2000 mixed)
     = [EvGetConnect false; EvWarnBySpecialUmpKey; EvPutConnect true]
  /\ heap mixed !! 3%positive
     = Some {| ID := "H1"; OpCode := 35; SendTime := 0; SendCount := 0;
               Status := 0; CreateTime := 1000 |}
  /\ heap (tick (env := deadEnv) 2000 mixed) !! 3%positive
     = Some {| ID := "H1"; OpCode := 35; SendTime := 2000; SendCount := 2;
               Status := 0; CreateTime := 1000 |}
  /\ heap mixed !! 2%positive
     = Some {| ID := "U1"; OpCode := 96; SendTime := 0; SendCount := 0;
               Status := 0; CreateTime := 1000 |}
  /\ heap (tick (env := deadEnv) 2000 mixed) !! 2%positive
     = Some {| ID := "U1"; OpCode := 96; SendTime := 2000; SendCount := 1;
               Status := 0; CreateTime := 1000 |}.
Proof. repeat split; by vm_compute. Qed.

(** The same scenario through a whole tick; the walk of the registry starts
    at N3, which is thus the task that is attempted. *)
Example tick_connect_failure :
  tick (env := deadEnv) 2000 threeNormal
  = {| heap := {[ 1%positive := newTask "N1" 10; 2%positive := newTask "N2" 10;
                  3%positive := {| ID := "N3"; OpCode := 10; SendTime := 0;
                                   SendCount := 1; Status := 0; CreateTime := 1000 |} ]};
       TaskMap := TaskMap threeNormal;
       trace := [EvGetConnect false; EvWarnBySpecialUmpKey; EvPutConnect true] |}.
Proof. by vm_compute. Qed.

(** A node on which the first write fails. *)
Example tick_write_failure :
  written (trace (tick (env := {| range := fun _ m => map_to_list m;
                                  GetConnect := fun _ => true;
                                  Marshal := fun _ => true;
                                  WriteToConn := fun i => negb (Nat.eqb i 0);
                                  ReadFromConn := fun _ => Some (240, "") |})
                       2000 threeNormal))
  = [3; 1; 2]%positive
  /\ SendCount <$>
       heap (tick (env := {| range := fun _ m => map_to_list m;
                             GetConnect := fun _ => true;
                             Marshal := fun _ => true;
                             WriteToConn := fun i => negb (Nat.eqb i 0);
                             ReadFromConn := fun _ => Some (240, "") |})
                  2000 threeNormal)
     = {[ 1%positive := 1; 2%positive := 1; 3%positive := 1 ]}.
Proof. by vm_compute. Qed.

(** C1, as first stated: one tick of the dispatch loop on a single normal
    task and a healthy node writes the packet and then reads a reply. *)
Lemma tick_reads_reply :
  trace (tick (env := healthyEnv) 2000 oneNormal)
  = [EvGetConnect true; EvWriteToConn 1 true; EvReadFromConn 1 5 true;
     EvPutConnect false].
Proof. by vm_compute. Qed.

(** A healthy node: the reply to a dispatched task is read and ignored, the
    reply to a synchronous create is read and tested.  A node that rejects:
    the dispatched task is marked as sent all the same, the synchronous
    create logs and returns the error. *)
Lemma sendTasks_reads_reply_witness :
  sendAdminTask (env := healthyEnv) 2000 0 1%positive oneNormal
  = (None,
     updateTaskInfo 2000 1%positive true
       (emit (EvReadFromConn 1 5 true) (emit (EvWriteToConn 1 true) oneNormal)))
  /\ syncCreatePartition (env := healthyEnv) 0 1%positive oneNormal
     = (None, emit (EvReadFromConn 1 600 true) (emit (EvWriteToConn 1 true) oneNormal))
  /\ sendAdminTask (env := rejectingEnv) 2000 0 1%positive oneNormal
     = (None,
        updateTaskInfo 2000 1%positive true
          (emit (EvReadFromConn 1 5 true) (emit (EvWriteToConn 1 true) oneNormal)))
  /\ syncCreatePartition (env := rejectingEnv) 0 1%positive oneNormal
     = (Some (ErrRemoteRejected "disk full"),
        emit (EvLogErrorf "N1" "disk full")
          (emit (EvReadFromConn 1 600 true) (emit (EvWriteToConn 1 true) oneNormal))).
Proof.
  destruct (sendTasks_reads_reply (env := healthyEnv) 2000) as (_ & Hsend & Hsync).
  destruct (sendTasks_reads_reply (env := rejectingEnv) 2000) as (_ & Hsend' & Hsync').
  split; [|split; [|split]].
  - exact (Hsend 0%nat 1%positive oneNormal (newTask "N1" 10) (240, "")
             eq_refl eq_refl eq_refl eq_refl).
  - exact (Hsync 0%nat 1%positive oneNormal (newTask "N1" 10) 240 ""
             eq_refl eq_refl eq_refl eq_refl).
  - exact (Hsend' 0%nat 1%positive oneNormal (newTask "N1" 10) (1, "disk full")
             eq_refl eq_refl eq_refl eq_refl).
  - exact (Hsync' 0%nat 1%positive oneNormal (newTask "N1" 10) 1 "disk full"
             eq_refl eq_refl eq_refl eq_refl).
Defined.

(** On [mixed]: the batch splits into heartbeat, urgent and normal runs,
    and the heartbeat task H1 at position 0 stands before the normal task N1
    at position 2. *)
Lemma getNeedDealTask_priority_witness :
  (exists hb ur no,
      (getNeedDealTask (env := healthyEnv) 2000 mixed).1 = hb ++ ur ++ no
      /\ Forall (classAt IsHeartbeatTask (heap mixed)) hb
      /\ Forall (classAt IsUrgentTask (heap mixed)) ur
      /\ Forall (classAt IsNormalTask (heap mixed)) no)
  /\ ((getNeedDealTask (env := healthyEnv) 2000 mixed).1 !! 0%nat = Some 3%positive ->
      (getNeedDealTask (env := healthyEnv) 2000 mixed).1 !! 2%nat = Some 1%positive ->
      (0 < 2)%nat).
Proof.
  assert (Hdisj : forall op, heartbeatOp op = true -> urgentOp op = false).
  { intros op. cbn. intros [H | H]%orb_true_iff; apply Z.eqb_eq in H; by subst. }
  destruct (getNeedDealTask_priority (env := healthyEnv) 2000 mixed Hdisj)
    as (Hruns & Hord & _).
  split; [exact Hruns|].
  intros H0 H2. apply (Hord 0%nat 2%nat 3%positive 1%positive H0 H2).
  left. split.
  - exists (newTask "H1" 35). split; reflexivity.
  - right. exists (newTask "N1" 10). split; reflexivity.
Defined.

(** The batch and the packets of one tick on [mixed]: H1, U1, N1. *)
Example tick_mixed :
  (getNeedDealTask (env := healthyEnv) 2000 mixed).1 = [3; 2; 1]%positive
  /\ written (trace (tick (env := healthyEnv) 2000 mixed)) = [3; 2; 1]%positive.
Proof. by vm_compute. Qed.

(** At time 10000 on [stale]: T1 is evicted with a warning. *)
Lemma tick_evicts_timed_out_witness :
  TaskMap (doDeleteTasks (env := healthyEnv) 10000 stale) !! "T1" = None
  /\ TaskMap (tick (env := healthyEnv) 10000 stale) !! "T1" = None
  /\ exists ev,
       trace (tick (env := healthyEnv) 10000 stale) = trace stale ++ ev
       /\ (EvWarn "T1" ∈ ev <-> 0 < 1000)
       /\ (forall ok, EvWriteToConn 1 ok ∉ ev).
Proof.
  apply (tick_evicts_timed_out (env := healthyEnv) 10000 stale "T1" 1%positive
           {| ID := "T1"; OpCode := 10; SendTime := 1000;
              SendCount := 1; Status := 1; CreateTime := 900 |}).
  - intros site m. reflexivity.
  - apply (bool_decide_unpack _). by vm_compute.
  - reflexivity.
  - reflexivity.
  - reflexivity.
Defined.

(** The whole tick on [stale]: both timed-out tasks leave the registry, only
    T1, which had been sent, raises the warning, and only N1 is sent. *)
Example tick_stale :
  trace (tick (env := healthyEnv) 10000 stale)
  = [EvLogWarn "T1"; EvWarn "T1"; EvLogWarn "T2";
     EvGetConnect true; EvWriteToConn 3 true; EvReadFromConn 3 5 true;
     EvPutConnect false]
  /\ TaskMap (tick (env := healthyEnv) 10000 stale) = {[ "N1" := 3%positive ]}.
Proof. by vm_compute. Qed.

(** The walks of [normalFirstEnv] are walks of the whole registry. *)
Lemma normalFirstEnv_fair : range_fair (env := normalFirstEnv).
Proof. intros site m. cbn. apply filter_app_complement. Qed.

(** C9 on [crowded].  The 31 urgent tasks alone take the batch over
    [MaxTaskLen].  When the last loop starts its walk at N1, it appends N1
    all the same, as 32nd task of the batch, and its packet is written in
    this tick; when the walk starts elsewhere, N1 is left out. *)
Lemma getNeedDealTask_over_limit :
  (MaxTaskLen < 31)%nat
  /\ length (take 31 (getNeedDealTask (env := normalFirstEnv) 2000 crowded).1) = 31%nat
  /\ Forall (fun p => bool_decide (opAt (heap crowded) p = Some 96))
            (take 31 (getNeedDealTask (env := normalFirstEnv) 2000 crowded).1)
  /\ urgentOp 96 = true
  /\ drop 31 (getNeedDealTask (env := normalFirstEnv) 2000 crowded).1 = [32%positive]
  /\ heap crowded !! 32%positive = Some (newTask "N1" 10)
  /\ IsNormalTask (newTask "N1" 10) = true
  /\ CheckTaskNeedSend 2000 (newTask "N1" 10) = true
  /\ last (written (trace (tick (env := normalFirstEnv) 2000 crowded)))
     = Some 32%positive
  /\ length (getNeedDealTask (env := healthyEnv) 2000 crowded).1 = 31%nat
  /\ bool_decide (32%positive ∈ (getNeedDealTask (env := healthyEnv) 2000 crowded).1)
     = false.
Proof.
  split; [unfold MaxTaskLen; lia|]. split; [by vm_compute|].
  split; [apply (bool_decide_unpack _); by vm_compute|].
  repeat split; by vm_compute.
Qed.

End SenderExamples.

(** * Further properties *)

(** ** The release hook and [Post] *)

Section Hook.
Import Datanode.
Local Open Scope Z_scope.
Context {ops : PacketOps} {post : PostOps}.

(** What one call of the hook does, by the value of [releases]. *)
Lemma releaseExtent_cases (p : Packet) (stores : gmap positive ExtentStore) :
  (releases p = false /\ releaseExtent (Some p) stores = (Some p, stores))
  \/ (releases p = true
      /\ exists partition,
           Object p = Some partition
           /\ releaseExtent (Some p) stores
              = (Some (storeIsRelase HasReturnToStore p),
                 if IsErrPacket p
                 then PutTinyExtentToUnavaliCh partition (ExtentID p) stores
                 else PutTinyExtentToAvaliCh partition (ExtentID p) stores)).
Proof.
  unfold releases, releaseExtent.
  destruct (IsTinyExtent (ExtentID p)); cbn [negb andb orb]; [|by left].
  destruct (Z.ltb_spec 0 (ExtentID p)), (Z.leb_spec (ExtentID p) 0); try lia;
    cbn [negb andb orb]; [|by left].
  destruct (IsRelase p =? HasReturnToStore); cbn [negb andb orb]; [by left|].
  destruct (ExtentMode p =? TinyExtentMode); cbn [negb andb orb]; [|by left].
  destruct (isLeaderPacket p); cbn [negb andb orb]; [|by left].
  destruct (isWriteOperation p); cbn [negb andb orb]; [|by left].
  destruct (IsForwardPkg p); cbn [negb andb orb]; [|by left].
  destruct (Object p) as [partition|]; [|by left].
  right. split; [reflexivity|]. by exists partition.
Qed.

(** X1.  For every packet, nil included, and whatever the predicates of the
    packet answer, a second call of the hook right after the first leaves
    the packet and all queues as the first call left them, and the two
    calls together enqueue at most one extent id. *)
Theorem releaseExtent_idempotent (pkg : option Packet)
  (stores : gmap positive ExtentStore) :
  releaseExtentTwice pkg stores = releaseExtent pkg stores
  /\ (queued (releaseExtentTwice pkg stores).2 <= S (queued stores))%nat.
Proof.
  assert (Htwice : releaseExtentTwice pkg stores = releaseExtent pkg stores).
  { unfold releaseExtentTwice. destruct pkg as [p|]; [|reflexivity].
    destruct (releaseExtent_cases p stores) as [[_ Heq] | (_ & partition & _ & Heq)];
      rewrite Heq; cbn [fst snd].
    - exact Heq.
    - apply releaseExtent_released. reflexivity. }
  split; [exact Htwice|]. rewrite Htwice.
  destruct pkg as [p|]; [|cbn; lia].
  destruct (releaseExtent_cases p stores) as [[_ ->] | (_ & partition & _ & ->)];
    cbn [snd]; [lia|].
  destruct (IsErrPacket p); [rewrite queued_put_unavali | rewrite queued_put_avali]; lia.
Qed.

(** X2.  One call of the hook enqueues exactly one extent id when all eight
    tests pass ([releases]), and then sets the release flag; in every other
    case it returns the packet and the queues untouched. *)
Theorem releaseExtent_exact (p : Packet) (stores : gmap positive ExtentStore) :
  queued (releaseExtent (Some p) stores).2
  = (queued stores + if releases p then 1 else 0)%nat
  /\ (releases p = false -> releaseExtent (Some p) stores = (Some p, stores))
  /\ (releases p = true ->
      IsRelase <$> (releaseExtent (Some p) stores).1 = Some HasReturnToStore).
Proof.
  destruct (releaseExtent_cases p stores) as [[Hr ->] | (Hr & partition & _ & ->)];
    rewrite Hr; cbn [fst snd].
  - split; [lia|]. split; [done|discriminate].
  - split; [|split; [discriminate|done]].
    destruct (IsErrPacket p); [rewrite queued_put_unavali | rewrite queued_put_avali]; lia.
Qed.

(** The release leaves the reply flag and the opcode of the packet alone. *)
Lemma cleanupPkg_fields (p : Packet) (st : HookState) :
  NeedReply (cleanupPkg p st).1 = NeedReply p
  /\ Opcode (cleanupPkg p st).1 = Opcode p.
Proof.
  unfold cleanupPkg.
  destruct (IsMasterCommand p); [done|].
  destruct (isLeaderPacket p); cbn [negb]; [|done].
  destruct (releaseExtent_cases p (hookStores st))
    as [[_ ->] | (_ & partition & _ & ->)]; cbn [fst snd default];
    by destruct (_ && _).
Qed.

(** X3.  The reply flag after [Post]: set for a [CreateDataPartition]
    packet, whatever else the packet is; otherwise cleared for a
    [StreamRead] packet and for a master command; otherwise as it was. *)
Theorem Post_NeedReply (p : Packet) (st : HookState) :
  NeedReply (Post p st).1
  = if Opcode p =? OpCreateDataPartition then true
    else if (Opcode p =? OpStreamRead) || IsMasterCommand p then false
    else NeedReply p.
Proof.
  unfold Post. cbn [fst].
  set (p1 := if IsMasterCommand p then setNeedReply false p else p).
  set (p2 := if Opcode p1 =? OpStreamRead then setNeedReply false p1 else p1).
  set (p3 := if Opcode p2 =? OpCreateDataPartition then setNeedReply true p2 else p2).
  destruct (cleanupPkg_fields p3 st) as [-> _].
  assert (H1 : Opcode p1 = Opcode p) by (subst p1; by destruct (IsMasterCommand p)).
  assert (H2 : Opcode p2 = Opcode p)
    by (subst p2; rewrite H1; by destruct (Opcode p =? OpStreamRead)).
  subst p3. rewrite H2.
  destruct (Opcode p =? OpCreateDataPartition); [reflexivity|].
  subst p2. rewrite H1.
  destruct (Opcode p =? OpStreamRead); [reflexivity|].
  subst p1. by destruct (IsMasterCommand p).
Qed.

(** One [Post] either keeps the release flag and the number of queued ids,
    or takes the flag from unset to set and enqueues one id. *)
Lemma Post_step (p : Packet) (st : HookState) :
  (IsRelase (Post p st).1 = IsRelase p
   /\ queued (hookStores (Post p st).2) = queued (hookStores st))
  \/ (IsRelase p ≠ HasReturnToStore
      /\ IsRelase (Post p st).1 = HasReturnToStore
      /\ queued (hookStores (Post p st).2) = S (queued (hookStores st))).
Proof.
  unfold Post. cbn [fst snd].
  set (p1 := if IsMasterCommand p then setNeedReply false p else p).
  set (p2 := if Opcode p1 =? OpStreamRead then setNeedReply false p1 else p1).
  set (p3 := if Opcode p2 =? OpCreateDataPartition then setNeedReply true p2 else p2).
  assert (H3 : IsRelase p3 = IsRelase p).
  { subst p3 p2 p1. by repeat case_match. }
  assert (Hadd : forall q st', hookStores (addMetrics q st') = hookStores st').
  { intros q st'. unfold addMetrics. by destruct (IsMasterCommand q). }
  rewrite Hadd, <- H3. clearbody p3. clear.
  unfold cleanupPkg.
  destruct (IsMasterCommand p3); [by left|].
  destruct (isLeaderPacket p3); cbn [negb]; [|by left].
  destruct (releaseExtent_cases p3 (hookStores st))
    as [[_ ->] | (Hr & partition & _ & ->)]; cbn [fst snd default].
  - left. by destruct (_ && _).
  - right. split.
    + unfold releases in Hr.
      destruct (Z.eqb_spec (IsRelase p3) HasReturnToStore); [|done].
      cbn [negb] in Hr. rewrite andb_false_r in Hr. discriminate.
    + destruct (_ && _); cbn [fst snd hookStores]; (split; [reflexivity|]);
        destruct (IsErrPacket p3);
        by rewrite ?queued_put_unavali, ?queued_put_avali.
Qed.

(** X4.  However often [Post] runs on one packet, and whatever the packet
    is, at most one extent id is enqueued over all the runs; once the
    release flag is set, no run enqueues anything. *)
Theorem PostTimes_at_most_once (n : nat) (p : Packet) (st : HookState) :
  (queued (hookStores (PostTimes n p st).2) <= S (queued (hookStores st)))%nat
  /\ (IsRelase p = HasReturnToStore ->
      queued (hookStores (PostTimes n p st).2) = queued (hookStores st)).
Proof.
  assert (Hset : forall n p st,
             IsRelase p = HasReturnToStore ->
             queued (hookStores (PostTimes n p st).2) = queued (hookStores st)).
  { clear. induction n as [|n IH]; intros p st Hp; [reflexivity|].
    cbn [PostTimes].
    destruct (Post_step p st) as [[Hf Hq] | (Hne & _)]; [|done].
    rewrite IH; [exact Hq | congruence]. }
  split; [|apply Hset].
  revert p st. induction n as [|n IH]; intros p st; [cbn; lia|].
  cbn [PostTimes].
  destruct (Post_step p st) as [[Hf Hq] | (_ & Hf & Hq)].
  - specialize (IH (Post p st).1 (Post p st).2). lia.
  - rewrite (Hset n _ _ Hf). lia.
Qed.

(** X5.  When [IsMasterCommand] does not read the reply flag: a master
    command goes through [Post] without any effect on the extent stores and
    without any outside call; only its reply flag changes, to set for a
    [CreateDataPartition] packet and to cleared otherwise. *)
Theorem Post_master_command (p : Packet) (st : HookState) :
  (forall b q, IsMasterCommand (setNeedReply b q) = IsMasterCommand q) ->
  IsMasterCommand p = true ->
  Post p st = (setNeedReply (Opcode p =? OpCreateDataPartition) p, st).
Proof.
  intros Hflag Hm. unfold Post. rewrite Hm.
  assert (H3 : (if Opcode
                     (if Opcode (setNeedReply false p) =? OpStreamRead
                      then setNeedReply false (setNeedReply false p)
                      else setNeedReply false p) =? OpCreateDataPartition
                then setNeedReply true
                       (if Opcode (setNeedReply false p) =? OpStreamRead
                        then setNeedReply false (setNeedReply false p)
                        else setNeedReply false p)
                else if Opcode (setNeedReply false p) =? OpStreamRead
                     then setNeedReply false (setNeedReply false p)
                     else setNeedReply false p)
               = setNeedReply (Opcode p =? OpCreateDataPartition) p).
  { cbn [Opcode setNeedReply].
    destruct (Opcode p =? OpStreamRead); cbn [Opcode setNeedReply];
      by destruct (Opcode p =? OpCreateDataPartition). }
  rewrite H3. unfold cleanupPkg, addMetrics.
  rewrite Hflag, Hm. cbn [fst snd]. by rewrite Hflag, Hm.
Qed.

End Hook.

(** ** Disk selection and partition placement *)

Section Placement.
Import Datanode.
Local Open Scope Z_scope.
Context {pops : PartitionOps}.

(** The cursor is a position of a non-empty disk list. *)
Lemma cursor_lt (s : spaceManager) :
  0 <= chooseIndex s -> diskList s ≠ [] -> (cursor s < length (diskList s))%nat.
Proof.
  intros Hidx Hne. unfold cursor.
  destruct (Z.leb_spec (Z.of_nat (length (diskList s))) (chooseIndex s)).
  - destruct (diskList s); [done|]. cbn. lia.
  - lia.
Qed.

(** One call of the selector: the disk at the cursor, and the cursor moves to
    the next position, cyclically. *)
Lemma getMinPartitionCntDisk_step (w : World) :
  disks_wf (space w) ->
  diskList (space w) ≠ [] ->
  exists path,
    diskList (space w) !! cursor (space w) = Some path
    /\ getMinPartitionCntDisk w
       = Done (Some path,
               {| space := setChooseIndex (Z.of_nat (cursor (space w)) + 1) (space w);
                  trace := trace w ++ [EvSelectDisk path] |})
    /\ cursor (setChooseIndex (Z.of_nat (cursor (space w)) + 1) (space w))
       = ((cursor (space w) + 1) `mod` length (diskList (space w)))%nat.
Proof.
  intros Hwf Hne. pose proof (cursor_lt _ (proj2 Hwf) Hne) as Hlt.
  destruct (lookup_lt_is_Some_2 _ _ Hlt) as [path Hp].
  exists path. split; [exact Hp|]. split.
  - unfold getMinPartitionCntDisk, bind, get, put, emit, ret, panic.
    unfold cursor in Hp, Hlt |- *.
    set (idx := if Z.of_nat (length (diskList (space w))) <=? chooseIndex (space w)
                then 0 else chooseIndex (space w)) in *.
    assert (0 <= idx).
    { subst idx. destruct Hwf as [_ ?]. by case_match. }
    destruct (Z.ltb_spec idx 0); [lia|]. rewrite Hp. cbn [space trace].
    assert (Hin : path ∈ diskList (space w)) by (apply list_elem_of_lookup; eauto).
    apply (disks_wf_keys _ _ Hwf) in Hin as [d Hd]. rewrite Hd.
    by rewrite Z2Nat.id.
  - unfold cursor at 1. cbn [diskList chooseIndex setChooseIndex].
    set (c := cursor (space w)) in *. set (K := length (diskList (space w))) in *.
    destruct (Z.leb_spec (Z.of_nat K) (Z.of_nat c + 1)).
    + assert (c + 1 = K)%nat as -> by lia. by rewrite Nat.Div0.mod_same.
    + rewrite Nat.mod_small by lia. lia.
Qed.

(** X6.  Round robin.  On a manager whose [disks] and [diskList] name the
    same paths and that has a disk, the [j]-th of [n] consecutive calls of
    the selector returns the disk at position [(c + j) mod K] of [diskList],
    with [c] the cursor and [K] the number of entries; over [K] calls each
    entry of [diskList] is returned exactly once. *)
Theorem selectMany_round_robin (n : nat) (w : World) :
  disks_wf (space w) ->
  diskList (space w) ≠ [] ->
  exists w',
    selectMany n w
    = Done (map (fun j => diskList (space w)
                   !! ((cursor (space w) + j) `mod` length (diskList (space w)))%nat)
                (seq 0 n), w')
    /\ disks (space w') = disks (space w)
    /\ diskList (space w') = diskList (space w)
    /\ partitions (space w') = partitions (space w)
    /\ (n = length (diskList (space w)) ->
        map (fun j => diskList (space w)
               !! ((cursor (space w) + j) `mod` length (diskList (space w)))%nat)
            (seq 0 n)
        ≡ₚ Some <$> diskList (space w)).
Proof.
  intros Hwf Hne.
  assert (Hrun : forall n w, disks_wf (space w) -> diskList (space w) ≠ [] ->
            exists w',
              selectMany n w
              = Done (map (fun j => diskList (space w)
                      !! ((cursor (space w) + j) `mod` length (diskList (space w)))%nat)
                        (seq 0 n), w')
              /\ disks (space w') = disks (space w)
              /\ diskList (space w') = diskList (space w)
              /\ partitions (space w') = partitions (space w)).
  { clear. induction n as [|n IH]; intros w Hwf Hne.
    - exists w. by cbn.
    - destruct (getMinPartitionCntDisk_step w Hwf Hne) as (path & Hp & Hsel & Hcur).
      set (w1 := {| space := setChooseIndex (Z.of_nat (cursor (space w)) + 1) (space w);
                    trace := trace w ++ [EvSelectDisk path] |}) in *.
      destruct (IH w1) as (w' & Hrec & Hd & Hl & Hpt).
      { split; [apply Hwf|]. cbn. lia. }
      { exact Hne. }
      exists w'. cbn [selectMany]. unfold bind at 1. rewrite Hsel.
      unfold bind at 1. rewrite Hrec. unfold ret.
      split; [|by rewrite Hd, Hl, Hpt].
      f_equal. f_equal. cbn [seq map]. f_equal.
      + rewrite Nat.add_0_r, Nat.mod_small; [by rewrite Hp|].
        apply cursor_lt; [apply Hwf|exact Hne].
      + rewrite <- seq_shift, map_map. apply map_ext. intros j.
        cbn [space diskList setChooseIndex w1]. rewrite Hcur.
        f_equal. rewrite Nat.Div0.add_mod_idemp_l. f_equal. lia. }
  destruct (Hrun n w Hwf Hne) as (w' & Hsel & Hd & Hl & Hpt).
  exists w'. split; [exact Hsel|]. split; [exact Hd|]. split; [exact Hl|].
  split; [exact Hpt|]. intros ->.
  pose proof (cursor_lt _ (proj2 Hwf) Hne) as Hlt.
  set (l := diskList (space w)) in *. set (c := cursor (space w)) in *.
  assert (Hrot : map (fun j => l !! ((c + j) `mod` length l)%nat) (seq 0 (length l))
                 = Some <$> (drop c l ++ take c l)).
  { change (map (fun j => l !! ((c + j) `mod` length l)%nat) (seq 0 (length l)))
      with ((fun j => l !! ((c + j) `mod` length l)%nat) <$> seq 0 (length l)).
    apply list_eq. intros i. rewrite !list_lookup_fmap.
    destruct (Nat.lt_ge_cases i (length l)) as [Hi|Hi].
    - rewrite lookup_seq_lt by done. cbn.
      destruct (Nat.lt_ge_cases (c + i) (length l)) as [Hci|Hci].
      + rewrite Nat.mod_small by done.
        rewrite lookup_app_l by (rewrite length_drop; lia).
        rewrite lookup_drop.
        destruct (lookup_lt_is_Some_2 l (c + i) Hci) as [x ->]. done.
      + assert ((c + i) `mod` length l = c + i - length l)%nat as ->.
        { rewrite (Nat.Div0.mod_eq (c + i)).
          assert ((c + i) `div` length l = 1)%nat as ->; [|lia].
          symmetry. apply (Nat.div_unique _ _ _ (c + i - length l)); lia. }
        rewrite lookup_app_r by (rewrite length_drop; lia).
        rewrite length_drop, lookup_take_lt by lia.
        replace (i - (length l - c))%nat with (c + i - length l)%nat by lia.
        destruct (lookup_lt_is_Some_2 l (c + i - length l)) as [x ->]; [lia|done].
    - rewrite (lookup_ge_None_2 (seq 0 (length l))) by (rewrite length_seq; lia).
      rewrite (lookup_ge_None_2 (drop c l ++ take c l)); [done|].
      rewrite length_app, length_drop, length_take. lia. }
  rewrite Hrot. apply fmap_Permutation.
  rewrite Permutation_app_comm. by rewrite take_drop.
Qed.

(** The selection loop stops at the first position reached whose disk fits. *)
Lemma selectDisk_first_fit (size : Z) (j : nat) :
  forall (n : nat) (w : World) (path : string),
    disks_wf (space w) ->
    diskList (space w) ≠ [] ->
    (j < n)%nat ->
    (forall i p, (i < j)%nat -> diskList (space w) !! reached (space w) i = Some p ->
                 fitsOn (space w) size p = false) ->
    diskList (space w) !! reached (space w) j = Some path ->
    fitsOn (space w) size path = true ->
    exists paths,
      selectDisk n size w
      = Done (Some path,
              {| space := setChooseIndex (Z.of_nat (reached (space w) j) + 1) (space w);
                 trace := trace w ++ map EvSelectDisk (paths ++ [path]) |})
      /\ length paths = j.
Proof.
  induction j as [|j IH]; intros n w path Hwf Hne Hn Hsmall Hpath Hfit.
  - destruct n as [|n]; [lia|].
    destruct (getMinPartitionCntDisk_step w Hwf Hne) as (path0 & Hp & Hsel & _).
    unfold reached in Hpath. rewrite Nat.add_0_r, Nat.mod_small in Hpath
      by (apply cursor_lt; [apply Hwf|exact Hne]).
    assert (path0 = path) as -> by congruence.
    exists []. split; [|reflexivity].
    cbn [selectDisk]. unfold bind at 1. rewrite Hsel.
    unfold bind, get, ret. cbn [space disks setChooseIndex trace].
    unfold fitsOn in Hfit. destruct (disks (space w) !! path) as [d|]; [|done].
    apply negb_true_iff in Hfit. rewrite Hfit.
    unfold reached. rewrite Nat.add_0_r, Nat.mod_small
      by (apply cursor_lt; [apply Hwf|exact Hne]). reflexivity.
  - destruct n as [|n]; [lia|].
    destruct (getMinPartitionCntDisk_step w Hwf Hne) as (path0 & Hp & Hsel & Hcur).
    set (w1 := {| space := setChooseIndex (Z.of_nat (cursor (space w)) + 1) (space w);
                  trace := trace w ++ [EvSelectDisk path0] |}) in *.
    assert (Hreach : forall i, reached (space w1) i = reached (space w) (S i)).
    { intros i. unfold reached. cbn [space diskList setChooseIndex w1]. rewrite Hcur.
      rewrite Nat.Div0.add_mod_idemp_l. f_equal. lia. }
    assert (H0 : fitsOn (space w) size path0 = false).
    { apply (Hsmall 0%nat); [lia|]. unfold reached.
      rewrite Nat.add_0_r, Nat.mod_small; [exact Hp|].
      apply cursor_lt; [apply Hwf|exact Hne]. }
    destruct (IH n w1 path) as (paths & Hrec & Hlen).
    + split; [apply Hwf|]. cbn. lia.
    + exact Hne.
    + lia.
    + intros i p Hi Hip. rewrite Hreach in Hip.
      apply (Hsmall (S i) p); [lia|exact Hip].
    + rewrite Hreach. exact Hpath.
    + exact Hfit.
    + exists (path0 :: paths). split; [|cbn; by rewrite Hlen].
      cbn [selectDisk]. unfold bind at 1. rewrite Hsel.
      unfold bind at 1, get at 1. fold w1.
      change (disks (space w1)) with (disks (space w)).
      unfold fitsOn in H0. destruct (disks (space w) !! path0) as [d0|] eqn:Hd0.
      * apply negb_false_iff in H0. rewrite H0, Hrec.
        rewrite Hreach. cbn [space trace w1 setChooseIndex app map].
        rewrite <- app_assoc. reflexivity.
      * assert (Hin : path0 ∈ diskList (space w)) by (apply list_elem_of_lookup; eauto).
        apply (disks_wf_keys _ _ Hwf) in Hin as [d Hd]. congruence.
Qed.

(** A bounded search for the least number with a decidable property. *)
Lemma least_below (P : nat -> bool) (n : nat) :
  P n = true -> exists j, (j <= n)%nat /\ P j = true /\ forall i, (i < j)%nat -> P i = false.
Proof.
  assert (Hsearch : forall m,
             (forall i, (i < m)%nat -> P i = false)
             \/ exists j, (j < m)%nat /\ P j = true
                          /\ forall i, (i < j)%nat -> P i = false).
  { induction m as [|m [Hnone | (j & Hj & HPj & Hmin)]].
    - left. intros i Hi. lia.
    - destruct (P m) eqn:HPm.
      + right. exists m. split; [lia|]. by split.
      + left. intros i Hi. destruct (decide (i = m)) as [->|]; [done|].
        apply Hnone. lia.
    - right. exists j. split; [lia|]. by split. }
  intros Hn. destruct (Hsearch n) as [Hnone | (j & Hj & HPj & Hmin)].
  - exists n. split; [lia|]. by split.
  - exists j. split; [lia|]. by split.
Qed.

(** The selector touches the cursor and the trace only. *)
Lemma getMinPartitionCntDisk_state (w : World) :
  getMinPartitionCntDisk w = Panic
  \/ exists d i path,
       getMinPartitionCntDisk w
       = Done (d, {| space := setChooseIndex i (space w);
                     trace := trace w ++ [EvSelectDisk path] |}).
Proof.
  unfold getMinPartitionCntDisk, bind, get, put, emit, ret, panic.
  destruct (_ <? 0); [by left|].
  destruct (diskList (space w) !! _) as [path|]; [|by left].
  right. cbn [space trace]. by eexists _, _, path.
Qed.

(** The selection loop touches the cursor and the trace only. *)
Lemma selectDisk_state (n : nat) (size : Z) :
  forall w,
    selectDisk n size w = Panic
    \/ exists r w',
         selectDisk n size w = Done (r, w')
         /\ partitions (space w') = partitions (space w)
         /\ disks (space w') = disks (space w)
         /\ diskList (space w') = diskList (space w).
Proof.
  induction n as [|n IH]; intros w.
  - right. by exists None, w.
  - assert (Hstep : selectDisk (S n) size w
                    = match getMinPartitionCntDisk w with
                      | Done (Some p, w1) =>
                        match disks (space w1) !! p with
                        | Some disk =>
                          if Available disk <? uint64 size
                          then selectDisk n size w1 else Done (Some p, w1)
                        | None => Panic
                        end
                      | _ => Panic
                      end).
    { cbn [selectDisk]. unfold bind, get, ret, panic.
      destruct (getMinPartitionCntDisk w) as [[[p|] w1]|]; try reflexivity.
      cbn. destruct (disks (space w1) !! p) as [disk|]; [|reflexivity].
      by destruct (Available disk <? uint64 size). }
    rewrite Hstep. clear Hstep.
    destruct (getMinPartitionCntDisk_state w) as [-> | (d & i & path & ->)];
      [by left|].
    destruct d as [p|]; [|by left].
    cbn [space disks setChooseIndex].
    destruct (disks (space w) !! p) as [disk|]; [|by left].
    destruct (Available disk <? uint64 size).
    + destruct (IH {| space := setChooseIndex i (space w);
                      trace := trace w ++ [EvSelectDisk path] |})
        as [Hpanic | (r & w' & Hrun & Hp & Hd & Hl)].
      * left. exact Hpanic.
      * right. exists r, w'. split; [exact Hrun|]. by cbn [space] in Hp, Hd, Hl.
    + right. eexists _, _. split; [reflexivity|]. by cbn.
Qed.

(** With [diskList] free of repetitions the loop bound of [CreatePartition]
    is the length of [diskList]. *)
Lemma size_disks (s : spaceManager) :
  disks_wf s -> NoDup (diskList s) -> size (disks s) = length (diskList s).
Proof.
  intros [Hdom _] Hnd. rewrite <- size_dom, Hdom. by apply size_list_to_set.
Qed.

(** X7.  First fit in cursor order.  On a manager whose [diskList] names the
    disks of [disks] without repetition, for a partition id that is not
    registered: when some registered disk fits the requested size,
    [CreatePartition] hands to the factory the first fitting disk in cyclic
    order from the cursor, after one selector call per disk passed over.
    When the factory succeeds the partition is registered under its id and
    returned, and the disk is stored as the factory left it; when the
    factory fails its error is returned and the directory is unchanged. *)
Theorem CreatePartition_first_fit (req : CreateDataPartitionRequest) (w : World) :
  disks_wf (space w) ->
  NoDup (diskList (space w)) ->
  partitions (space w) !! uint32 (PartitionId req) = None ->
  (exists p, fitsOn (space w) (PartitionSize req) p = true) ->
  exists j path d paths,
    (j < length (diskList (space w)))%nat
    /\ diskList (space w) !! reached (space w) j = Some path
    /\ disks (space w) !! path = Some d
    /\ fitsOn (space w) (PartitionSize req) path = true
    /\ (forall i p, (i < j)%nat ->
          diskList (space w) !! reached (space w) i = Some p ->
          fitsOn (space w) (PartitionSize req) p = false)
    /\ length paths = j
    /\ CreatePartition req w
       = let s1 := setDisks (<[path := (CreateDataPartition (cfgOf req (space w)) d).2]>
                               (disks (space w)))
                     (setChooseIndex (Z.of_nat (reached (space w) j) + 1) (space w)) in
         let tr := trace w ++ map EvSelectDisk (paths ++ [path])
                     ++ [EvCreateDataPartition (cfgOf req (space w)) path] in
         match (CreateDataPartition (cfgOf req (space w)) d).1 with
         | (Some dp, None) =>
           Done ((Some dp, None), {| space := putPartition dp s1; trace := tr |})
         | (r, Some err) => Done ((r, Some err), {| space := s1; trace := tr |})
         | (None, None) => Panic
         end.
Proof.
  intros Hwf Hnd Hdir [p0 Hfit0].
  set (s := space w) in *. set (l := diskList s) in *.
  set (size := PartitionSize req) in *.
  assert (Hp0 : p0 ∈ l).
  { apply (disks_wf_keys s p0 Hwf). unfold fitsOn in Hfit0.
    destruct (disks s !! p0); [eauto|done]. }
  apply list_elem_of_lookup in Hp0 as [i0 Hi0].
  assert (Hne : l ≠ []) by (intros Hnil; by rewrite Hnil in Hi0).
  pose proof (lookup_lt_Some _ _ _ Hi0) as Hi0lt.
  pose proof (cursor_lt s (proj2 Hwf) Hne) as Hc. fold l in Hc.
  set (P := fun j => match l !! reached s j with
                     | Some p => fitsOn s size p
                     | None => false
                     end).
  set (j0 := ((i0 + length l - cursor s) `mod` length l)%nat).
  assert (Hj0 : (j0 < length l)%nat) by (apply Nat.mod_upper_bound; lia).
  assert (HP0 : P j0 = true).
  { unfold P, reached, j0. fold l.
    rewrite Nat.Div0.add_mod_idemp_r.
    replace (cursor s + (i0 + length l - cursor s))%nat with (i0 + 1 * length l)%nat by lia.
    rewrite Nat.Div0.mod_add, Nat.mod_small by done. by rewrite Hi0. }
  destruct (least_below P j0 HP0) as (j & Hj & HPj & Hmin).
  assert (Hrj : (reached s j < length l)%nat)
    by (unfold reached; fold l; apply Nat.mod_upper_bound; lia).
  destruct (lookup_lt_is_Some_2 l _ Hrj) as [path Hpath].
  assert (Hfit : fitsOn s size path = true) by (unfold P in HPj; by rewrite Hpath in HPj).
  assert (Hd : exists d, disks s !! path = Some d).
  { unfold fitsOn in Hfit. destruct (disks s !! path); [eauto|done]. }
  destruct Hd as [d Hd].
  assert (Hsmall : forall i p, (i < j)%nat -> l !! reached s i = Some p ->
                               fitsOn s size p = false).
  { intros i p Hi Hip. specialize (Hmin i Hi). unfold P in Hmin. by rewrite Hip in Hmin. }
  destruct (selectDisk_first_fit size j (length l) w path)
    as (paths & Hsel & Hlen); try done; [lia|].
  exists j, path, d, paths.
  split; [lia|]. split; [exact Hpath|]. split; [exact Hd|]. split; [exact Hfit|].
  split; [exact Hsmall|]. split; [exact Hlen|].
  unfold CreatePartition, bind at 1, get at 1. cbn [cfgPartitionId cfgPartitionSize].
  fold s. rewrite Hdir. rewrite (size_disks s Hwf Hnd). fold l.
  unfold bind at 1. fold size. rewrite Hsel.
  unfold bind at 1, get at 1. cbn [space disks setChooseIndex]. fold s. rewrite Hd.
  unfold bind, emit, put, get, ret, panic, cfgOf. subst size. cbn [space trace].
  destruct (CreateDataPartition _ d) as [[[dp|] [err|]] d'];
    cbn [fst snd]; rewrite <- ?app_assoc; reflexivity.
Qed.

(** X8.  Create, look up, delete.  When the factory builds partitions that
    carry the id of their configuration, a [CreatePartition] that returns a
    handle for an id that was not registered leaves exactly one new entry in
    the directory, under that id; [GetPartition] finds it; and a
    [DeletePartition] of the id right after takes the directory back to
    what it was before the creation, after stopping the partition,
    detaching it from its disk and removing its path, in this order. *)
Theorem CreatePartition_DeletePartition (req : CreateDataPartitionRequest)
  (w w1 : World) (dp : DataPartition) :
  (forall cfg d dp d',
      CreateDataPartition cfg d = ((Some dp, None), d') -> ID dp = cfgPartitionId cfg) ->
  partitions (space w) !! uint32 (PartitionId req) = None ->
  CreatePartition req w = Done ((Some dp, None), w1) ->
  partitions (space w1) = <[uint32 (PartitionId req) := dp]> (partitions (space w))
  /\ GetPartition (uint32 (PartitionId req)) (space w1) = Some dp
  /\ exists w2,
       DeletePartition (uint32 (PartitionId req)) w1 = Done (tt, w2)
       /\ partitions (space w2) = partitions (space w)
       /\ trace w2 = trace w1 ++ [EvStop dp; EvDetachDataPartition dp;
                                  EvRemoveAll (PathOf dp)].
Proof.
  intros Hid Hdir Hrun.
  assert (Hparts : partitions (space w1)
                   = <[uint32 (PartitionId req) := dp]> (partitions (space w))).
  { revert Hrun. unfold CreatePartition, bind, get, put, emit, ret, panic.
    cbn [space trace cfgPartitionId cfgPartitionSize]. rewrite Hdir.
    destruct (selectDisk_state (size (disks (space w))) (PartitionSize req) w)
      as [-> | (r & w' & -> & Hp & _)]; [done|].
    destruct r as [path|]; [|done].
    destruct (disks (space w') !! path) as [d|]; [|done].
    destruct (CreateDataPartition _ d) as [[[dp1|] [err|]] d'] eqn:Hmk;
      cbn [space trace]; try done.
    intros [= -> <-]. cbn [space putPartition setPartitions partitions setDisks].
    apply Hid in Hmk. rewrite Hmk, Hp. reflexivity. }
  split; [exact Hparts|]. split.
  - unfold GetPartition. rewrite Hparts. apply lookup_insert_eq.
  - unfold DeletePartition, GetPartition, bind, get, put, emit, ret.
    cbn [space trace]. rewrite Hparts, lookup_insert_eq. cbn [space trace].
    eexists. split; [reflexivity|]. cbn [space trace partitions setDisks setPartitions].
    split; [|by rewrite <- !app_assoc].
    rewrite delete_insert_eq. by apply delete_id.
Qed.

End Placement.

(** ** Loading disks and the directory invariant *)

Section LoadDisk.
Import Datanode.
Local Open Scope Z_scope.
Context {pops : PartitionOps} {dops : DiskOps}.

(** The visitor of [LoadDisk] over the restored partitions: disks and cursor
    stay, registered partitions stay, every restored partition finds its id
    registered afterwards, and every entry is an old one or a restored
    partition under its own id. *)
Lemma visitor_fold (l : list DataPartition) :
  forall s,
    let s' := foldl (fun acc dp => visitor dp acc) s l in
    disks s' = disks s /\ diskList s' = diskList s
    /\ chooseIndex s' = chooseIndex s
    /\ (forall id dp, partitions s !! id = Some dp -> partitions s' !! id = Some dp)
    /\ (forall dp, dp ∈ l -> is_Some (partitions s' !! ID dp))
    /\ (forall id dp, partitions s' !! id = Some dp ->
          partitions s !! id = Some dp \/ (dp ∈ l /\ ID dp = id)).
Proof.
  induction l as [|dp0 l IH]; intros s; cbn [foldl].
  - split; [done|]. split; [done|]. split; [done|]. split; [done|].
    split; [by intros dp ?%elem_of_nil|]. intros id dp ?. by left.
  - destruct (IH (visitor dp0 s)) as (Hd & Hl & Hc & Hkeep & Hreg & Hfrom).
    assert (Hv : disks (visitor dp0 s) = disks s /\ diskList (visitor dp0 s) = diskList s
                 /\ chooseIndex (visitor dp0 s) = chooseIndex s
                 /\ (forall id dp, partitions s !! id = Some dp ->
                                   partitions (visitor dp0 s) !! id = Some dp)
                 /\ is_Some (partitions (visitor dp0 s) !! ID dp0)
                 /\ (forall id dp, partitions (visitor dp0 s) !! id = Some dp ->
                       partitions s !! id = Some dp \/ (dp = dp0 /\ ID dp = id))).
    { unfold visitor. destruct (partitions s !! ID dp0) as [old|] eqn:Hold.
      - split; [done|]. split; [done|]. split; [done|]. split; [done|].
        split; [by rewrite Hold|]. intros id dp ?. by left.
      - cbn. split; [done|]. split; [done|]. split; [done|]. split; [|split].
        + intros id dp Hid. rewrite lookup_insert_ne; [done|congruence].
        + by rewrite lookup_insert_eq.
        + intros id dp. rewrite lookup_insert_Some.
          intros [[<- <-] | [_ ?]]; [by right | by left]. }
    destruct Hv as (Hd0 & Hl0 & Hc0 & Hkeep0 & Hreg0 & Hfrom0).
    rewrite Hd, Hl, Hc, Hd0, Hl0, Hc0.
    split; [done|]. split; [done|]. split; [done|]. split; [|split].
    + intros id dp Hid. by apply Hkeep, Hkeep0.
    + intros dp [-> | Hin]%elem_of_cons; [|by apply Hreg].
      destruct Hreg0 as [x Hx]. exists x. by apply Hkeep.
    + intros id dp Hid. destruct (Hfrom id dp Hid) as [Hold | [Hin Heq]].
      * destruct (Hfrom0 id dp Hold) as [? | [-> ?]]; [by left|].
        right. split; [left|done].
      * right. split; [by right|done].
Qed.

(** X9.  When [NewDisk] builds a disk that carries the path it was asked
    for, [LoadDisk] keeps the invariant of the disk inventory: [diskList]
    names the paths of [disks], without repetition, so both have the same
    number of entries; the path loaded is registered afterwards; and loading
    a path a second time, with whatever parameters, changes nothing. *)
Theorem LoadDisk_inventory (path : string) (restSize maxErrs : Z)
  (s : spaceManager) :
  (forall p r m, Path (NewDisk p r m) = p) ->
  disks_wf s ->
  NoDup (diskList s) ->
  disks_wf (LoadDisk path restSize maxErrs s)
  /\ NoDup (diskList (LoadDisk path restSize maxErrs s))
  /\ length (diskList (LoadDisk path restSize maxErrs s))
     = size (disks (LoadDisk path restSize maxErrs s))
  /\ is_Some (disks (LoadDisk path restSize maxErrs s) !! path)
  /\ forall restSize' maxErrs',
       LoadDisk path restSize' maxErrs' (LoadDisk path restSize maxErrs s)
       = LoadDisk path restSize maxErrs s.
Proof.
  intros Hlaw Hwf Hnd.
  assert (Hreg : is_Some (disks (LoadDisk path restSize maxErrs s) !! path)).
  { unfold LoadDisk, GetDisk. destruct (disks s !! path) as [d|] eqn:Hd; [by rewrite Hd|].
    unfold putDisk. cbn [disks setDiskList setDisks].
    rewrite Hlaw, lookup_insert_eq. eauto. }
  assert (Hinv : disks_wf (LoadDisk path restSize maxErrs s)
                 /\ NoDup (diskList (LoadDisk path restSize maxErrs s))).
  { unfold LoadDisk, GetDisk. destruct (disks s !! path) as [d|] eqn:Hd; [done|].
    set (disk := NewDisk path restSize maxErrs).
    destruct (visitor_fold (RestorePartition disk) s) as (Hd1 & Hl1 & Hc1 & _).
    set (s1 := foldl (fun acc dp => visitor dp acc) s (RestorePartition disk)) in *.
    assert (Hwf1 : disks_wf s1).
    { destruct Hwf as [Hdom Hidx]. split; [by rewrite Hd1, Hl1 | by rewrite Hc1]. }
    split; [by apply putDisk_wf|].
    unfold putDisk. cbn [diskList setDiskList setDisks]. rewrite Hl1.
    apply NoDup_app. split; [done|]. split; [|apply NoDup_singleton].
    intros x Hx ->%list_elem_of_singleton. subst disk. rewrite Hlaw in Hx.
    apply (disks_wf_keys s path Hwf) in Hx as [? ?]. congruence. }
  destruct Hinv as [Hwf' Hnd'].
  split; [exact Hwf'|]. split; [exact Hnd'|].
  split; [symmetry; by apply size_disks|]. split; [exact Hreg|].
  intros restSize' maxErrs'. destruct Hreg as [d Hd].
  unfold LoadDisk at 1, GetDisk. by rewrite Hd.
Qed.

(** Where the entries of the directory come from after [LoadDisk]. *)
Lemma LoadDisk_entries (path : string) (restSize maxErrs : Z) (s : spaceManager) :
  forall id dp,
    partitions (LoadDisk path restSize maxErrs s) !! id = Some dp ->
    partitions s !! id = Some dp
    \/ (dp ∈ RestorePartition (NewDisk path restSize maxErrs) /\ ID dp = id).
Proof.
  unfold LoadDisk, GetDisk.
  destruct (disks s !! path) as [d|] eqn:Hd; [intros id dp ?; by left|].
  destruct (visitor_fold (RestorePartition (NewDisk path restSize maxErrs)) s)
    as (_ & _ & _ & _ & _ & Hfrom).
  exact Hfrom.
Qed.

(** X10.  [LoadDisk] never replaces or removes a registered partition; every
    partition restored from the new disk finds its id registered afterwards
    (by itself, or by the partition that held the id before); and every
    entry afterwards is an entry from before or a restored partition under
    its own id.  For a path that is registered the directory is unchanged. *)
Theorem LoadDisk_partitions (path : string) (restSize maxErrs : Z)
  (s : spaceManager) :
  (forall id dp, partitions s !! id = Some dp ->
     partitions (LoadDisk path restSize maxErrs s) !! id = Some dp)
  /\ (disks s !! path = None ->
      forall dp, dp ∈ RestorePartition (NewDisk path restSize maxErrs) ->
        is_Some (partitions (LoadDisk path restSize maxErrs s) !! ID dp))
  /\ (forall id dp,
        partitions (LoadDisk path restSize maxErrs s) !! id = Some dp ->
        partitions s !! id = Some dp
        \/ (dp ∈ RestorePartition (NewDisk path restSize maxErrs) /\ ID dp = id))
  /\ (is_Some (disks s !! path) -> LoadDisk path restSize maxErrs s = s).
Proof.
  unfold LoadDisk, GetDisk.
  destruct (disks s !! path) as [d|] eqn:Hd.
  - split; [done|]. split; [done|]. split; [|done]. intros id dp ?. by left.
  - destruct (visitor_fold (RestorePartition (NewDisk path restSize maxErrs)) s)
      as (_ & _ & _ & Hkeep & Hreg & Hfrom).
    unfold putDisk. cbn [partitions setDiskList setDisks].
    split; [exact Hkeep|]. split; [intros _; exact Hreg|].
    split; [exact Hfrom|]. by intros [? ?].
Qed.

(** X11.  The directory stays keyed by partition id: if every entry sits
    under the id of its partition, this still holds after [LoadDisk], after
    [DeletePartition], and after every [CreatePartition] that returns,
    whatever the factory builds. *)
Theorem dir_wf_invariant (s : spaceManager) :
  dir_wf s ->
  (forall path restSize maxErrs, dir_wf (LoadDisk path restSize maxErrs s))
  /\ (forall tr dpId w', DeletePartition dpId {| space := s; trace := tr |} = Done (tt, w') ->
        dir_wf (space w'))
  /\ (forall tr req r w', CreatePartition req {| space := s; trace := tr |} = Done (r, w') ->
        dir_wf (space w')).
Proof.
  intros Hwf. split; [|split].
  - intros path restSize maxErrs id dp Hid.
    destruct (LoadDisk_entries path restSize maxErrs s id dp Hid) as [Hold | [_ ?]];
      [|done]. by apply (Hwf id dp).
  - intros tr dpId w'. unfold DeletePartition, GetPartition, bind, get, put, emit, ret.
    cbn [space trace]. destruct (partitions s !! dpId) as [dp|].
    + intros [= <-]. cbn [space partitions setDisks setPartitions].
      by apply map_Forall_delete.
    + by intros [= <-].
  - intros tr req r w'. unfold CreatePartition, bind, get, put, emit, ret, panic.
    cbn [space trace cfgPartitionId cfgPartitionSize].
    destruct (partitions s !! _) as [dp0|]; [by intros [= _ <-]|].
    destruct (selectDisk_state (size (disks s)) (PartitionSize req)
                {| space := s; trace := tr |})
      as [-> | (r0 & w0 & -> & Hp & _)]; [done|]. cbn [space] in Hp.
    destruct r0 as [p|]; [|intros [= _ <-]; unfold dir_wf; by rewrite Hp].
    destruct (disks (space w0) !! p) as [d|]; [|done].
    destruct (CreateDataPartition _ d) as [[[dp1|] [err|]] d'];
      cbn [space trace]; try done.
    + intros [= _ <-]. unfold dir_wf. cbn. by rewrite Hp.
    + intros [= _ <-]. unfold dir_wf. cbn. rewrite Hp.
      by apply map_Forall_insert_2.
    + intros [= _ <-]. unfold dir_wf. cbn. by rewrite Hp.
Qed.

End LoadDisk.

(** ** The metrics roll-up *)

Section Metrics.
Import Datanode.
Local Open Scope Z_scope.
Context {dstats : DiskStats}.

Lemma uint64_add_l (a b : Z) : uint64 (uint64 a + b) = uint64 (a + b).
Proof. unfold uint64. by rewrite Z.add_mod_idemp_l. Qed.

(** Two disks can be accounted for in either order. *)
Lemma addDisk_comm (m : Metrics) (d1 d2 : Disk) :
  addDisk (addDisk m d1) d2 = addDisk (addDisk m d2) d1.
Proof.
  unfold addDisk. cbn.
  f_equal; try (rewrite !uint64_add_l; f_equal; lia).
  repeat case_match; rewrite ?Z.ltb_lt, ?Z.ltb_ge in *; lia.
Qed.

Lemma updateMetrics_snoc (walk : list (string * Disk)) (kv : string * Disk) :
  updateMetrics (walk ++ [kv]) = addDisk (updateMetrics walk) kv.2.
Proof. unfold updateMetrics. by rewrite foldl_app. Qed.

(** X12.  The values of [updateMetrics] do not depend on the order in which
    the loop visits the disks; each of the three capacity sums is the sum
    over the disks modulo [2^64]; the maximum is at least the unallocated
    weight of every disk, and is that of some disk unless it is 0. *)
Theorem updateMetrics_order (walk1 walk2 : list (string * Disk)) :
  walk1 ≡ₚ walk2 ->
  updateMetrics walk1 = updateMetrics walk2
  /\ mTotal (updateMetrics walk1)
     = uint64 (foldl (fun acc kv => acc + Total kv.2) 0 walk1)
  /\ mUsed (updateMetrics walk1)
     = uint64 (foldl (fun acc kv => acc + Used kv.2) 0 walk1)
  /\ mAvailable (updateMetrics walk1)
     = uint64 (foldl (fun acc kv => acc + Available kv.2) 0 walk1)
  /\ (forall kv, kv ∈ walk1 ->
        Unallocated kv.2 <= mMaxWeightsForCreatePartition (updateMetrics walk1))
  /\ (mMaxWeightsForCreatePartition (updateMetrics walk1) = 0
      \/ exists kv, kv ∈ walk1
           /\ mMaxWeightsForCreatePartition (updateMetrics walk1) = Unallocated kv.2).
Proof.
  intros Hperm. split.
  { unfold updateMetrics. generalize zeroMetrics.
    induction Hperm as [|kv l1 l2 _ IH|kv1 kv2 l|l1 l2 l3 _ IH1 _ IH2]; intros m.
    - reflexivity.
    - cbn. apply IH.
    - cbn. by rewrite addDisk_comm.
    - by rewrite IH1. }
  clear. induction walk1 as [|kv walk IH] using rev_ind.
  { cbn. repeat split; try done. by intros kv ?%elem_of_nil. by left. }
  destruct IH as (Ht & Hu & Ha & Hmax & Hatt).
  rewrite updateMetrics_snoc, !foldl_app. cbn [foldl addDisk mTotal mUsed mAvailable
    mMaxWeightsForCreatePartition].
  rewrite Ht, Hu, Ha, !uint64_add_l.
  split; [done|]. split; [done|]. split; [done|]. split.
  - intros kv' [Hin | ->%list_elem_of_singleton]%elem_of_app.
    + specialize (Hmax kv' Hin). case_match; rewrite ?Z.ltb_lt, ?Z.ltb_ge in *; lia.
    + case_match; rewrite ?Z.ltb_lt, ?Z.ltb_ge in *; lia.
  - destruct (Z.ltb_spec (mMaxWeightsForCreatePartition (updateMetrics walk))
                         (Unallocated kv.2)).
    + right. exists kv. split; [|done]. apply elem_of_app. right. by left.
    + destruct Hatt as [H0 | (kv' & Hin & Heq)]; [by left|].
      right. exists kv'. split; [|done]. apply elem_of_app. by left.
Qed.

End Metrics.

(** ** The dispatch loop, continued *)

Section Dispatch.
Import Master.
Local Open Scope Z_scope.
Context {ops : TaskOps} {env : Env}.

(** Tasks altered one after the other, in the order of a list. *)
Lemma foldl_alter_notin (f : AdminTask -> AdminTask) (l : list positive) :
  forall (h : gmap positive AdminTask) p,
    p ∉ l -> foldl (fun h q => alter f q h) h l !! p = h !! p.
Proof.
  induction l as [|q l IH]; intros h p Hp; [done|]. cbn.
  rewrite IH by (intros ?; apply Hp; by right).
  apply lookup_alter_ne. intros ->. apply Hp. by left.
Qed.

Lemma foldl_alter_once (f : AdminTask -> AdminTask) (l : list positive) :
  forall (h : gmap positive AdminTask) p,
    NoDup l -> p ∈ l -> foldl (fun h q => alter f q h) h l !! p = f <$> h !! p.
Proof.
  induction l as [|q l IH]; intros h p Hnd Hp; [by apply elem_of_nil in Hp|].
  apply NoDup_cons in Hnd as [Hq Hnd]. cbn.
  apply elem_of_cons in Hp as [-> | Hp].
  - rewrite foldl_alter_notin by done. apply lookup_alter_eq.
  - rewrite IH by done. rewrite lookup_alter_ne; [done|]. intros ->. done.
Qed.

Lemma foldl_alter_proj {B} (g : AdminTask -> B) (f : AdminTask -> AdminTask)
  (l : list positive) :
  (forall t, g (f t) = g t) ->
  forall (h : gmap positive AdminTask) p,
    g <$> foldl (fun h q => alter f q h) h l !! p = g <$> h !! p.
Proof.
  intros Hg. induction l as [|q l IH]; intros h p; [done|]. cbn. rewrite IH.
  destruct (decide (p = q)) as [->|Hne].
  - rewrite lookup_alter_eq. destruct (h !! q); cbn; [by rewrite Hg|done].
  - by rewrite lookup_alter_ne.
Qed.

(** While connections are obtained, every task of the batch is marked as
    sent, whether or not its packet could be built, written and answered. *)
Lemma sendTasksFrom_connected now tasks :
  forall i s,
    (forall j, (i <= j < i + length tasks)%nat -> GetConnect j = true) ->
    heap (sendTasksFrom now i tasks s)
    = foldl (fun h p => alter (updateTask now true) p h) (heap s) tasks
    /\ length (filter (fun e => isGetConnect e = true)
                      (drop (length (trace s)) (trace (sendTasksFrom now i tasks s))))
       = length tasks.
Proof.
  induction tasks as [|task rest IH]; intros i s Hconn.
  - cbn. by rewrite drop_all.
  - cbn [sendTasksFrom foldl]. rewrite (Hconn i) by (cbn; lia).
    assert (Hrest : forall j, (S i <= j < S i + length rest)%nat -> GetConnect j = true)
      by (intros j Hj; apply Hconn; cbn; lia).
    assert (Hstep : exists s1 ev,
               match sendAdminTask now i task (emit (EvGetConnect true) s) with
               | (Some _, s2) =>
                 sendTasksFrom now (S i) rest
                   (updateTaskInfo now task true
                      (emit (EvPutConnect true) (emit (EvLogError task) s2)))
               | (None, s2) => sendTasksFrom now (S i) rest (emit (EvPutConnect false) s2)
               end = sendTasksFrom now (S i) rest s1
               /\ heap s1 = alter (updateTask now true) task (heap s)
               /\ trace s1 = trace s ++ EvGetConnect true :: ev
               /\ Forall (fun e => isGetConnect e = false) ev).
    { unfold sendAdminTask. cbn [emit heap].
      destruct (heap s !! task) as [t|]; [destruct (Marshal t); cbn [negb]|];
        [destruct (WriteToConn i); cbn [negb];
           [destruct (ReadFromConn i) as [reply|]|]|..].
      all: eexists _, _; split; [reflexivity|].
      all: cbn [updateTaskInfo setHeap emit trace heap].
      all: rewrite <- ?app_assoc; cbn [app].
      all: split; [reflexivity|]; split; [reflexivity|].
      all: repeat (apply Forall_cons; split; [reflexivity|]); constructor. }
    destruct Hstep as (s1 & ev & -> & Hh & Htr & Hev).
    destruct (IH (S i) s1 Hrest) as [IHh IHg]. rewrite IHh, Hh.
    split; [reflexivity|].
    destruct (sendTasksFrom_events now rest (S i) s1) as (ev' & Htr' & _).
    rewrite Htr', drop_app_length in IHg.
    rewrite Htr', Htr, <- app_assoc, drop_app_length.
    cbn [app]. rewrite filter_cons_True by done. cbn [length]. f_equal.
    rewrite filter_app. rewrite length_app, IHg.
    assert (filter (fun e => isGetConnect e = true) ev = []) as ->; [|done].
    clear -Hev. induction Hev as [|e l He _ IHl]; [done|].
    rewrite filter_cons_False; [done|]. by rewrite He.
Qed.

Lemma sendTasksFrom_app now pre rest :
  forall i s,
    (forall j, (i <= j < i + length pre)%nat -> GetConnect j = true) ->
    sendTasksFrom now i (pre ++ rest) s
    = sendTasksFrom now (i + length pre) rest (sendTasksFrom now i pre s).
Proof.
  induction pre as [|task pre IH]; intros i s Hconn.
  - cbn. by rewrite Nat.add_0_r.
  - cbn [app sendTasksFrom length]. rewrite (Hconn i) by (cbn; lia).
    replace (i + S (length pre))%nat with (S i + length pre)%nat by lia.
    destruct (sendAdminTask now i task (emit (EvGetConnect true) s)) as [[err|] s2];
      apply IH; intros j Hj; apply Hconn; cbn; lia.
Qed.

(** X13.  When every connection of a call of [sendTasks] is obtained, every
    task of the batch is marked once as sent ([SendCount + 1] modulo [2^8],
    [SendTime = now], [Status = TaskRunning]), whether or not its packet
    could be built, written and answered; there is one connection attempt per
    task.  In particular a task that occurs once in the batch ends the call
    with exactly these values, also when its write failed. *)
Theorem sendTasks_all_connected (now : Z) (tasks : list positive) (s : Sender) :
  (forall j, (j < length tasks)%nat -> GetConnect j = true) ->
  heap (sendTasks now tasks s)
  = foldl (fun h p => alter (updateTask now true) p h) (heap s) tasks
  /\ length (filter (fun e => isGetConnect e = true)
                    (drop (length (trace s)) (trace (sendTasks now tasks s))))
     = length tasks
  /\ (NoDup tasks ->
      forall p t, p ∈ tasks -> heap s !! p = Some t ->
        heap (sendTasks now tasks s) !! p
        = Some {| ID := ID t; OpCode := OpCode t; SendTime := now;
                  SendCount := uint8 (SendCount t + 1); Status := TaskRunning;
                  CreateTime := CreateTime t |})
  /\ (forall p, p ∉ tasks -> heap (sendTasks now tasks s) !! p = heap s !! p).
Proof.
  intros Hconn. unfold sendTasks.
  destruct (sendTasksFrom_connected now tasks 0 s) as [Hh Hg].
  { intros j Hj. apply Hconn. lia. }
  split; [exact Hh|]. split; [exact Hg|]. rewrite Hh. split.
  - intros Hnd p t Hp Ht. rewrite foldl_alter_once by done. by rewrite Ht.
  - intros p Hp. by apply foldl_alter_notin.
Qed.

(** X14.  When the connections of the first [length pre] tasks are obtained
    and the next one fails, [sendTasks] marks the tasks of [pre] as sent,
    counts one more attempt for the task it failed on without touching its
    send time or status, and leaves every later task alone: there are
    [length pre + 1] connection attempts, and packets are written for tasks
    of [pre] only.  The counts are those of [updateTask]: one more, modulo
    [2^8]. *)
Theorem sendTasks_until_failure (now : Z) (pre : list positive) (task : positive)
  (post : list positive) (s : Sender) :
  (forall j, (j < length pre)%nat -> GetConnect j = true) ->
  GetConnect (length pre) = false ->
  heap (sendTasks now (pre ++ task :: post) s)
  = alter (updateTask now false) task
      (foldl (fun h p => alter (updateTask now true) p h) (heap s) pre)
  /\ length (filter (fun e => isGetConnect e = true)
                    (drop (length (trace s))
                          (trace (sendTasks now (pre ++ task :: post) s))))
     = S (length pre)
  /\ written (drop (length (trace s)) (trace (sendTasks now (pre ++ task :: post) s)))
     `sublist_of` pre
  /\ (forall p, p ∉ pre -> p ≠ task ->
        heap (sendTasks now (pre ++ task :: post) s) !! p = heap s !! p).
Proof.
  intros Hconn Hfail. unfold sendTasks.
  rewrite sendTasksFrom_app by (intros j Hj; apply Hconn; lia).
  destruct (sendTasksFrom_connected now pre 0 s) as [Hh Hg].
  { intros j Hj. apply Hconn. lia. }
  destruct (sendTasksFrom_events now pre 0 s) as (ev & Htr & _ & Hsub & _).
  cbn [Nat.add]. set (s1 := sendTasksFrom now 0 pre s) in *.
  rewrite (sendTasksFrom_connect_failure now (length pre) task post s1 Hfail).
  unfold updateTaskInfo, setHeap, emit. cbn [heap trace].
  rewrite Hh. split; [reflexivity|].
  rewrite Htr in Hg |- *. rewrite drop_app_length in Hg.
  rewrite <- !app_assoc, drop_app_length. cbn [app].
  split; [|split].
  - rewrite filter_app, length_app, Hg.
    change (length _) with 1%nat at 2. lia.
  - unfold written in *. rewrite omap_app. cbn. by rewrite app_nil_r.
  - intros p Hp Hne. rewrite lookup_alter_ne by done. by apply foldl_alter_notin.
Qed.

Lemma filter_ext_elem {A} (P Q : A -> Prop) `{!forall x, Decision (P x)}
  `{!forall x, Decision (Q x)} (l : list A) :
  (forall x, x ∈ l -> P x <-> Q x) -> filter P l = filter Q l.
Proof.
  induction l as [|x l IH]; intros Heq; [done|].
  rewrite !filter_cons, IH by (intros y Hy; apply Heq; by right).
  specialize (Heq x (list_elem_of_here _ _)).
  destruct (decide (P x)), (decide (Q x)); tauto.
Qed.

Lemma alter_insert_Some (f : AdminTask -> AdminTask) (h : gmap positive AdminTask) p t :
  h !! p = Some t -> <[p := f t]> h = alter f p h.
Proof.
  intros Hp. apply map_eq. intros q. destruct (decide (q = p)) as [->|Hne].
  - by rewrite lookup_insert_eq, lookup_alter_eq, Hp.
  - by rewrite lookup_insert_ne, lookup_alter_ne.
Qed.

(** The marking loops on entries with distinct addresses: the tasks selected
    are those that pass the guard in the heap the loop starts from, in the
    order of the walk, and each of them is marked once. *)
Lemma collectMarked_exact class now kvs :
  forall h tasks,
    NoDup kvs.*2 ->
    collectMarked class now kvs h tasks
    = (foldl (fun h p => alter (markSent now) p h) h
         (filter (fun p => selected class now h p = true) kvs.*2),
       tasks ++ filter (fun p => selected class now h p = true) kvs.*2).
Proof.
  induction kvs as [|[k p] rest IH]; intros h tasks Hnd.
  - cbn. by rewrite app_nil_r.
  - rewrite fmap_cons in Hnd |- *. cbn [snd] in *.
    apply NoDup_cons in Hnd as [Hp Hnd]. cbn [collectMarked].
    destruct (h !! p) as [t|] eqn:Ht;
      [destruct (class t && CheckTaskNeedSend now t) eqn:Hsel|].
    + rewrite filter_cons_True by (unfold selected; by rewrite Ht).
      rewrite IH by done.
      rewrite (filter_ext_elem
                 (fun q => selected class now (<[p:=markSent now t]> h) q = true)
                 (fun q => selected class now h q = true)).
      * cbn [foldl]. rewrite <- app_assoc.
        by rewrite (alter_insert_Some (markSent now) h p t Ht).
      * intros q Hq. unfold selected. rewrite lookup_insert_ne; [done|].
        intros ->. done.
    + rewrite filter_cons_False by (unfold selected; rewrite Ht, Hsel; done).
      by apply IH.
    + rewrite filter_cons_False by (unfold selected; by rewrite Ht).
      by apply IH.
Qed.

(** The last loop on any entries: what it appends are tasks that pass its
    guard, in the order of the walk. *)
Lemma collectNormal_sub now kvs h :
  forall tasks, exists added,
    collectNormal now kvs h tasks = tasks ++ added
    /\ added `sublist_of` filter (fun p => selected IsNormalTask now h p = true) kvs.*2.
Proof.
  induction kvs as [|[k p] rest IH]; intros tasks.
  - exists []. cbn. by rewrite app_nil_r.
  - rewrite fmap_cons. cbn [snd collectNormal].
    destruct (h !! p) as [t|] eqn:Hp;
      [destruct (negb (IsHeartbeatTask t) && negb (IsUrgentTask t)
                 && CheckTaskNeedSend now t) eqn:Hsel|].
    + rewrite filter_cons_True by (unfold selected, IsNormalTask; by rewrite Hp).
      destruct (MaxTaskLen <? length (tasks ++ [p]))%nat.
      * exists [p]. split; [done|]. apply sublist_skip, sublist_nil_l.
      * destruct (IH (tasks ++ [p])) as (added & -> & Hsub).
        exists (p :: added). rewrite <- app_assoc. split; [done|].
        by apply sublist_skip.
    + rewrite filter_cons_False
        by (unfold selected, IsNormalTask; rewrite Hp, Hsel; done).
      destruct (MaxTaskLen <? length tasks)%nat.
      * exists []. rewrite app_nil_r. split; [done|]. apply sublist_nil_l.
      * apply IH.
    + rewrite filter_cons_False by (unfold selected; by rewrite Hp).
      destruct (MaxTaskLen <? length tasks)%nat.
      * exists []. rewrite app_nil_r. split; [done|]. apply sublist_nil_l.
      * apply IH.
Qed.

(** Under a well-formed registry, a fair walk meets every registered address
    once. *)
Lemma range_addresses site s :
  range_fair -> registry_wf s ->
  NoDup (range site (TaskMap s)).*2
  /\ forall p, p ∈ (range site (TaskMap s)).*2 <-> exists k, TaskMap s !! k = Some p.
Proof.
  intros Hfair Hwf. pose proof (registry_wf_lookup s Hwf) as Hl. split.
  - rewrite (Hfair site (TaskMap s)).
    apply NoDup_fmap_2_strong; [|apply NoDup_map_to_list].
    intros [k1 p1] [k2 p2] H1%elem_of_map_to_list H2%elem_of_map_to_list Heq.
    cbn in Heq. subst p2.
    destruct (Hl k1 p1 H1) as (t1 & Ht1 & <-).
    destruct (Hl k2 p1 H2) as (t2 & Ht2 & <-). congruence.
  - intros p. rewrite (Hfair site (TaskMap s)), list_elem_of_fmap. split.
    + intros ([k q] & -> & Hin%elem_of_map_to_list). by exists k.
    + intros [k Hk]. exists (k, p). split; [done|]. by apply elem_of_map_to_list.
Qed.

(** The batch of [getNeedDealTask] under a well-formed registry, fair walks
    and disjoint classes: the heartbeat tasks that need sending, the urgent
    ones, then some of the normal ones; the first two groups are marked. *)
Lemma getNeedDealTask_exact now s :
  range_fair -> registry_wf s ->
  (forall op, heartbeatOp op = true -> urgentOp op = false) ->
  let hbs := filter (fun p => selected IsHeartbeatTask now (heap s) p = true)
                    (range 1 (TaskMap s)).*2 in
  let urs := filter (fun p => selected IsUrgentTask now (heap s) p = true)
                    (range 2 (TaskMap s)).*2 in
  exists no,
    (getNeedDealTask now s).1 = hbs ++ urs ++ no
    /\ no `sublist_of` filter (fun p => selected IsNormalTask now (heap s) p = true)
                              (range 3 (TaskMap s)).*2
    /\ heap (getNeedDealTask now s).2
       = foldl (fun h p => alter (markSent now) p h) (heap s) (hbs ++ urs)
    /\ TaskMap (getNeedDealTask now s).2 = TaskMap s
    /\ trace (getNeedDealTask now s).2 = trace s
    /\ NoDup (hbs ++ urs ++ no).
Proof.
  intros Hfair Hwf Hdisj hbs urs.
  destruct (range_addresses 1 s Hfair Hwf) as [Hnd1 _].
  destruct (range_addresses 2 s Hfair Hwf) as [Hnd2 _].
  destruct (range_addresses 3 s Hfair Hwf) as [Hnd3 _].
  unfold getNeedDealTask.
  rewrite (collectMarked_exact IsHeartbeatTask now _ (heap s) [] Hnd1).
  fold hbs. set (h1 := foldl _ (heap s) hbs).
  assert (Hhb : forall p, p ∈ hbs ->
            exists t, heap s !! p = Some t /\ IsHeartbeatTask t = true).
  { intros p [Hsel _]%list_elem_of_filter. unfold selected in Hsel.
    destruct (heap s !! p) as [t|]; [|done].
    apply andb_true_iff in Hsel as [? _]. by exists t. }
  assert (Hop1 : forall p, OpCode <$> h1 !! p = OpCode <$> heap s !! p).
  { intros p. by apply foldl_alter_proj. }
  assert (Hh1 : forall p, p ∉ hbs -> h1 !! p = heap s !! p).
  { intros p Hp. by apply foldl_alter_notin. }
  rewrite (collectMarked_exact IsUrgentTask now _ h1 ([] ++ hbs) Hnd2).
  assert (Hsel2 : forall p, selected IsUrgentTask now h1 p
                            = selected IsUrgentTask now (heap s) p).
  { intros p. destruct (decide (p ∈ hbs)) as [Hin|Hout].
    - destruct (Hhb p Hin) as (t & Ht & Hc). specialize (Hop1 p).
      unfold selected. rewrite Ht in Hop1 |- *.
      destruct (h1 !! p) as [t1|]; [|done]. injection Hop1 as Hop1.
      unfold IsUrgentTask, IsHeartbeatTask in *.
      by rewrite Hop1, (Hdisj _ Hc).
    - unfold selected. by rewrite Hh1. }
  rewrite (filter_ext_elem (fun p => selected IsUrgentTask now h1 p = true)
             (fun p => selected IsUrgentTask now (heap s) p = true))
    by (intros p _; by rewrite Hsel2).
  fold urs. set (h2 := foldl _ h1 urs).
  assert (Hur : forall p, p ∈ urs ->
            exists t, heap s !! p = Some t /\ IsUrgentTask t = true).
  { intros p [Hsel _]%list_elem_of_filter. unfold selected in Hsel.
    destruct (heap s !! p) as [t|]; [|done].
    apply andb_true_iff in Hsel as [? _]. by exists t. }
  assert (Hop2 : forall p, OpCode <$> h2 !! p = OpCode <$> heap s !! p).
  { intros p. rewrite <- Hop1. by apply foldl_alter_proj. }
  assert (Hh2 : forall p, p ∉ hbs -> p ∉ urs -> h2 !! p = heap s !! p).
  { intros p Hp1 Hp2. rewrite <- Hh1 by done. by apply foldl_alter_notin. }
  assert (Hsel3 : forall p, selected IsNormalTask now h2 p
                            = selected IsNormalTask now (heap s) p).
  { intros p. destruct (decide (p ∈ hbs)) as [Hin|Hout];
      [|destruct (decide (p ∈ urs)) as [Hin|Hout2]].
    - destruct (Hhb p Hin) as (t & Ht & Hc). specialize (Hop2 p).
      unfold selected. rewrite Ht in Hop2 |- *.
      destruct (h2 !! p) as [t2|]; [|done]. injection Hop2 as Hop2.
      unfold IsNormalTask, IsUrgentTask, IsHeartbeatTask in *.
      by rewrite Hop2, Hc.
    - destruct (Hur p Hin) as (t & Ht & Hc). specialize (Hop2 p).
      unfold selected. rewrite Ht in Hop2 |- *.
      destruct (h2 !! p) as [t2|]; [|done]. injection Hop2 as Hop2.
      unfold IsNormalTask, IsUrgentTask, IsHeartbeatTask in *.
      by rewrite Hop2, Hc, !andb_false_r.
    - unfold selected. by rewrite Hh2. }
  destruct (collectNormal_sub now (range 3 (TaskMap s)) h2 (([] ++ hbs) ++ urs))
    as (no & Hno & Hsub).
  rewrite (filter_ext_elem (fun p => selected IsNormalTask now h2 p = true)
             (fun p => selected IsNormalTask now (heap s) p = true)) in Hsub
    by (intros p _; by rewrite Hsel3).
  exists no. cbn [fst snd app heap TaskMap trace setHeap] in *.
  rewrite Hno, <- app_assoc. split; [done|]. split; [done|].
  split; [by rewrite foldl_app|]. split; [done|]. split; [done|].
  assert (Hno' : forall p, p ∈ no ->
            exists t, heap s !! p = Some t /\ IsNormalTask t = true).
  { intros p Hp. eapply elem_of_sublist in Hp; [|exact Hsub].
    apply list_elem_of_filter in Hp as [Hsel _]. unfold selected in Hsel.
    destruct (heap s !! p) as [t|]; [|done].
    apply andb_true_iff in Hsel as [? _]. by exists t. }
  apply NoDup_app. split; [by apply NoDup_filter|]. split.
  - intros p Hp1 [Hp2 | Hp2]%elem_of_app.
    + destruct (Hhb p Hp1) as (t & Ht & Hc). destruct (Hur p Hp2) as (t' & Ht' & Hc').
      rewrite Ht in Ht'. injection Ht' as <-.
      unfold IsUrgentTask, IsHeartbeatTask in *. by rewrite (Hdisj _ Hc) in Hc'.
    + destruct (Hhb p Hp1) as (t & Ht & Hc). destruct (Hno' p Hp2) as (t' & Ht' & Hc').
      rewrite Ht in Ht'. injection Ht' as <-.
      unfold IsNormalTask in Hc'. by rewrite Hc in Hc'.
  - apply NoDup_app. split; [by apply NoDup_filter|]. split.
    + intros p Hp1 Hp2.
      destruct (Hur p Hp1) as (t & Ht & Hc). destruct (Hno' p Hp2) as (t' & Ht' & Hc').
      rewrite Ht in Ht'. injection Ht' as <-.
      unfold IsNormalTask in Hc'. by rewrite Hc, andb_false_r in Hc'.
    + eapply sublist_NoDup; [|exact Hsub]. by apply NoDup_filter.
Qed.

(** X15.  Under a well-formed registry, fair walks and disjoint heartbeat
    and urgent opcodes, the batch of [getNeedDealTask] holds no task twice,
    holds only registered tasks that need to be sent, and holds every
    registered heartbeat or urgent task that needs to be sent: [MaxTaskLen]
    never keeps such a task out of the batch. *)
Theorem getNeedDealTask_batch (now : Z) (s : Sender) :
  range_fair -> registry_wf s ->
  (forall op, heartbeatOp op = true -> urgentOp op = false) ->
  NoDup (getNeedDealTask now s).1
  /\ (forall p, p ∈ (getNeedDealTask now s).1 ->
        exists k t, TaskMap s !! k = Some p /\ heap s !! p = Some t
                    /\ CheckTaskNeedSend now t = true)
  /\ (forall k p t, TaskMap s !! k = Some p -> heap s !! p = Some t ->
        IsHeartbeatTask t || IsUrgentTask t = true ->
        CheckTaskNeedSend now t = true ->
        p ∈ (getNeedDealTask now s).1).
Proof.
  intros Hfair Hwf Hdisj.
  destruct (getNeedDealTask_exact now s Hfair Hwf Hdisj)
    as (no & Hb & Hsub & _ & _ & _ & Hnd).
  rewrite Hb. split; [exact Hnd|].
  assert (Hfrom : forall site class p,
            p ∈ filter (fun p => selected class now (heap s) p = true)
                       (range site (TaskMap s)).*2 ->
            exists k t, TaskMap s !! k = Some p /\ heap s !! p = Some t
                        /\ CheckTaskNeedSend now t = true).
  { intros site class p [Hsel Hin]%list_elem_of_filter.
    apply (range_addresses site s Hfair Hwf) in Hin as [k Hk].
    unfold selected in Hsel. destruct (heap s !! p) as [t|]; [|done].
    apply andb_true_iff in Hsel as [_ ?]. by exists k, t. }
  split.
  - intros p [Hp | [Hp | Hp]%elem_of_app]%elem_of_app.
    + by apply (Hfrom 1%nat IsHeartbeatTask).
    + by apply (Hfrom 2%nat IsUrgentTask).
    + apply (Hfrom 3%nat IsNormalTask). by eapply elem_of_sublist.
  - intros k p t Hk Hp Hcls Hsend.
    apply orb_true_iff in Hcls as [Hc | Hc].
    + apply elem_of_app. left. apply list_elem_of_filter. split.
      * unfold selected. by rewrite Hp, Hc, Hsend.
      * apply (range_addresses 1 s Hfair Hwf). by exists k.
    + apply elem_of_app. right. apply elem_of_app. left.
      apply list_elem_of_filter. split.
      * unfold selected. by rewrite Hp, Hc, Hsend.
      * apply (range_addresses 2 s Hfair Hwf). by exists k.
Qed.

(** X16.  The send counts of one [doSendTasks] in which every connection is
    obtained (registry well formed, walks fair, classes disjoint).  A
    heartbeat or urgent task of the batch is counted twice, once when the
    batch is assembled and once when it is sent: its [SendCount] grows by
    two.  A normal task of the batch is counted once.  The count is a
    [uint8] and each step wraps at [2^8].  Both end with
    [SendTime = now] and [Status = TaskRunning], whatever became of the
    packet.  Every other task stays as it is. *)
Theorem doSendTasks_counts (now : Z) (s : Sender) :
  range_fair -> registry_wf s ->
  (forall op, heartbeatOp op = true -> urgentOp op = false) ->
  (forall j, GetConnect j = true) ->
  forall p t, heap s !! p = Some t ->
    (p ∈ (getNeedDealTask now s).1 -> IsHeartbeatTask t || IsUrgentTask t = true ->
       heap (doSendTasks now s) !! p
       = Some {| ID := ID t; OpCode := OpCode t; SendTime := now;
                 SendCount := uint8 (uint8 (SendCount t + 1) + 1);
                 Status := TaskRunning;
                 CreateTime := CreateTime t |})
    /\ (p ∈ (getNeedDealTask now s).1 -> IsNormalTask t = true ->
          heap (doSendTasks now s) !! p
          = Some {| ID := ID t; OpCode := OpCode t; SendTime := now;
                    SendCount := uint8 (SendCount t + 1); Status := TaskRunning;
                    CreateTime := CreateTime t |})
    /\ (p ∉ (getNeedDealTask now s).1 -> heap (doSendTasks now s) !! p = Some t).
Proof.
  intros Hfair Hwf Hdisj Hconn p t Hp.
  destruct (getNeedDealTask_exact now s Hfair Hwf Hdisj)
    as (no & Hb & Hsub & Hh & _ & _ & Hnd).
  set (hbs := filter (fun p => selected IsHeartbeatTask now (heap s) p = true)
                     (range 1 (TaskMap s)).*2) in *.
  set (urs := filter (fun p => selected IsUrgentTask now (heap s) p = true)
                     (range 2 (TaskMap s)).*2) in *.
  assert (Hmarked : forall q, q ∈ hbs ++ urs ->
            exists t', heap s !! q = Some t'
                       /\ IsHeartbeatTask t' || IsUrgentTask t' = true).
  { intros q [[Hsel _]%list_elem_of_filter | [Hsel _]%list_elem_of_filter]%elem_of_app.
    all: unfold selected in Hsel; destruct (heap s !! q) as [t'|]; [|done].
    all: apply andb_true_iff in Hsel as [Hc _]; exists t'; split; [done|].
    all: rewrite Hc; by rewrite ?orb_true_r. }
  assert (Hnormal : forall q, q ∈ no ->
            exists t', heap s !! q = Some t' /\ IsNormalTask t' = true).
  { intros q Hq. eapply elem_of_sublist in Hq; [|exact Hsub].
    apply list_elem_of_filter in Hq as [Hsel _]. unfold selected in Hsel.
    destruct (heap s !! q) as [t'|]; [|done].
    apply andb_true_iff in Hsel as [? _]. by exists t'. }
  assert (Hexcl : forall t', IsNormalTask t' = true ->
                             IsHeartbeatTask t' || IsUrgentTask t' = true -> False).
  { intros t'. unfold IsNormalTask.
    destruct (IsHeartbeatTask t'), (IsUrgentTask t'); done. }
  assert (Hheap : heap (doSendTasks now s)
                  = foldl (fun h q => alter (updateTask now true) q h)
                      (heap (getNeedDealTask now s).2) (getNeedDealTask now s).1).
  { unfold doSendTasks. destruct (getNeedDealTask now s) as [tasks s1].
    cbn [fst snd]. destruct tasks as [|task rest]; [done|].
    unfold sendTasks.
    apply (sendTasksFrom_connected now (task :: rest) 0 s1). intros j _. apply Hconn. }
  rewrite Hheap, Hh, Hb. rewrite app_assoc in Hnd |- *.
  apply NoDup_app in Hnd as (Hnd12 & Hdis & Hnd3).
  split; [|split].
  - intros Hin Hcls.
    assert (Hin12 : p ∈ hbs ++ urs).
    { apply elem_of_app in Hin as [?|Hin]; [done|].
      destruct (Hnormal p Hin) as (t' & Ht' & Hn). rewrite Hp in Ht'.
      injection Ht' as <-. destruct (Hexcl t Hn Hcls). }
    rewrite foldl_app, foldl_alter_notin by (by apply Hdis).
    rewrite !foldl_alter_once by done. by rewrite Hp.
  - intros Hin Hn.
    assert (Hin3 : p ∈ no).
    { apply elem_of_app in Hin as [Hin|?]; [|done].
      destruct (Hmarked p Hin) as (t' & Ht' & Hc). rewrite Hp in Ht'.
      injection Ht' as <-. destruct (Hexcl t Hn Hc). }
    assert (Hout : p ∉ hbs ++ urs) by (intros Hq; by apply (Hdis p Hq)).
    rewrite foldl_app.
    rewrite (foldl_alter_once (updateTask now true) no) by done.
    rewrite !foldl_alter_notin by done. by rewrite Hp.
  - intros Hout. rewrite !foldl_alter_notin; [done|..].
    + intros Hq. apply Hout, elem_of_app. by left.
    + exact Hout.
Qed.

(** The marking loops and the send loop change no field of a task other
    than those they assign. *)
Lemma collectMarked_proj {B} (g : AdminTask -> B) class now kvs :
  (forall t, g (markSent now t) = g t) ->
  forall h tasks p,
    g <$> (collectMarked class now kvs h tasks).1 !! p = g <$> h !! p.
Proof.
  intros Hg. induction kvs as [|[k q] rest IH]; intros h tasks p; [done|].
  cbn [collectMarked].
  destruct (h !! q) as [t|] eqn:Hq;
    [destruct (class t && CheckTaskNeedSend now t)|]; rewrite IH; try done.
  destruct (decide (p = q)) as [->|Hne].
  - by rewrite lookup_insert_eq, Hq; cbn; rewrite Hg.
  - by rewrite lookup_insert_ne.
Qed.

Lemma sendTasksFrom_proj {B} (g : AdminTask -> B) now tasks :
  (forall b t, g (updateTask now b t) = g t) ->
  forall i s p,
    g <$> heap (sendTasksFrom now i tasks s) !! p = g <$> heap s !! p.
Proof.
  intros Hg.
  assert (Halter : forall b q (h : gmap positive AdminTask) p,
            g <$> alter (updateTask now b) q h !! p = g <$> h !! p).
  { intros b q h p. destruct (decide (p = q)) as [->|Hne].
    - rewrite lookup_alter_eq. destruct (h !! q); cbn; [by rewrite Hg|done].
    - by rewrite lookup_alter_ne. }
  induction tasks as [|task rest IH]; intros i s p; [done|].
  cbn [sendTasksFrom]. destruct (GetConnect i).
  - unfold sendAdminTask. cbn [emit heap].
    destruct (heap s !! task) as [t|]; [destruct (Marshal t); cbn [negb]|];
      [destruct (WriteToConn i); cbn [negb];
         [destruct (ReadFromConn i) as [reply|]|]|..].
    all: rewrite IH; cbn [updateTaskInfo setHeap emit heap].
    all: by rewrite ?Halter.
  - cbn [updateTaskInfo setHeap emit heap]. apply Halter.
Qed.

Lemma doSendTasks_proj {B} (g : AdminTask -> B) now s :
  (forall t, g (markSent now t) = g t) ->
  (forall b t, g (updateTask now b t) = g t) ->
  forall p, g <$> heap (doSendTasks now s) !! p = g <$> heap s !! p.
Proof.
  intros Hm Hu p. unfold doSendTasks, getNeedDealTask.
  pose proof (collectMarked_proj g IsHeartbeatTask now (range 1 (TaskMap s)) Hm
                (heap s) [] p) as H1.
  destruct (collectMarked IsHeartbeatTask now (range 1 (TaskMap s)) (heap s) [])
    as [h1 tasks1]. cbn [fst] in H1.
  pose proof (collectMarked_proj g IsUrgentTask now (range 2 (TaskMap s)) Hm
                h1 tasks1 p) as H2.
  destruct (collectMarked IsUrgentTask now (range 2 (TaskMap s)) h1 tasks1)
    as [h2 tasks2]. cbn [fst] in H2.
  destruct (collectNormal now (range 3 (TaskMap s)) h2 tasks2) as [|task rest].
  - cbn. by rewrite H2, H1.
  - unfold sendTasks. rewrite (sendTasksFrom_proj g now _ Hu). cbn.
    by rewrite H2, H1.
Qed.

(** X17.  A well-formed registry stays well formed: under [PutTask], under
    [DelTask] and through a whole tick, whatever the walks and the network
    do. *)
Theorem registry_wf_invariant (now : Z) (t : positive) (s : Sender) :
  registry_wf s ->
  registry_wf (PutTask t s) /\ registry_wf (DelTask t s) /\ registry_wf (tick now s).
Proof.
  intros Hwf. split; [by apply PutTask_wf|]. split; [by apply DelTask_wf|].
  unfold tick.
  assert (Hdel : registry_wf (doDeleteTasks now s)).
  { unfold doDeleteTasks, getNeedDeleteTasks.
    destruct (needDeleteLoop_spec now (range 0 (TaskMap s)) s [])
      as (sel & ev & _ & Hh1 & Hm1 & _).
    destruct (needDeleteLoop now (range 0 (TaskMap s)) s []) as [delTasks s1].
    cbn [fst snd] in *.
    assert (Hwf1 : registry_wf s1) by (unfold registry_wf; by rewrite Hh1, Hm1).
    clear -Hwf1. revert s1 Hwf1.
    induction delTasks as [|q l IH]; intros s1 Hwf1; [done|].
    cbn. by apply IH, DelTask_wf. }
  revert Hdel. generalize (doDeleteTasks now s). clear. intros s Hwf.
  destruct (doSendTasks_events now s) as (_ & _ & _ & _ & _ & Hm).
  unfold registry_wf. rewrite Hm. intros k p Hk. cbn.
  rewrite (doSendTasks_proj ID now s); [exact (Hwf k p Hk)|done|done].
Qed.

Lemma delTasks_keep l :
  forall s k v,
    TaskMap s !! k = Some v ->
    (forall p t, p ∈ l -> heap s !! p = Some t -> ID t ≠ k) ->
    TaskMap (foldl (fun acc t => DelTask t acc) s l) !! k = Some v.
Proof.
  induction l as [|q l IH]; intros s k v Hk Hne; [done|]. cbn.
  destruct (heap s !! q) as [t|] eqn:Hq.
  - destruct (DelTask_spec q s t Hq) as (Hh & _ & Hm). apply IH.
    + rewrite Hm, lookup_delete_ne; [done|]. apply (Hne q t); [by left|done].
    + intros p t' Hp. rewrite Hh. apply Hne. by right.
  - assert (DelTask q s = s) as -> by (unfold DelTask; by rewrite Hq).
    apply IH; [done|]. intros p t' Hp. apply Hne. by right.
Qed.

(** X18.  The registry after a tick, for a well-formed registry and fair
    walks: exactly the entries whose task is not timed out at the tick.  A
    tick registers nothing, and removes nothing but timed-out tasks,
    whatever becomes of the packets it sends. *)
Theorem tick_registry (now : Z) (s : Sender) :
  range_fair -> registry_wf s ->
  forall k p,
    TaskMap (tick now s) !! k = Some p
    <-> TaskMap s !! k = Some p
        /\ exists t, heap s !! p = Some t /\ CheckTaskTimeOut now t = false.
Proof.
  intros Hfair Hwf k p.
  pose proof (registry_wf_lookup s Hwf) as Hl.
  unfold tick.
  destruct (doSendTasks_events now (doDeleteTasks now s)) as (_ & _ & _ & _ & _ & ->).
  unfold doDeleteTasks, getNeedDeleteTasks.
  destruct (needDeleteLoop_spec now (range 0 (TaskMap s)) s [])
    as (sel & ev1 & Hsel & Hh1 & Hm1 & _ & Hin & _).
  destruct (needDeleteLoop now (range 0 (TaskMap s)) s []) as [delTasks s1].
  cbn [fst snd app] in *. subst delTasks.
  destruct (delTasks_spec sel s1) as (_ & _ & Hsubm & Hdel).
  split.
  - intros Hk. apply Hsubm in Hk as Hk0. rewrite Hm1 in Hk0.
    split; [exact Hk0|]. destruct (Hl k p Hk0) as (t & Ht & Hid).
    exists t. split; [exact Ht|].
    destruct (CheckTaskTimeOut now t) eqn:Hto; [|done].
    assert (Hp : p ∈ sel).
    { apply Hin. exists k, t. split; [|done].
      rewrite (Hfair 0%nat (TaskMap s)). by apply elem_of_map_to_list. }
    rewrite <- Hh1 in Ht. pose proof (Hdel p t Hp Ht) as Hgone.
    rewrite Hid in Hgone. congruence.
  - intros (Hk & t & Ht & Hto). apply delTasks_keep; [by rewrite Hm1|].
    intros q t' Hq Hq' Hid. rewrite Hh1 in Hq'.
    apply Hin in Hq as (k' & t'' & Hin' & Ht'' & Hto').
    rewrite (Hfair 0%nat (TaskMap s)) in Hin'. apply elem_of_map_to_list in Hin'.
    destruct (Hl k' q Hin') as (t3 & Ht3 & Hid3).
    assert (k' = k) by congruence. subst k'.
    assert (q = p) by congruence. subst q. congruence.
Qed.

Lemma needDeleteLoop_idle now kvs s :
  (forall k p t, (k, p) ∈ kvs -> heap s !! p = Some t ->
                 CheckTaskTimeOut now t = false) ->
  forall acc, needDeleteLoop now kvs s acc = (acc, s).
Proof.
  induction kvs as [|[k p] rest IH]; intros Hno acc; [done|].
  cbn [needDeleteLoop].
  destruct (heap s !! p) as [t|] eqn:Hp.
  - rewrite (Hno k p t) by (done || by left).
    apply IH. intros k' p' t' Hin. apply (Hno k'). by right.
  - apply IH. intros k' p' t' Hin. apply (Hno k'). by right.
Qed.

Lemma collectMarked_idle class now kvs h :
  (forall k p t, (k, p) ∈ kvs -> h !! p = Some t ->
                 CheckTaskNeedSend now t = false) ->
  forall tasks, collectMarked class now kvs h tasks = (h, tasks).
Proof.
  induction kvs as [|[k p] rest IH]; intros Hno tasks; [done|].
  cbn [collectMarked].
  destruct (h !! p) as [t|] eqn:Hp.
  - rewrite (Hno k p t) by (done || by left). rewrite andb_false_r.
    apply IH. intros k' p' t' Hin. apply (Hno k'). by right.
  - apply IH. intros k' p' t' Hin. apply (Hno k'). by right.
Qed.

Lemma collectNormal_idle now kvs h :
  (forall k p t, (k, p) ∈ kvs -> h !! p = Some t ->
                 CheckTaskNeedSend now t = false) ->
  forall tasks, collectNormal now kvs h tasks = tasks.
Proof.
  induction kvs as [|[k p] rest IH]; intros Hno tasks; [done|].
  cbn [collectNormal].
  assert (Hrest : collectNormal now rest h tasks = tasks).
  { apply IH. intros k' p' t' Hin. apply (Hno k'). by right. }
  destruct (h !! p) as [t|] eqn:Hp.
  - rewrite (Hno k p t) by (done || by left). rewrite andb_false_r.
    by destruct (MaxTaskLen <? length tasks)%nat.
  - by destruct (MaxTaskLen <? length tasks)%nat.
Qed.

(** X19.  An idle tick only sleeps: when no registered task is timed out and
    none needs to be sent, the tick leaves tasks and registry as they are
    and its one event is the sleep of [doSendTasks]. *)
Theorem tick_idle (now : Z) (s : Sender) :
  range_fair ->
  (forall k p t, TaskMap s !! k = Some p -> heap s !! p = Some t ->
     CheckTaskTimeOut now t = false /\ CheckTaskNeedSend now t = false) ->
  tick now s = emit EvSleep s.
Proof.
  intros Hfair Hidle.
  assert (Hrange : forall site k p t,
            (k, p) ∈ range site (TaskMap s) -> heap s !! p = Some t ->
            CheckTaskTimeOut now t = false /\ CheckTaskNeedSend now t = false).
  { intros site k p t Hin. apply (Hidle k).
    rewrite (Hfair site (TaskMap s)) in Hin. by apply elem_of_map_to_list. }
  unfold tick, doDeleteTasks, getNeedDeleteTasks.
  rewrite needDeleteLoop_idle by (intros k p t Hin Hp; by apply (Hrange 0%nat k p t)).
  cbn [foldl]. unfold doSendTasks, getNeedDealTask.
  rewrite collectMarked_idle by (intros k p t Hin Hp; by apply (Hrange 1%nat k p t)).
  rewrite collectMarked_idle by (intros k p t Hin Hp; by apply (Hrange 2%nat k p t)).
  rewrite collectNormal_idle by (intros k p t Hin Hp; by apply (Hrange 3%nat k p t)).
  by destruct s.
Qed.

(** X20.  [PutTask] and [DelTask] go by the id, not by the task.  [PutTask]
    never replaces a registered task: under a taken id it does nothing.
    [DelTask] removes the entry under the id of its argument, also when the
    task registered there is another one.  Deleting a task just registered
    under a free id gives back the sender as it was. *)
Theorem PutTask_DelTask (p : positive) (t : AdminTask) (s : Sender) :
  heap s !! p = Some t ->
  (forall q, TaskMap s !! ID t = Some q ->
     PutTask p s = s /\ TaskMap (DelTask p s) !! ID t = None
     /\ forall k, k ≠ ID t -> TaskMap (DelTask p s) !! k = TaskMap s !! k)
  /\ (TaskMap s !! ID t = None ->
      TaskMap (PutTask p s) !! ID t = Some p
      /\ DelTask p s = s
      /\ DelTask p (PutTask p s) = s).
Proof.
  intros Hp. split.
  - intros q Hq. unfold PutTask, DelTask. rewrite Hp, Hq. cbn.
    split; [done|]. split; [apply lookup_delete_eq|].
    intros k Hk. by apply lookup_delete_ne.
  - intros Hfree. unfold PutTask, DelTask. rewrite Hp, Hfree.
    cbn [heap TaskMap setTaskMap]. rewrite Hp, lookup_insert_eq.
    split; [done|]. split; [done|].
    unfold setTaskMap. cbn. rewrite delete_insert_eq, delete_id by done.
    by destruct s.
Qed.

End Dispatch.

(** ** Walking the directory *)

Section RangePartitions.
Import Datanode.
Local Open Scope Z_scope.

Lemma foldl_snoc {A B} (g : A -> B) (l : list A) :
  forall acc, foldl (fun acc x => acc ++ [g x]) acc l = acc ++ (g <$> l).
Proof.
  induction l as [|x l IH]; intros acc; cbn.
  - by rewrite app_nil_r.
  - by rewrite IH, <- app_assoc.
Qed.

Lemma rangeLoop_log (goOn : DataPartition -> bool) (l : list DataPartition) :
  forall log, exists n,
    rangeLoop (fun dp log => (goOn dp, log ++ [dp])) l log = log ++ take n l
    /\ (n <= length l)%nat
    /\ Forall (fun dp => goOn dp = true) (take (pred n) l)
    /\ (n = 0%nat -> l = [])
    /\ ((n < length l)%nat -> exists dp, l !! pred n = Some dp /\ goOn dp = false).
Proof.
  induction l as [|dp l IH]; intros log.
  - exists 0%nat. cbn. rewrite app_nil_r. repeat split; try done.
    intros ?. lia.
  - cbn [rangeLoop]. destruct (goOn dp) eqn:Hgo.
    + destruct (IH (log ++ [dp])) as (n & -> & Hle & Hall & Hzero & Hstop).
      exists (S n). rewrite <- app_assoc. cbn [app take length pred].
      split; [done|]. split; [lia|]. split; [|split; [done|]].
      * destruct n as [|n]; [constructor|]. cbn [take pred] in *.
        by apply Forall_cons.
      * intros Hlt. destruct n as [|n].
        -- rewrite (Hzero eq_refl) in Hlt. cbn in Hlt. lia.
        -- destruct Hstop as (dp' & Hdp' & Hrej); [lia|]. by exists dp'.
    + exists 1%nat. cbn. split; [done|]. split; [lia|]. split; [constructor|].
      split; [done|]. intros _. by exists dp.
Qed.

(** X21.  [RangePartitions] with a nil visitor does nothing.  Otherwise the
    visitor is called on the partitions of the walk in order, up to and
    including the first one on which it returns false, and on none after
    it; a visitor that never returns false is called on every partition. *)
Theorem RangePartitions_visits (goOn : DataPartition -> bool)
  (walk : list (Z * DataPartition)) :
  RangePartitions None walk ([] : list DataPartition) = []
  /\ (exists n,
        RangePartitions (Some (fun dp log => (goOn dp, log ++ [dp]))) walk []
        = take n walk.*2
        /\ (n <= length walk)%nat
        /\ Forall (fun dp => goOn dp = true) (take (pred n) walk.*2)
        /\ ((n < length walk)%nat ->
            exists dp, walk.*2 !! pred n = Some dp /\ goOn dp = false))
  /\ ((forall dp, dp ∈ walk.*2 -> goOn dp = true) ->
      RangePartitions (Some (fun dp log => (goOn dp, log ++ [dp]))) walk []
      = walk.*2).
Proof.
  split; [done|]. unfold RangePartitions.
  rewrite (foldl_snoc snd walk []). cbn [app].
  destruct (rangeLoop_log goOn walk.*2 []) as (n & Hrun & Hle & Hall & _ & Hstop).
  rewrite length_fmap in Hle, Hstop. cbn [app] in Hrun. split.
  - exists n. by rewrite Hrun.
  - intros Hgo. rewrite Hrun.
    destruct (decide (n < length walk)%nat) as [Hlt|Hge].
    + destruct (Hstop Hlt) as (dp & Hdp & Hrej).
      rewrite Hgo in Hrej; [done|]. by eapply list_elem_of_lookup_2.
    + apply take_ge. rewrite length_fmap. lia.
Qed.

(** X22.  When the walk visits every entry of the directory once,
    [flushDelete] calls [FlushDelete] once for every entry: there are as
    many calls as entries, and every registered partition is flushed. *)
Theorem flushDelete_all (s : spaceManager) (walk : list (Z * DataPartition)) :
  walk ≡ₚ map_to_list (partitions s) ->
  flushDelete walk = walk.*2
  /\ length (flushDelete walk) = size (partitions s)
  /\ (forall dp, dp ∈ flushDelete walk <-> exists id, partitions s !! id = Some dp).
Proof.
  intros Hwalk.
  assert (Hrun : flushDelete walk = walk.*2).
  { unfold flushDelete, RangePartitions.
    rewrite (foldl_snoc snd walk []). cbn [app].
    rewrite (foldl_snoc id _ []). cbn [app]. rewrite list_fmap_id.
    destruct (rangeLoop_log (fun _ => true) walk.*2 [])
      as (n & Hrun & Hle & _ & _ & Hstop).
    cbn [app] in Hrun. rewrite Hrun.
    destruct (decide (n < length walk.*2)%nat) as [Hlt|Hge].
    - by destruct (Hstop Hlt) as (dp & _ & ?).
    - apply take_ge. lia. }
  rewrite Hrun. split; [done|]. split.
  - by rewrite length_fmap, Hwalk, length_map_to_list.
  - intros dp. rewrite Hwalk, list_elem_of_fmap. split.
    + intros ([id dp'] & -> & Hin%elem_of_map_to_list). by exists id.
    + intros [id Hid]. exists (id, dp). split; [done|]. by apply elem_of_map_to_list.
Qed.

End RangePartitions.

(** ** Examples for the further properties *)

Section HookExamples.
Import Datanode Samples.
Local Open Scope Z_scope.
#[local] Existing Instance samplePacketOps.
#[local] Existing Instance samplePostOps.

(** The forwarded write of extent 5 passes every test: one id more on the
    queues, and the flag is set. *)
Lemma releaseExtent_exact_witness :
  queued (releaseExtent (Some (pktWrite 0)) sampleStores).2 = 4%nat
  /\ IsRelase <$> (releaseExtent (Some (pktWrite 0)) sampleStores).1 = Some 1.
Proof.
  pose proof (releaseExtent_exact (pktWrite 0) sampleStores) as (Hq & _ & Hflag).
  split; [exact Hq | apply Hflag; reflexivity].
Defined.

(** Three runs of [Post] on a write that was released before: the queues
    keep their three ids. *)
Lemma PostTimes_at_most_once_witness :
  queued (hookStores (PostTimes 3 (storeIsRelase 1 (pktWrite 0)) sampleHook).2)
  = 3%nat.
Proof.
  apply (proj2 (PostTimes_at_most_once 3 (storeIsRelase 1 (pktWrite 0)) sampleHook)).
  reflexivity.
Defined.

(** The [CreateDataPartition] command of the master leaves [Post] with its
    reply flag set, and nothing else has happened. *)
Lemma Post_master_command_witness :
  Post pktCreate sampleHook = (setNeedReply true pktCreate, sampleHook).
Proof.
  exact (Post_master_command pktCreate sampleHook (fun b q => eq_refl) eq_refl).
Defined.

End HookExamples.

Section PlacementExamples.
Import Datanode Samples.
Local Open Scope Z_scope.
#[local] Existing Instance samplePartitionOps.

(** Two disks, the cursor on the second: two calls return the second disk,
    then the first. *)
Lemma selectMany_round_robin_witness :
  exists w',
    selectMany 2 sampleWorld = Done ([Some "/data2"; Some "/data1"], w')
    /\ disks (space w') = disks sampleSpace
    /\ diskList (space w') = ["/data1"; "/data2"]
    /\ partitions (space w') = partitions sampleSpace
    /\ [Some "/data2"; Some "/data1"] ≡ₚ [Some "/data1"; Some "/data2"].
Proof.
  destruct (selectMany_round_robin 2 sampleWorld) as (w' & Hrun & Hd & Hl & Hp & Hperm).
  - split; [by vm_compute | done].
  - discriminate.
  - exists w'. split; [exact Hrun|]. split; [exact Hd|]. split; [exact Hl|].
    split; [exact Hp|]. exact (Hperm eq_refl).
Defined.

(** 80 units under the new id 6, with 100 units on the first disk and 50 on
    the second, the cursor on the second: the second disk is passed over
    and the factory is handed the first. *)
Lemma CreatePartition_first_fit_witness :
  exists j path d paths,
    (j < 2)%nat
    /\ diskList roomySpace !! reached roomySpace j = Some path
    /\ disks roomySpace !! path = Some d
    /\ fitsOn roomySpace 80 path = true
    /\ (forall i p, (i < j)%nat ->
          diskList roomySpace !! reached roomySpace i = Some p ->
          fitsOn roomySpace 80 p = false)
    /\ length paths = j
    /\ CreatePartition (sampleRequest 6 80) roomyWorld
       = Done ((Some {| ID := 6; DiskOf := Path d; PathOf := Path d +:+ "/datapartition" |},
                None),
               {| space :=
                    putPartition
                      {| ID := 6; DiskOf := Path d; PathOf := Path d +:+ "/datapartition" |}
                      (setDisks
                         (<[path := (CreateDataPartition
                                       (cfgOf (sampleRequest 6 80) roomySpace) d).2]>
                            (disks roomySpace))
                         (setChooseIndex (Z.of_nat (reached roomySpace j) + 1) roomySpace));
                  trace := map EvSelectDisk (paths ++ [path])
                           ++ [EvCreateDataPartition
                                 (cfgOf (sampleRequest 6 80) roomySpace) path] |}).
Proof.
  destruct (CreatePartition_first_fit (sampleRequest 6 80) roomyWorld)
    as (j & path & d & paths & Hj & Hat & Hd & Hfit & Hbefore & Hlen & Hrun).
  - split; [by vm_compute | done].
  - apply (bool_decide_unpack _). by vm_compute.
  - reflexivity.
  - exists "/data1". reflexivity.
  - exists j, path, d, paths.
    split; [exact Hj|]. split; [exact Hat|]. split; [exact Hd|].
    split; [exact Hfit|]. split; [exact Hbefore|]. split; [exact Hlen|].
    exact Hrun.
Defined.

(** Partition 6 is created on [roomyWorld], found, and deleted again: the
    directory holds partition 5 alone, as before. *)
Lemma CreatePartition_DeletePartition_witness :
  exists dp w1 w2,
    CreatePartition (sampleRequest 6 80) roomyWorld = Done ((Some dp, None), w1)
    /\ partitions (space w1) = <[6 := dp]> (partitions roomySpace)
    /\ GetPartition 6 (space w1) = Some dp
    /\ DeletePartition 6 w1 = Done (tt, w2)
    /\ partitions (space w2) = partitions roomySpace
    /\ trace w2 = trace w1 ++ [EvStop dp; EvDetachDataPartition dp;
                               EvRemoveAll (PathOf dp)].
Proof.
  destruct (CreatePartition (sampleRequest 6 80) roomyWorld) as [[[[dp|] [err|]] w1]|]
    eqn:Hrun; try (by vm_compute in Hrun).
  destruct (CreatePartition_DeletePartition (sampleRequest 6 80) roomyWorld w1 dp)
    as (Hparts & Hget & w2 & Hdel & Hback & Htr).
  - intros cfg d dp' d' [= <- _]. reflexivity.
  - reflexivity.
  - exact Hrun.
  - exists dp, w1, w2. by repeat split.
Defined.

End PlacementExamples.

Section LoadDiskExamples.
Import Datanode Samples.
Local Open Scope Z_scope.
#[local] Existing Instance samplePartitionOps.
#[local] Existing Instance sampleDiskOps.
#[local] Existing Instance sampleDiskStats.

(** A third disk is loaded into [sampleSpace]: three paths, three disks, and
    a second load of the path, with other parameters, changes nothing. *)
Lemma LoadDisk_inventory_witness :
  disks_wf (LoadDisk "/data3" 100 1 sampleSpace)
  /\ NoDup (diskList (LoadDisk "/data3" 100 1 sampleSpace))
  /\ length (diskList (LoadDisk "/data3" 100 1 sampleSpace))
     = size (disks (LoadDisk "/data3" 100 1 sampleSpace))
  /\ is_Some (disks (LoadDisk "/data3" 100 1 sampleSpace) !! "/data3")
  /\ LoadDisk "/data3" 7 7 (LoadDisk "/data3" 100 1 sampleSpace)
     = LoadDisk "/data3" 100 1 sampleSpace.
Proof.
  destruct (LoadDisk_inventory "/data3" 100 1 sampleSpace)
    as (Hwf & Hnd & Hlen & Hin & Hagain).
  - intros p r m. reflexivity.
  - split; [by vm_compute | done].
  - apply (bool_decide_unpack _). by vm_compute.
  - split; [exact Hwf|]. split; [exact Hnd|]. split; [exact Hlen|].
    split; [exact Hin|]. exact (Hagain 7 7).
Defined.

(** The new disk holds the partitions 5 and 9: partition 5 stays the one
    registered before, partition 9 is registered. *)
Lemma LoadDisk_partitions_witness :
  partitions (LoadDisk "/data3" 100 1 sampleSpace) !! 5 = Some dp5
  /\ is_Some (partitions (LoadDisk "/data3" 100 1 sampleSpace) !! 9)
  /\ LoadDisk "/data1" 100 1 sampleSpace = sampleSpace.
Proof.
  destruct (LoadDisk_partitions "/data3" 100 1 sampleSpace) as (Hkeep & Hnew & _).
  split; [apply Hkeep; reflexivity|]. split.
  - apply (Hnew eq_refl
             {| ID := 9; DiskOf := "/data3"; PathOf := "/data3/datapartition_9" |}).
    apply list_elem_of_further, list_elem_of_here.
  - apply (LoadDisk_partitions "/data1" 100 1 sampleSpace). by eexists.
Defined.

(** The directory of [sampleSpace] is keyed by id, and so it is after the
    third disk is loaded and after partition 5 is deleted. *)
Lemma dir_wf_invariant_witness :
  dir_wf (LoadDisk "/data3" 100 1 sampleSpace)
  /\ exists w', DeletePartition 5 sampleWorld = Done (tt, w') /\ dir_wf (space w').
Proof.
  destruct (dir_wf_invariant sampleSpace) as (Hload & Hdel & _).
  - apply (bool_decide_unpack _). by vm_compute.
  - split; [apply Hload|].
    eexists. split; [reflexivity|]. eapply (Hdel [] 5). reflexivity.
Defined.

(** The two disks of [roomySpace], walked in either order. *)
Lemma updateMetrics_order_witness :
  updateMetrics [("/data1", sampleDisk "/data1" 100); ("/data2", sampleDisk "/data2" 50)]
  = updateMetrics [("/data2", sampleDisk "/data2" 50); ("/data1", sampleDisk "/data1" 100)]
  /\ mTotal (updateMetrics [("/data1", sampleDisk "/data1" 100);
                            ("/data2", sampleDisk "/data2" 50)]) = 2000
  /\ mMaxWeightsForCreatePartition
       (updateMetrics [("/data1", sampleDisk "/data1" 100);
                       ("/data2", sampleDisk "/data2" 50)]) = 100.
Proof.
  destruct (updateMetrics_order
              [("/data1", sampleDisk "/data1" 100); ("/data2", sampleDisk "/data2" 50)]
              [("/data2", sampleDisk "/data2" 50); ("/data1", sampleDisk "/data1" 100)])
    as (Heq & Htotal & _).
  - apply perm_swap.
  - split; [exact Heq|]. split; [exact Htotal | reflexivity].
Defined.

End LoadDiskExamples.

Section DispatchExamples.
Import Master MasterSamples.
Local Open Scope Z_scope.
#[local] Existing Instance sampleTaskOps.

(** The node accepts the three connections and fails the three writes: the
    three tasks are marked as sent all the same. *)
Lemma sendTasks_all_connected_witness :
  heap (sendTasks (env := muteEnv) 2000 [3; 1; 2]%positive threeNormal) !! 1%positive
  = Some {| ID := "N1"; OpCode := 10; SendTime := 2000; SendCount := 1;
            Status := 1; CreateTime := 1000 |}
  /\ length (filter (fun e => isGetConnect e = true)
               (trace (sendTasks (env := muteEnv) 2000 [3; 1; 2]%positive threeNormal)))
     = 3%nat.
Proof.
  destruct (sendTasks_all_connected (env := muteEnv) 2000 [3; 1; 2]%positive threeNormal)
    as (_ & Hconn & Honce & _).
  - intros j _. reflexivity.
  - split; [|exact Hconn].
    apply (Honce ltac:(apply (bool_decide_unpack _); by vm_compute)
             1%positive (newTask "N1" 10)).
    + apply list_elem_of_further, list_elem_of_here.
    + reflexivity.
Defined.

(** The count is a [uint8]: the 256th send of N1 takes it from 255 to 0. *)
Example sendTasks_count_wraps :
  heap (sendTasks (env := healthyEnv) 2000 [1%positive] worn) !! 1%positive
  = Some {| ID := "N1"; OpCode := 10; SendTime := 2000; SendCount := 0;
            Status := 1; CreateTime := 900 |}.
Proof. by vm_compute. Qed.

(** The node answers for N3 and refuses the connection for N1: N3 is sent,
    N1 is counted without send time, N2 is not touched. *)
Lemma sendTasks_until_failure_witness :
  heap (sendTasks (env := flakyEnv) 2000 [3; 1; 2]%positive threeNormal)
  = {[ 1%positive := {| ID := "N1"; OpCode := 10; SendTime := 0; SendCount := 1;
                        Status := 0; CreateTime := 1000 |};
       2%positive := newTask "N2" 10;
       3%positive := {| ID := "N3"; OpCode := 10; SendTime := 2000; SendCount := 1;
                        Status := 1; CreateTime := 1000 |} ]}
  /\ written (trace (sendTasks (env := flakyEnv) 2000 [3; 1; 2]%positive threeNormal))
     `sublist_of` [3%positive].
Proof.
  destruct (sendTasks_until_failure (env := flakyEnv) 2000 [3%positive] 1%positive
              [2%positive] threeNormal) as (Hheap & _ & Hwritten & _).
  - intros j Hj. destruct j; [reflexivity | cbn in Hj; lia].
  - reflexivity.
  - split; [|exact Hwritten]. etrans; [exact Hheap|]. by vm_compute.
Defined.

(** The batch of [mixed] holds its heartbeat task and its urgent task, and
    no task twice. *)
Lemma getNeedDealTask_batch_witness :
  NoDup (getNeedDealTask (env := healthyEnv) 2000 mixed).1
  /\ 3%positive ∈ (getNeedDealTask (env := healthyEnv) 2000 mixed).1
  /\ 2%positive ∈ (getNeedDealTask (env := healthyEnv) 2000 mixed).1.
Proof.
  destruct (getNeedDealTask_batch (env := healthyEnv) 2000 mixed)
    as (Hnd & _ & Hall).
  - intros site m. reflexivity.
  - apply (bool_decide_unpack _). by vm_compute.
  - intros op. cbn. intros [H | H]%orb_true_iff; apply Z.eqb_eq in H; by subst.
  - split; [exact Hnd|]. split.
    + apply (Hall "H1" 3%positive (newTask "H1" 35)); reflexivity.
    + apply (Hall "U1" 2%positive (newTask "U1" 96)); reflexivity.
Defined.

(** One round on [mixed] with a healthy node: the heartbeat task ends with
    send count 2, the normal task with send count 1. *)
Lemma doSendTasks_counts_witness :
  heap (doSendTasks (env := healthyEnv) 2000 mixed) !! 3%positive
  = Some {| ID := "H1"; OpCode := 35; SendTime := 2000; SendCount := 2;
            Status := 1; CreateTime := 1000 |}
  /\ heap (doSendTasks (env := healthyEnv) 2000 mixed) !! 1%positive
     = Some {| ID := "N1"; OpCode := 10; SendTime := 2000; SendCount := 1;
               Status := 1; CreateTime := 1000 |}.
Proof.
  assert (Hfair : range_fair (env := healthyEnv)) by (intros site m; reflexivity).
  assert (Hwf : registry_wf mixed) by (apply (bool_decide_unpack _); by vm_compute).
  assert (Hdisj : forall op, heartbeatOp op = true -> urgentOp op = false).
  { intros op. cbn. intros [H | H]%orb_true_iff; apply Z.eqb_eq in H; by subst. }
  split.
  - apply (proj1 (doSendTasks_counts (env := healthyEnv) 2000 mixed Hfair Hwf Hdisj
                    (fun _ => eq_refl) 3%positive (newTask "H1" 35) eq_refl)).
    + apply (bool_decide_unpack _). by vm_compute.
    + reflexivity.
  - apply (proj1 (proj2 (doSendTasks_counts (env := healthyEnv) 2000 mixed Hfair Hwf Hdisj
                    (fun _ => eq_refl) 1%positive (newTask "N1" 10) eq_refl))).
    + apply (bool_decide_unpack _). by vm_compute.
    + reflexivity.
Defined.

(** The registry of [stale] is well formed, and so it is after the tick at
    time 10000 that evicts two of its three tasks. *)
Lemma registry_wf_invariant_witness :
  registry_wf (PutTask 1%positive stale)
  /\ registry_wf (DelTask 1%positive stale)
  /\ registry_wf (tick (env := healthyEnv) 10000 stale).
Proof.
  apply (registry_wf_invariant (env := healthyEnv) 10000 1%positive stale).
  apply (bool_decide_unpack _). by vm_compute.
Defined.

(** At time 10000 the task N1 of [stale] is not timed out and stays
    registered. *)
Lemma tick_registry_witness :
  TaskMap (tick (env := healthyEnv) 10000 stale) !! "N1" = Some 3%positive.
Proof.
  apply (tick_registry (env := healthyEnv) 10000 stale).
  - intros site m. reflexivity.
  - apply (bool_decide_unpack _). by vm_compute.
  - split; [reflexivity|]. exists (newTask "N1" 10). split; reflexivity.
Defined.

(** The one task of [waiting] was sent two seconds ago: the tick sleeps. *)
Lemma tick_idle_witness :
  tick (env := healthyEnv) 2000 waiting = emit EvSleep waiting.
Proof.
  apply (tick_idle (env := healthyEnv) 2000 waiting).
  - intros site m. reflexivity.
  - intros k p t Hk Hp. cbn [TaskMap heap waiting] in Hk, Hp.
    apply lookup_singleton_Some in Hk as [<- <-].
    apply lookup_singleton_Some in Hp as [_ <-]. split; reflexivity.
Defined.

(** N1 is registered in [threeNormal]: putting it again changes nothing, and
    deleting it removes the entry under its id and no other. *)
Lemma PutTask_DelTask_witness :
  PutTask 1%positive threeNormal = threeNormal
  /\ TaskMap (DelTask 1%positive threeNormal) !! "N1" = None
  /\ TaskMap (DelTask 1%positive threeNormal) !! "N2" = Some 2%positive.
Proof.
  destruct (PutTask_DelTask 1%positive (newTask "N1" 10) threeNormal eq_refl)
    as [Htaken _].
  destruct (Htaken 1%positive eq_refl) as (Hput & Hdel & Hother).
  split; [exact Hput|]. split; [exact Hdel|].
  rewrite (Hother "N2"); [reflexivity | discriminate].
Defined.

End DispatchExamples.

Section RangePartitionsExamples.
Import Datanode Samples.
Local Open Scope Z_scope.

(** The directory of [sampleSpace] holds partition 5 alone: one call. *)
Lemma flushDelete_all_witness :
  flushDelete (map_to_list (partitions sampleSpace)) = [dp5]
  /\ length (flushDelete (map_to_list (partitions sampleSpace))) = 1%nat.
Proof.
  destruct (flushDelete_all sampleSpace (map_to_list (partitions sampleSpace)))
    as (Hrun & Hlen & _).
  - reflexivity.
  - split; [etrans; [exact Hrun | by vm_compute] | exact Hlen].
Defined.

(** A visitor that accepts every partition sees the whole walk. *)
Lemma RangePartitions_visits_witness :
  RangePartitions (Some (fun dp log => (true, log ++ [dp])))
    (map_to_list (partitions sampleSpace)) []
  = (map_to_list (partitions sampleSpace)).*2.
Proof.
  apply (RangePartitions_visits (fun _ => true) (map_to_list (partitions sampleSpace))).
  intros dp _. reflexivity.
Defined.

End RangePartitionsExamples.
